(** * Reactive pie-chart widgets: a shallow embedding and its properties

    The repository holds two Angular components, [D3PieComponent]
    (d3-pie.component.ts, an SVG widget drawn with d3) and
    [ChartjsPieComponent] (chartjs-pie.component.ts, a canvas widget that
    owns one Chart.js instance).  Both are embedded here as state-passing
    functions over explicit component records.

    Conventions of the embedding:
    - a JavaScript [number] is an exact rational, extended with [NaN] and
      the two infinities; binary64 rounding error and the sign of zero are
      not modelled.  Slice values are finite numbers;
    - [undefined] and [null] references are [None]; a statement that would
      dereference one completes abruptly ([Throw]);
    - the parts of d3, Chart.js and Angular that the components call are
      modelled by the small definitions of the modules [D3], [ChartJs] and
      by the event-driven [step] functions; geometry (arc paths, centroids),
      the digits of non-integral numbers and pseudo-random numbers stay
      parameters.

    The file has three parts: the embedding, the vocabulary in which the
    properties are stated, and the properties with their proofs. *)

From Stdlib Require Import List String Ascii Bool Arith ZArith QArith Qround Lia.
From Stdlib Require Import DecimalString HexadecimalString DecimalZ.
From Stdlib Require Import Permutation Sorted Lqa.
From Stdlib Require Nnat HexadecimalFacts HexadecimalPos HexadecimalN.
Import ListNotations.

Local Open Scope string_scope.
Local Open Scope list_scope.

(* ------------------------------------------------------------------ *)
(** ** Completions: normal return or a thrown error *)

Inductive completion (A : Type) : Type :=
| Normal (a : A)
| Throw (err : string).
Arguments Normal {A} a.
Arguments Throw {A} err.

Definition bind {A B} (c : completion A) (k : A -> completion B) : completion B :=
  match c with
  | Normal a => k a
  | Throw e => Throw e
  end.

Notation "x <- c ;; k" := (bind c (fun x => k))
  (at level 61, c at next level, right associativity).

(** Reading a property of a reference: a [TypeError] on [undefined]. *)
Definition deref {A} (r : option A) : completion A :=
  match r with
  | Some a => Normal a
  | None => Throw "TypeError"
  end.

(** JavaScript truthiness of an optional object reference. *)
Definition truthy {A} (r : option A) : bool :=
  match r with Some _ => true | None => false end.

(* ------------------------------------------------------------------ *)
(** ** JavaScript numbers *)

Module JS.

Inductive number : Type :=
| Fin (q : Q)
| PosInf
| NegInf
| NaN.

Definition Qis_zero (q : Q) : bool := Qeq_bool q 0.
Definition Qis_pos (q : Q) : bool := (0 <? Qnum q)%Z.

(** [a + b] *)
Definition add (a b : number) : number :=
  match a, b with
  | NaN, _ | _, NaN => NaN
  | PosInf, NegInf | NegInf, PosInf => NaN
  | PosInf, _ | _, PosInf => PosInf
  | NegInf, _ | _, NegInf => NegInf
  | Fin x, Fin y => Fin (x + y)
  end.

Definition neg (a : number) : number :=
  match a with
  | Fin x => Fin (- x)
  | PosInf => NegInf
  | NegInf => PosInf
  | NaN => NaN
  end.

(** Sign of a finite number: zero counts as positive (its sign is not
    modelled). *)
Definition signed (positive : bool) (a : number) : number :=
  if positive then a else neg a.

(** [a * b] *)
Definition mul (a b : number) : number :=
  match a, b with
  | NaN, _ | _, NaN => NaN
  | Fin x, Fin y => Fin (x * y)
  | Fin x, PosInf | PosInf, Fin x =>
      if Qis_zero x then NaN else signed (Qis_pos x) PosInf
  | Fin x, NegInf | NegInf, Fin x =>
      if Qis_zero x then NaN else signed (Qis_pos x) NegInf
  | PosInf, PosInf | NegInf, NegInf => PosInf
  | PosInf, NegInf | NegInf, PosInf => NegInf
  end.

(** [a / b]: division by zero does not throw. *)
Definition div (a b : number) : number :=
  match a, b with
  | NaN, _ | _, NaN => NaN
  | Fin x, Fin y =>
      if Qis_zero y
      then (if Qis_zero x then NaN else signed (Qis_pos x) PosInf)
      else Fin (x / y)
  | Fin _, PosInf | Fin _, NegInf => Fin 0
  | PosInf, Fin y => signed (Qis_zero y || Qis_pos y) PosInf
  | NegInf, Fin y => signed (Qis_zero y || Qis_pos y) NegInf
  | _, _ => NaN
  end.

(** [a >= b]: false whenever an operand is [NaN]. *)
Definition ge (a b : number) : bool :=
  match a, b with
  | NaN, _ | _, NaN => false
  | PosInf, _ => true
  | _, NegInf => true
  | NegInf, _ => false
  | _, PosInf => false
  | Fin x, Fin y => Qle_bool y x
  end.

(** [Math.round]: the nearest integer, ties towards +Infinity. *)
Definition Math_round (a : number) : number :=
  match a with
  | Fin x => Fin (inject_Z (Qfloor (x + (1 # 2))))
  | other => other
  end.

(** [Math.min] of two finite numbers. *)
Definition Qmin (x y : Q) : Q := if Qle_bool x y then x else y.

(** Decimal digits of an integer, as [Number.prototype.toString] prints
    them. *)
Definition Z_toString (z : Z) : string :=
  DecimalString.NilZero.string_of_int (Z.to_int z).

Section ToString.
(** The digits of a number that is not an integer are not computed here. *)
Variable fraction_toString : Q -> string.

(** [String(a)], as a template literal prints a number: for an integer the
    decimal digits (JavaScript changes to the exponent form from 10^21
    on, which is not modelled). *)
Definition toString (a : number) : string :=
  match a with
  | NaN => "NaN"
  | PosInf => "Infinity"
  | NegInf => "-Infinity"
  | Fin x =>
      let r := Qred x in
      if Pos.eqb (Qden r) 1 then Z_toString (Qnum r) else fraction_toString x
  end.
End ToString.

(** [Array.prototype.reduce((sum, val) => sum + val, 0)] *)
Definition sum_reduce (xs : list number) : number :=
  fold_left add xs (Fin 0).

(** [n.toString(16)] for a non-negative integer. *)
Definition toString16 (n : N) : string :=
  HexadecimalString.NilZero.string_of_uint (N.to_hex_uint n).

(** [s.padStart(len, "0")] *)
Definition padStart0 (len : nat) (s : string) : string :=
  (String.concat EmptyString (repeat "0" (len - String.length s)) ++ s)%string.

End JS.

(* ------------------------------------------------------------------ *)
(** ** Data model *)

(** [{ label: string, value: number, color?: string }] *)
Record Slice : Type := mkSlice {
  label : string;
  value : Q;
  color : option string
}.

(** [i.toString()] for an array index. *)
Definition index_toString (i : nat) : string := JS.Z_toString (Z.of_nat i).

(* ------------------------------------------------------------------ *)
(** ** The d3 functions that [D3PieComponent] calls

    d3 is a dependency of the repository.  The definitions of this module
    follow the library: [pie] is the function that d3-shape's [pie()]
    returns, [scale] is the function that d3-scale's [scaleOrdinal()]
    returns, and the element operations are those of d3-selection, each
    for the way the component calls it. *)

Module D3.

(** [tau = 2 * Math.PI], the binary64 value. *)
Definition tau : Q := 884279719003555 # 140737488355328.

(** [d3.schemeCategory10] *)
Definition schemeCategory10 : list string :=
  ["#1f77b4"; "#ff7f0e"; "#2ca02c"; "#d62728"; "#9467bd";
   "#8c564b"; "#e377c2"; "#7f7f7f"; "#bcbd22"; "#17becf"].

(** *** [d3.pie()] with its default settings
    ([startAngle = 0], [endAngle = tau], [padAngle = 0],
    [sortValues = descending], [sort = null]) and the accessor
    [d => d.value]. *)

Record PieArcDatum : Type := mkArc {
  arc_data : Slice;
  arc_index : nat;
  arc_value : Q;
  startAngle : Q;
  endAngle : Q;
  padAngle : Q
}.

(** [x < y] *)
Definition Qlt_bool (x y : Q) : bool := negb (Qle_bool y x).

(** The part a value adds to [sum]: [if (v > 0) sum += v]. *)
Definition positive_part (v : Q) : Q := if Qlt_bool 0 v then v else 0.

(** The first loop: [sum] of the values that are positive. *)
Definition pie_sum (data : list Slice) : Q :=
  fold_left (fun sum d => if Qlt_bool 0 (value d) then sum + value d else sum) data 0.

(** [index.sort((i, j) => descending(arcs[i], arcs[j]))]: a stable sort of
    the positions by descending value.  [insert_desc it sorted] places
    [it], which precedes every member of [sorted] in the array, in front of
    the first member whose value is not larger. *)
Fixpoint insert_desc (it : nat * Slice) (sorted : list (nat * Slice))
  : list (nat * Slice) :=
  match sorted with
  | [] => [it]
  | other :: rest =>
      if Qlt_bool (value (snd it)) (value (snd other))
      then other :: insert_desc it rest
      else it :: sorted
  end.

Fixpoint sort_desc (items : list (nat * Slice)) : list (nat * Slice) :=
  match items with
  | [] => []
  | it :: rest => insert_desc it (sort_desc rest)
  end.

(** The loop that hands out the angles:
    [for (i = 0; i < n; ++i, a0 = a1) { j = index[i]; v = arcs[j];
       a1 = a0 + (v > 0 ? v * k : 0) + pa;
       arcs[j] = {data: data[j], index: i, value: v,
                  startAngle: a0, endAngle: a1, padAngle: p} }] *)
Fixpoint place (k pa p a0 : Q) (i : nat) (sorted : list (nat * Slice))
  : list (nat * PieArcDatum) :=
  match sorted with
  | [] => []
  | (j, d) :: rest =>
      let v := value d in
      let a1 := a0 + (if Qlt_bool 0 v then v * k else 0) + pa in
      (j, mkArc d i v a0 a1 p) :: place k pa p a1 (S i) rest
  end.

(** [arcs[j]] after the loop. *)
Definition placed_at (j : nat) (placed : list (nat * PieArcDatum))
  : option PieArcDatum :=
  option_map snd (find (fun jp => Nat.eqb (fst jp) j) placed).

(** The content of [arcs[j]] before the second loop reaches it is the bare
    value; as every position is reached, this arc is never returned. *)
Definition unplaced (d : Slice) : PieArcDatum :=
  mkArc d 0 (value d) 0 0 0.

(** [pie(data)].  With the defaults, [da = tau], and the pad angle
    [p = min(|da| / n, 0)] and its signed form [pa] are 0; the arcs come
    back in the order of the data. *)
Definition pie (data : list Slice) : list PieArcDatum :=
  let n := List.length data in
  let items := combine (seq 0 n) data in
  let sum := pie_sum data in
  let da := tau in
  let p := 0 in
  let pa := 0 in
  let sorted := sort_desc items in
  let k := if JS.Qis_zero sum then 0 else (da - inject_Z (Z.of_nat n) * pa) / sum in
  let placed := place k pa p 0 0 sorted in
  map (fun jd => match placed_at (fst jd) placed with
                 | Some a => a
                 | None => unplaced (snd jd)
                 end) items.

(** The angular span of an arc. *)
Definition span (a : PieArcDatum) : Q := endAngle a - startAngle a.

(** *** [d3.scaleOrdinal(range)] with the implicit domain: a key that was
    not seen before is appended to the domain, and a key is mapped to
    [range[i % range.length]], [i] its position in the domain. *)

Record ordinal : Type := mkOrdinal {
  domain : list string;
  range : list string
}.

Definition scaleOrdinal (rng : list string) : ordinal := mkOrdinal [] rng.

Fixpoint index_of (key : string) (dom : list string) : option nat :=
  match dom with
  | [] => None
  | k :: rest =>
      if String.eqb k key then Some 0%nat else option_map S (index_of key rest)
  end.

Definition scale (s : ordinal) (key : string) : option string * ordinal :=
  match index_of key (domain s) with
  | Some i => (nth_error (range s) (i mod List.length (range s)), s)
  | None =>
      let i := List.length (domain s) in
      (nth_error (range s) (i mod List.length (range s)),
       mkOrdinal (domain s ++ [key]) (range s))
  end.

(** *** Selections over a small element tree *)

(** The event listeners the component registers. *)
Inductive handler : Type :=
| EmitArcClick         (* click: (event, d) => this.arcClick.emit(d.data) *)
| HighlightArc         (* mouseover of a path: highlight it, show the tooltip *)
| RevertArc            (* mouseout of a path: revert it, hide the tooltip *)
| HighlightArcOfLabel  (* mouseover of a label: the same for the group's path *)
| RevertArcOfLabel     (* mouseout of a label *)
| MoveTip.             (* mousemove: the tooltip follows the pointer *)

#[local] Set Warnings "-register-all".
Inductive Element : Type := mkElement {
  tag : string;
  attrs : list (string * string);
  styles : list (string * string);
  text : option string;
  datum : option PieArcDatum;
  listeners : list (string * handler);
  children : list Element
}.

(** A new element, with the datum it inherits. *)
Definition create (name : string) (d : option PieArcDatum) : Element :=
  mkElement name [] [] None d [] [].

Definition remove_key (name : string) (kvs : list (string * string)) :=
  filter (fun kv => negb (String.eqb (fst kv) name)) kvs.

(** [selection.attr(name, value)]: a [null] or [undefined] value removes
    the attribute. *)
Definition attr (name : string) (v : option string) (e : Element) : Element :=
  match e with
  | mkElement tg ats sts tx dt ls cs =>
      let others := remove_key name ats in
      mkElement tg
        (match v with Some s => others ++ [(name, s)] | None => others end)
        sts tx dt ls cs
  end.

Definition style (name v : string) (e : Element) : Element :=
  match e with
  | mkElement tg ats sts tx dt ls cs =>
      mkElement tg ats (remove_key name sts ++ [(name, v)]) tx dt ls cs
  end.

Definition set_text (s : string) (e : Element) : Element :=
  match e with
  | mkElement tg ats sts _ dt ls cs => mkElement tg ats sts (Some s) dt ls cs
  end.

Definition on (type : string) (h : handler) (e : Element) : Element :=
  match e with
  | mkElement tg ats sts tx dt ls cs =>
      mkElement tg ats sts tx dt
        (filter (fun l => negb (String.eqb (fst l) type)) ls ++ [(type, h)]) cs
  end.

Definition append (child : Element) (e : Element) : Element :=
  match e with
  | mkElement tg ats sts tx dt ls cs =>
      mkElement tg ats sts tx dt ls (cs ++ [child])
  end.

(** [selection.selectAll('*').remove()] on one element: every descendant
    leaves the tree. *)
Definition remove_all (e : Element) : Element :=
  match e with
  | mkElement tg ats sts tx dt ls _ => mkElement tg ats sts tx dt ls []
  end.

Definition get_attr (name : string) (e : Element) : option string :=
  option_map snd (find (fun kv => String.eqb (fst kv) name) (attrs e)).

Definition get_listener (type : string) (e : Element) : option handler :=
  option_map snd (find (fun l => String.eqb (fst l) type) (listeners e)).

(** All descendants of an element, in document order. *)
Fixpoint descendants (e : Element) : list Element :=
  match e with
  | mkElement _ _ _ _ _ _ cs => flat_map (fun c => c :: descendants c) cs
  end.

(** [selection.selectAll('.arc')] *)
Definition selectAll_class (cls : string) (e : Element) : list Element :=
  filter (fun x => match get_attr "class" x with
                   | Some c => String.eqb c cls
                   | None => false
                   end) (descendants e).

End D3.

(* ------------------------------------------------------------------ *)
(** ** [D3PieComponent] (d3-pie.component.ts) *)

Module D3Pie.
Import D3.

Record D3PieComponent : Type := mkComponent {
  data : list Slice;               (* input, default [] *)
  width : Q;                       (* input, default 300 *)
  height : Q;                      (* input, default 300 *)
  chartContainer : option Element; (* viewChild('chart'): the svg, once mounted *)
  arcClick : list Slice            (* the values emitted so far, oldest first *)
}.

Definition initial : D3PieComponent := mkComponent [] 300 300 None [].

Definition set_data (d : list Slice) (c : D3PieComponent) :=
  mkComponent d (width c) (height c) (chartContainer c) (arcClick c).
Definition set_width (w : Q) (c : D3PieComponent) :=
  mkComponent (data c) w (height c) (chartContainer c) (arcClick c).
Definition set_height (h : Q) (c : D3PieComponent) :=
  mkComponent (data c) (width c) h (chartContainer c) (arcClick c).
Definition set_chartContainer (r : option Element) (c : D3PieComponent) :=
  mkComponent (data c) (width c) (height c) r (arcClick c).
Definition emit (s : Slice) (c : D3PieComponent) :=
  mkComponent (data c) (width c) (height c) (chartContainer c) (arcClick c ++ [s]).

Section Draw.
(** Digits of non-integral numbers, and the geometry of [d3.arc()]
    (path data and centroid for given outer and inner radius). *)
Variable fraction_toString : Q -> string.
Variable arc_path : Q -> Q -> PieArcDatum -> string.
Variable arc_centroid : Q -> Q -> PieArcDatum -> string.

Definition num (q : Q) : string := JS.toString fraction_toString (JS.Fin q).

(** [(d, i) => d.data.color ?? color(i.toString())] *)
Definition fill_of (scl : ordinal) (d : PieArcDatum) (i : nat)
  : option string * ordinal :=
  match color (arc_data d) with
  | Some c => (Some c, scl)
  | None => scale scl (index_toString i)
  end.

(** [.attr('fill', ...)] visits the arcs in order, with one colour scale. *)
Fixpoint fills (scl : ordinal) (i : nat) (ds : list PieArcDatum)
  : list (option string) :=
  match ds with
  | [] => []
  | d :: rest =>
      let (f, scl') := fill_of scl d i in
      f :: fills scl' (S i) rest
  end.

(** [arcs.append('path')...] *)
Definition path_element (outer : Q) (d : PieArcDatum) (fill : option string)
  : Element :=
  on "mousemove" MoveTip
    (on "mouseout" RevertArc
      (on "mouseover" HighlightArc
        (on "click" EmitArcClick
          (style "cursor" "pointer"
            (attr "fill" fill
              (attr "d" (Some (arc_path outer 0 d))
                (create "path" (Some d)))))))).

(** [arcs.append('text')...] *)
Definition text_element (outer : Q) (d : PieArcDatum) : Element :=
  on "mousemove" MoveTip
    (on "mouseout" RevertArcOfLabel
      (on "mouseover" HighlightArcOfLabel
        (on "click" EmitArcClick
          (set_text (label (arc_data d))
            (style "cursor" "pointer"
              (style "font-weight" "bold"
                (style "font-size" "10px"
                  (style "font-family" "Helvetica, Arial, sans-serif"
                    (style "fill" "white"
                      (style "text-anchor" "middle"
                        (attr "dy" (Some "0.35em")
                          (attr "transform"
                             (Some ("translate(" ++ arc_centroid outer 0 d ++ ")")%string)
                             (create "text" (Some d)))))))))))))).

(** [.enter().append('g').attr('class', 'arc')] with its path and label. *)
Definition arc_group (outer : Q) (df : PieArcDatum * option string) : Element :=
  append (text_element outer (fst df))
    (append (path_element outer (fst df) (snd df))
      (attr "class" (Some "arc") (create "g" (Some (fst df))))).

(** What a draw puts on a cleared surface. *)
Definition drawn (svg : Element) (data : list Slice) (width height : Q)
  : Element :=
  let radius := JS.Qmin width height / 2 in
  let g := attr "transform"
             (Some ("translate(" ++ num (width / 2) ++ "," ++ num (height / 2) ++ ")")%string)
             (create "g" None) in
  let scl := scaleOrdinal schemeCategory10 in
  let arcs := pie data in
  let groups := map (arc_group (radius - 10)) (combine arcs (fills scl 0 arcs)) in
  append (fold_left (fun parent child => append child parent) groups g) svg.

(** [drawChart()].  The tooltip selection is used by the hover listeners
    only. *)
Definition drawChart (c : D3PieComponent) : completion D3PieComponent :=
  let chartRef := chartContainer c in
  if negb (truthy chartRef) then Normal c
  else
    el <- deref chartRef ;;
    let svg := remove_all el in
    Normal (set_chartContainer
              (Some (drawn svg (data c) (width c) (height c))) c).

Definition ngOnDestroy (c : D3PieComponent) : completion D3PieComponent :=
  let chartRef := chartContainer c in
  if truthy chartRef
  then el <- deref chartRef ;;
       Normal (set_chartContainer (Some (remove_all el)) c)
  else Normal c.

(** A click delivered to an element runs its click listener with the
    element's bound datum. *)
Definition click (target : Element) (c : D3PieComponent) : D3PieComponent :=
  match get_listener "click" target, datum target with
  | Some EmitArcClick, Some d => emit (arc_data d) c
  | _, _ => c
  end.

(** What the host and the framework do to a live component.  The effect
    [chartEffect] reads the three inputs and the view query inside
    [drawChart], so a change of any of them runs [drawChart] again;
    destruction is the last event. *)
Inductive event : Type :=
| SetData (d : list Slice)
| SetWidth (w : Q)
| SetHeight (h : Q)
| ViewReady (svg : Element)
| Click (target : Element)
| Destroy.

(** The component after one event. *)
Definition step (c : D3PieComponent) (e : event) : completion D3PieComponent :=
  match e with
  | SetData d => drawChart (set_data d c)
  | SetWidth w => drawChart (set_width w c)
  | SetHeight h => drawChart (set_height h c)
  | ViewReady svg => drawChart (set_chartContainer (Some svg) c)
  | Click target => Normal (click target c)
  | Destroy => ngOnDestroy c
  end.

End Draw.
End D3Pie.

(* ------------------------------------------------------------------ *)
(** ** The Chart.js objects that [ChartjsPieComponent] handles

    Chart.js and chartjs-plugin-datalabels are dependencies of the
    repository.  This module holds the configuration and chart records as
    far as the component fills them, and the way the plugins call the
    callbacks of the configuration for one segment. *)

Module ChartJs.

(** [datasets: [{ data, backgroundColor, hoverOffset, borderWidth,
    borderColor }]] *)
Record Dataset : Type := mkDataset {
  ds_data : list JS.number;
  backgroundColor : list string;
  hoverOffset : Q;
  borderWidth : Q;
  borderColor : string
}.

Record ChartData : Type := mkChartData {
  labels : list string;
  datasets : list Dataset
}.

(** What a callback returns: a number, a string or [undefined]. *)
Inductive jsvalue : Type :=
| VNumber (n : JS.number)
| VString (s : string)
| VUndefined.

(** The context handed to the datalabels callbacks:
    [context.chart.data], [context.dataIndex], [context.dataset]. *)
Record Context : Type := mkContext {
  chart_data : ChartData;
  dataIndex : nat;
  dataset : Dataset
}.

(** The tooltip item: [context.label], [context.raw], [context.chart.data]. *)
Record TooltipItem : Type := mkTooltipItem {
  item_label : option string;
  raw : JS.number;
  item_chart_data : ChartData
}.

(** [options], with the plugin options of the legend, the title, the
    tooltip and the data labels flattened into one record. *)
Record Options : Type := mkOptions {
  responsive : bool;
  maintainAspectRatio : bool;
  legend_display : bool;
  legend_position : string;
  title_display : bool;
  title_text : string;
  tooltip_label : TooltipItem -> completion string;
  datalabels_color : string;
  datalabels_font_weight : string;
  datalabels_font_size : Q;
  datalabels_textStrokeColor : string;
  datalabels_textStrokeWidth : Q;
  datalabels_textShadowBlur : Q;
  datalabels_textShadowColor : string;
  datalabels_formatter : JS.number -> Context -> completion jsvalue;
  datalabels_display : Context -> completion bool;
  animation_duration : Q;
  animation_easing : string
}.

Record ChartConfiguration : Type := mkConfig {
  type : string;
  config_data : ChartData;
  config_options : Options
}.

(** A chart instance: its current data and options, how often [update()]
    ran, and whether [destroy()] ran. *)
Record Chart : Type := mkChart {
  data : ChartData;
  options : Options;
  updates : nat;
  destroyed : bool
}.

(** An array element that may be [undefined], used as a number. *)
Definition to_number (v : option JS.number) : JS.number :=
  match v with Some n => n | None => JS.NaN end.

(** The datalabels plugin, for the segment [i] of the first dataset: the
    label is drawn when [display(context)] holds, with the text
    [formatter(value, context)]. *)
Definition label_context (ch : Chart) (i : nat) : completion Context :=
  ds <- deref (nth_error (datasets (data ch)) 0) ;;
  Normal (mkContext (data ch) i ds).

Definition inline_label_shown (ch : Chart) (i : nat) : completion bool :=
  ctx <- label_context ch i ;;
  datalabels_display (options ch) ctx.

Definition inline_label_text (ch : Chart) (i : nat) : completion jsvalue :=
  ctx <- label_context ch i ;;
  datalabels_formatter (options ch)
    (to_number (nth_error (ds_data (dataset ctx)) i)) ctx.

(** The tooltip item of the segment [i]. *)
Definition tooltip_item (ch : Chart) (i : nat) : completion TooltipItem :=
  ds <- deref (nth_error (datasets (data ch)) 0) ;;
  Normal (mkTooltipItem
            (nth_error (labels (data ch)) i)
            (to_number (nth_error (ds_data ds) i))
            (data ch)).

Definition tooltip_text (ch : Chart) (i : nat) : completion string :=
  it <- tooltip_item ch i ;;
  tooltip_label (options ch) it.

End ChartJs.

(* ------------------------------------------------------------------ *)
(** ** [ChartjsPieComponent] (chartjs-pie.component.ts) *)

Module ChartjsPie.
Import ChartJs.

Inductive LabelFormat : Type :=
| Label            (* 'label' *)
| Value            (* 'value' *)
| Percentage       (* 'percentage' *)
| LabelValue       (* 'label-value' *)
| LabelPercentage. (* 'label-percentage' *)

Record Inputs : Type := mkInputs {
  data : list Slice;          (* default [] *)
  width : Q;                  (* default 300 *)
  height : Q;                 (* default 300 *)
  title : string;             (* default '' *)
  showLegend : bool;          (* default false *)
  showInlineLabels : bool;    (* default true *)
  labelFormat : LabelFormat   (* default 'label' *)
}.

Definition default_inputs : Inputs :=
  mkInputs [] 300 300 EmptyString false true Label.

(** The canvas element: [getContext('2d')] gives a context or [null]. *)
Inductive Context2D : Type := context2D.
Record Canvas : Type := mkCanvas { getContext_2d : option Context2D }.

(** The component together with what it shares with the libraries: the
    chart instances created so far (a reference is a position in
    [charts]), the number of [Math.random()] calls made, the pending
    [afterNextRender] callback and the click subscription. *)
Record State : Type := mkState {
  inputs : Inputs;
  chartContainer : option Canvas;   (* viewChild('chart') *)
  chart : option nat;               (* private chart: Chart | null *)
  segmentClick : list Slice;        (* emitted so far, oldest first *)
  charts : list Chart;
  random_calls : nat;
  render_pending : bool;
  click_subscribed : bool;
  component_destroyed : bool
}.

(** The state the constructor leaves: nothing created, the
    [afterNextRender] callback registered. *)
Definition constructed : State :=
  mkState default_inputs None None [] [] 0 true false false.

Definition set_inputs (i : Inputs) (s : State) : State :=
  mkState i (chartContainer s) (chart s) (segmentClick s) (charts s)
    (random_calls s) (render_pending s) (click_subscribed s)
    (component_destroyed s).
Definition set_chartContainer (r : option Canvas) (s : State) : State :=
  mkState (inputs s) r (chart s) (segmentClick s) (charts s)
    (random_calls s) (render_pending s) (click_subscribed s)
    (component_destroyed s).
Definition set_chart (r : option nat) (s : State) : State :=
  mkState (inputs s) (chartContainer s) r (segmentClick s) (charts s)
    (random_calls s) (render_pending s) (click_subscribed s)
    (component_destroyed s).
Definition emit (x : Slice) (s : State) : State :=
  mkState (inputs s) (chartContainer s) (chart s) (segmentClick s ++ [x])
    (charts s) (random_calls s) (render_pending s) (click_subscribed s)
    (component_destroyed s).
Definition set_charts (cs : list Chart) (s : State) : State :=
  mkState (inputs s) (chartContainer s) (chart s) (segmentClick s) cs
    (random_calls s) (render_pending s) (click_subscribed s)
    (component_destroyed s).
Definition set_random_calls (n : nat) (s : State) : State :=
  mkState (inputs s) (chartContainer s) (chart s) (segmentClick s) (charts s)
    n (render_pending s) (click_subscribed s) (component_destroyed s).
Definition set_render_pending (b : bool) (s : State) : State :=
  mkState (inputs s) (chartContainer s) (chart s) (segmentClick s) (charts s)
    (random_calls s) b (click_subscribed s) (component_destroyed s).
Definition set_click_subscribed (b : bool) (s : State) : State :=
  mkState (inputs s) (chartContainer s) (chart s) (segmentClick s) (charts s)
    (random_calls s) (render_pending s) b (component_destroyed s).
Definition set_component_destroyed (b : bool) (s : State) : State :=
  mkState (inputs s) (chartContainer s) (chart s) (segmentClick s) (charts s)
    (random_calls s) (render_pending s) (click_subscribed s) b.

(** Replace the element at a position of an array that has it. *)
Fixpoint update_at {A} (i : nat) (x : A) (l : list A) : list A :=
  match l, i with
  | [], _ => []
  | _ :: rest, O => x :: rest
  | y :: rest, S j => y :: update_at j x rest
  end.

Section Widget.
(** Digits of non-integral numbers, and the value of the n-th call of
    [Math.random()]. *)
Variable fraction_toString : Q -> string.
Variable Math_random : nat -> Q.

Definition num : JS.number -> string := JS.toString fraction_toString.

(** ['#' + Math.floor(Math.random() * 16777215).toString(16).padStart(6, '0')] *)
Definition getRandomColor (s : State) : string * State :=
  let r := Math_random (random_calls s) in
  let n := Qfloor (r * 16777215) in
  (("#" ++ JS.padStart0 6 (JS.toString16 (Z.to_N n)))%string,
   set_random_calls (S (random_calls s)) s).

(** [data.map(item => item.color || this.getRandomColor())]: an absent or
    empty colour is falsy. *)
Fixpoint background_colors (items : list Slice) (s : State)
  : list string * State :=
  match items with
  | [] => ([], s)
  | item :: rest =>
      let (c, s1) :=
        match color item with
        | Some c => if String.eqb c EmptyString then getRandomColor s else (c, s)
        | None => getRandomColor s
        end in
      let (cs, s2) := background_colors rest s1 in
      (c :: cs, s2)
  end.

(** [chart.data.datasets[0].data.reduce((sum, val) => sum + val, 0)] *)
Definition total_of (cd : ChartData) : completion JS.number :=
  ds <- deref (nth_error (datasets cd) 0) ;;
  Normal (JS.sum_reduce (ds_data ds)).

(** [Math.round((value / total) * 100)] *)
Definition rounded_percentage (value total : JS.number) : JS.number :=
  JS.Math_round (JS.mul (JS.div value total) (JS.Fin 100)).

(** [tooltip.callbacks.label]; the label is [context.label || '']. *)
Definition tooltip_label_callback (context : TooltipItem) : completion string :=
  let label :=
    match item_label context with Some l => l | None => EmptyString end in
  let value := raw context in
  total <- total_of (item_chart_data context) ;;
  let percentage := rounded_percentage value total in
  Normal (label ++ ": " ++ num value ++ " (" ++ num percentage ++ "%)")%string.

(** An array element inside a template literal. *)
Definition template (l : option string) : string :=
  match l with Some s => s | None => "undefined" end.

(** [datalabels.formatter], closed over [labelFormat]. *)
Definition formatter (labelFormat : LabelFormat) (value : JS.number)
    (context : Context) : completion jsvalue :=
  let label := nth_error (labels (chart_data context)) (dataIndex context) in
  total <- total_of (chart_data context) ;;
  let percentage := rounded_percentage value total in
  Normal
    match labelFormat with
    | Value => VNumber value
    | Percentage => VString (num percentage ++ "%")%string
    | LabelValue => VString (template label ++ ": " ++ num value)%string
    | LabelPercentage =>
        VString (template label ++ ": " ++ num percentage ++ "%")%string
    | Label =>
        match label with Some l => VString l | None => VUndefined end
    end.

(** [datalabels.display], closed over [showInlineLabels]. *)
Definition display (showInlineLabels : bool) (context : Context)
  : completion bool :=
  if negb showInlineLabels then Normal false
  else
    total <- total_of (chart_data context) ;;
    let value :=
      to_number (nth_error (ds_data (dataset context)) (dataIndex context)) in
    let percentage := JS.mul (JS.div value total) (JS.Fin 100) in
    Normal (JS.ge percentage (JS.Fin 5)).

Definition getChartConfig (s : State) : ChartConfiguration * State :=
  let data := data (inputs s) in
  let showInlineLabels := showInlineLabels (inputs s) in
  let labelFormat := labelFormat (inputs s) in
  let (colors, s1) := background_colors data s in
  (mkConfig "pie"
     (mkChartData
        (map (fun item => label item) data)
        [mkDataset (map (fun item => JS.Fin (value item)) data) colors
           10 1 "#fff"])
     (mkOptions true false
        (showLegend (inputs s)) "top"
        (negb (String.eqb (title (inputs s)) EmptyString)) (title (inputs s))
        tooltip_label_callback
        "#fff" "bold" 12 "#000" 1 3 "rgba(0,0,0,0.5)"
        (formatter labelFormat)
        (display showInlineLabels)
        1000 "easeInOutQuart"),
   s1).

(** [new Chart(ctx, config)]: a new instance, referred to by its position. *)
Definition new_Chart (ctx : Context2D) (config : ChartConfiguration)
    (s : State) : nat * State :=
  (List.length (charts s),
   set_charts
     (charts s ++ [mkChart (config_data config) (config_options config) 0 false]) s).

(** The click subscription of [initChart]. *)
Definition on_canvas_click (points : list nat) (s : State) : completion State :=
  if negb (truthy (chart s)) then Normal s
  else
    match points with
    | [] => Normal s
    | index :: _ =>
        let dataItem := nth_error (data (inputs s)) index in
        if truthy dataItem
        then item <- deref dataItem ;; Normal (emit item s)
        else Normal s
    end.

Definition initChart (s : State) : completion State :=
  let chartRef := chartContainer s in
  if negb (truthy chartRef) then Normal s
  else
    canvas <- deref chartRef ;;
    let ctx := getContext_2d canvas in
    if negb (truthy ctx) then Normal s
    else
      ctx2d <- deref ctx ;;
      let s1 := set_click_subscribed true s in
      let (config, s2) := getChartConfig s1 in
      let (ref, s3) := new_Chart ctx2d config s2 in
      Normal (set_chart (Some ref) s3).

Definition updateChart (s : State) : completion State :=
  if negb (truthy (chart s)) then Normal s
  else
    ref <- deref (chart s) ;;
    let (config, s1) := getChartConfig s in
    ch <- deref (nth_error (charts s1) ref) ;;
    Normal (set_charts
              (update_at ref
                 (mkChart (config_data config) (config_options config)
                    (S (updates ch)) (destroyed ch))
                 (charts s1)) s1).

Definition ngOnDestroy (s : State) : completion State :=
  if truthy (chart s)
  then
    ref <- deref (chart s) ;;
    ch <- deref (nth_error (charts s) ref) ;;
    Normal (set_chart None
              (set_charts
                 (update_at ref
                    (mkChart (ChartJs.data ch) (options ch) (updates ch) true)
                    (charts s)) s))
  else Normal s.

(** What the host, the framework and the user do to the component.
    The effect of the constructor reads the seven inputs and calls
    [updateChart]; [afterNextRender] runs its callback once; a canvas
    click carries the indices that [getElementsAtEventForMode(event,
    'nearest', { intersect: true }, false)] finds; destruction also ends
    the effect, the click subscription and a pending render callback. *)
Inductive event : Type :=
| SetInputs (i : Inputs)
| ViewReady (canvas : Canvas)
| AfterNextRender
| CanvasClick (points : list nat)
| Destroy.

(** The component after one event; nothing reaches a destroyed
    component. *)
Definition step (s : State) (e : event) : completion State :=
  if component_destroyed s then Normal s
  else
    match e with
    | SetInputs i => updateChart (set_inputs i s)
    | ViewReady canvas => Normal (set_chartContainer (Some canvas) s)
    | AfterNextRender =>
        if render_pending s
        then initChart (set_render_pending false s)
        else Normal s
    | CanvasClick points =>
        if click_subscribed s then on_canvas_click points s else Normal s
    | Destroy =>
        s' <- ngOnDestroy s ;;
        Normal (set_component_destroyed true
                  (set_click_subscribed false
                     (set_render_pending false s')))
    end.

(** The component after a sequence of events. *)
Fixpoint run (s : State) (es : list event) : completion State :=
  match es with
  | [] => Normal s
  | e :: rest => s' <- step s e ;; run s' rest
  end.

End Widget.
End ChartjsPie.

(* ------------------------------------------------------------------ *)
(** ** The hover listeners of [D3PieComponent] (d3-pie.component.ts)

    A listener starts a transition of 150 ms on the path; the element is
    taken as it is when the transition has ended.  The scale [color] of the
    draw is shared by the fill callback and by the listeners. *)

Module D3PieHover.
Import D3 D3Pie.

(** The pointer position of a mouse event. *)
Record PointerEvent : Type := mkPointer {
  pageX : Q;
  pageY : Q
}.

(** The state of the scale [color] when [.attr('fill', ...)] has visited
    the arcs. *)
Fixpoint scale_after_fills (scl : ordinal) (i : nat) (ds : list PieArcDatum)
  : ordinal :=
  match ds with
  | [] => scl
  | d :: rest =>
      let (_, scl') := fill_of scl d i in
      scale_after_fills scl' (S i) rest
  end.

(** [d.data.color ?? color(d.index.toString())] *)
Definition stroke_of (scl : ordinal) (d : PieArcDatum) : option string * ordinal :=
  match color (arc_data d) with
  | Some c => (Some c, scl)
  | None => scale scl (index_toString (arc_index d))
  end.

(** [.attr('stroke', ...).attr('stroke-width', 2).attr('opacity', 0.7)
     .attr('transform', 'scale(1.02)')] *)
Definition highlight (stroke : option string) (path : Element) : Element :=
  attr "transform" (Some "scale(1.02)")
    (attr "opacity" (Some "0.7")
      (attr "stroke-width" (Some "2")
        (attr "stroke" stroke path))).

(** [.attr('stroke', null).attr('stroke-width', null).attr('opacity', 1)
     .attr('transform', 'scale(1)')] *)
Definition revert (path : Element) : Element :=
  attr "transform" (Some "scale(1)")
    (attr "opacity" (Some "1")
      (attr "stroke-width" None
        (attr "stroke" None path))).

(** [d3.select(this.parentNode).select('path')], changed by [f]: the first
    path among the children of the group. *)
Fixpoint change_first_path (f : Element -> Element) (cs : list Element)
  : list Element :=
  match cs with
  | [] => []
  | c :: rest =>
      if String.eqb (tag c) "path" then f c :: rest
      else c :: change_first_path f rest
  end.

Definition change_path_of (f : Element -> Element) (grp : Element) : Element :=
  match grp with
  | mkElement tg ats sts tx dt ls cs =>
      mkElement tg ats sts tx dt ls (change_first_path f cs)
  end.

Section Tooltip.
(** Digits of non-integral numbers. *)
Variable fraction_toString : Q -> string.

Definition px (q : Q) : string :=
  (JS.toString fraction_toString (JS.Fin q) ++ "px")%string.

(** [tooltip.style('left', (event.pageX + 10) + 'px')
            .style('top', (event.pageY - 25) + 'px')] *)
Definition move_tooltip (ev : PointerEvent) (tooltip : Element) : Element :=
  style "top" (px (pageY ev - 25)) (style "left" (px (pageX ev + 10)) tooltip).

(** The tooltip of the mouseover listeners; the markup set by [.html(...)]
    is kept in the text of the element. *)
Definition show_tooltip (ev : PointerEvent) (d : PieArcDatum) (tooltip : Element)
  : Element :=
  set_text
    ("<strong>" ++ label (arc_data d) ++ "</strong>: "
       ++ JS.toString fraction_toString (JS.Fin (value (arc_data d))))%string
    (style "font-weight" "bold"
      (style "font-size" "10px"
        (style "font-family" "Helvetica, Arial, sans-serif"
          (style "fill" "white"
            (move_tooltip ev (style "opacity" "1" tooltip)))))).

(** [tooltip.style('opacity', 0)] *)
Definition hide_tooltip (tooltip : Element) : Element :=
  style "opacity" "0" tooltip.

(** The mouseover listener of a path: the path, the tooltip and the scale
    afterwards. *)
Definition mouseover_path (scl : ordinal) (ev : PointerEvent)
    (tooltip path : Element) : completion (Element * Element * ordinal) :=
  d <- deref (datum path) ;;
  let (stroke, scl') := stroke_of scl d in
  Normal (highlight stroke path, show_tooltip ev d tooltip, scl').

(** The mouseout listener of a path. *)
Definition mouseout_path (tooltip path : Element) : Element * Element :=
  (revert path, hide_tooltip tooltip).

(** The mouseover listener of a label, for the label and its group. *)
Definition mouseover_label (scl : ordinal) (ev : PointerEvent)
    (tooltip lbl grp : Element) : completion (Element * Element * ordinal) :=
  d <- deref (datum lbl) ;;
  let (stroke, scl') := stroke_of scl d in
  Normal (change_path_of (highlight stroke) grp, show_tooltip ev d tooltip, scl').

(** The mouseout listener of a label. *)
Definition mouseout_label (tooltip grp : Element) : Element * Element :=
  (change_path_of revert grp, hide_tooltip tooltip).

End Tooltip.
End D3PieHover.

(* ------------------------------------------------------------------ *)
(** ** The earlier revision of [D3PieComponent] (src/unnamed/part_003)

    It redraws from [ngOnChanges], has no tooltip, and its labels carry no
    listener. *)

Module D3PieLegacy.
Import D3 D3Pie.

(** The mouseover listener of a path: [.attr('stroke', ...)
    .attr('stroke-width', 3).attr('opacity', 0.8)]. *)
Definition highlight (stroke : option string) (path : Element) : Element :=
  attr "opacity" (Some "0.8")
    (attr "stroke-width" (Some "3")
      (attr "stroke" stroke path)).

(** The mouseout listener of a path. *)
Definition revert (path : Element) : Element :=
  attr "opacity" (Some "1")
    (attr "stroke-width" None
      (attr "stroke" None path)).

Section Draw.
Variable fraction_toString : Q -> string.
Variable arc_path : Q -> Q -> PieArcDatum -> string.
Variable arc_centroid : Q -> Q -> PieArcDatum -> string.

(** [arcs.append('path')...] *)
Definition path_element (outer : Q) (d : PieArcDatum) (fill : option string)
  : Element :=
  on "mouseout" RevertArc
    (on "mouseover" HighlightArc
      (on "click" EmitArcClick
        (style "cursor" "pointer"
          (attr "fill" fill
            (attr "d" (Some (arc_path outer 0 d))
              (create "path" (Some d))))))).

(** [arcs.append('text')...] *)
Definition text_element (outer : Q) (d : PieArcDatum) : Element :=
  set_text (label (arc_data d))
    (style "text-anchor" "middle"
      (attr "dy" (Some "0.35em")
        (attr "transform"
           (Some ("translate(" ++ arc_centroid outer 0 d ++ ")")%string)
           (create "text" (Some d))))).

Definition arc_group (outer : Q) (df : PieArcDatum * option string) : Element :=
  append (text_element outer (fst df))
    (append (path_element outer (fst df) (snd df))
      (attr "class" (Some "arc") (create "g" (Some (fst df))))).

Definition drawn (svg : Element) (data : list Slice) (width height : Q)
  : Element :=
  let radius := JS.Qmin width height / 2 in
  let g := attr "transform"
             (Some ("translate(" ++ num fraction_toString (width / 2) ++ ","
                      ++ num fraction_toString (height / 2) ++ ")")%string)
             (create "g" None) in
  let scl := scaleOrdinal schemeCategory10 in
  let arcs := pie data in
  let groups := map (arc_group (radius - 10)) (combine arcs (fills scl 0 arcs)) in
  append (fold_left (fun parent child => append child parent) groups g) svg.

Definition drawChart (c : D3PieComponent) : completion D3PieComponent :=
  let chartRef := chartContainer c in
  if negb (truthy chartRef) then Normal c
  else
    el <- deref chartRef ;;
    let svg := remove_all el in
    Normal (set_chartContainer
              (Some (drawn svg (data c) (width c) (height c))) c).

(** [ngOnChanges() { this.drawChart(); }] *)
Definition ngOnChanges (c : D3PieComponent) : completion D3PieComponent :=
  drawChart c.

Definition ngOnDestroy (c : D3PieComponent) : completion D3PieComponent :=
  let chartRef := chartContainer c in
  if truthy chartRef
  then el <- deref chartRef ;;
       Normal (set_chartContainer (Some (remove_all el)) c)
  else Normal c.

End Draw.
End D3PieLegacy.

(* ================================================================== *)
(** * Vocabulary of the properties *)

(** ** The pie layout *)

Module PieSpec.
Import D3.

(** The positions of a list of positioned items. *)
Definition keys {A} (l : list (nat * A)) : list nat := map fst l.

(** Descending by value. *)
Definition desc (x y : nat * Slice) : Prop := value (snd y) <= value (snd x).

(** Stability: slices of equal value keep their order in the array. *)
Definition before (x y : nat * Slice) : Prop :=
  value (snd y) < value (snd x) \/
  (value (snd y) == value (snd x) /\ (fst x < fst y)%nat).

(** The positions paired with the slices: [0 .. n-1], each once. *)
Definition items_of (data : list Slice) : list (nat * Slice) :=
  combine (seq 0 (List.length data)) data.

(** Each arc starts where the one before it ended. *)
Fixpoint chained (a0 : Q) (arcs : list PieArcDatum) : Prop :=
  match arcs with
  | [] => True
  | a :: rest => startAngle a == a0 /\ chained (endAngle a) rest
  end.

(** The sum of the angular spans. *)
Definition spans_sum (arcs : list PieArcDatum) : Q :=
  fold_right Qplus 0 (map span arcs).

(** What the loop stores for one slice. *)
Definition placed_ok (k pa : Q) (d : Slice) (a : PieArcDatum) : Prop :=
  arc_data a = d /\ arc_value a = value d /\
  endAngle a == startAngle a + positive_part (value d) * k + pa.

(** The factor [k] of the layout. *)
Definition pie_k (data : list Slice) : Q :=
  if JS.Qis_zero (pie_sum data) then 0
  else (tau - inject_Z (Z.of_nat (List.length data)) * 0) / pie_sum data.

(** The arcs in the order in which the loop visits them. *)
Definition ranked (data : list Slice) : list PieArcDatum :=
  map snd (place (pie_k data) 0 0 0 0 (sort_desc (items_of data))).

(** The arc that [pie] returns for a positioned slice. *)
Definition arc_for (placed : list (nat * PieArcDatum)) (jd : nat * Slice)
  : PieArcDatum :=
  match placed_at (fst jd) placed with
  | Some a => a
  | None => unplaced (snd jd)
  end.

(** The sum of the parts that count, as a right fold. *)
Definition positive_total (data : list Slice) : Q :=
  fold_right Qplus 0 (map (fun d => positive_part (value d)) data).

(** The sum of the values, as [reduce] computes it. *)
Definition total_value (data : list Slice) : Q :=
  fold_left Qplus (map value data) 0.

End PieSpec.

(** ** The SVG widget *)

Module D3PieSpec.
Import D3 D3Pie.

(** The rendered segments: the arc groups on the surface. *)
Definition segments (c : D3PieComponent) : list Element :=
  match chartContainer c with
  | Some svg => selectAll_class "arc" svg
  | None => []
  end.

(** The path of an arc group. *)
Definition path_of (grp : Element) : option Element :=
  List.hd_error (filter (fun x => String.eqb (tag x) "path") (children grp)).

(** The label of an arc group. *)
Definition label_of (grp : Element) : option Element :=
  List.hd_error (filter (fun x => String.eqb (tag x) "text") (children grp)).

(** The test of [selectAll_class]. *)
Definition has_class (cls : string) (x : Element) : bool :=
  match get_attr "class" x with
  | Some c => String.eqb c cls
  | None => false
  end.

(** The fills by rank among the slices without a colour of their own,
    [k] of which came before. *)
Fixpoint fills_by_rank (pal : list string) (k : nat) (ds : list Slice)
  : list (option string) :=
  match ds with
  | [] => []
  | d :: rest =>
      match color d with
      | Some c => Some c :: fills_by_rank pal k rest
      | None =>
          nth_error pal (k mod List.length pal) :: fills_by_rank pal (S k) rest
      end
  end.

(** The number of slices without a colour of their own before a position. *)
Definition uncoloured_before (data : list Slice) (i : nat) : nat :=
  List.length (filter (fun d => negb (truthy (color d))) (firstn i data)).

(** The fill of a slice: its own colour, else the palette colour at its
    rank among the slices without a colour, cycling through the palette. *)
Definition fill_by_rank (data : list Slice) (i : nat) (x : Slice) : option string :=
  match color x with
  | Some c => Some c
  | None => nth_error schemeCategory10 (uncoloured_before data i mod 10)
  end.

(** The palette colour at the position itself, for comparison. *)
Definition fill_by_position (i : nat) (x : Slice) : option string :=
  match color x with
  | Some c => Some c
  | None => nth_error schemeCategory10 (i mod 10)
  end.

(** The fill of the path of the segment at a position. *)
Definition shown_fill (st : completion D3Pie.D3PieComponent) (i : nat)
  : option string :=
  match st with
  | Normal c =>
      match nth_error (D3PieSpec.segments c) i with
      | Some grp =>
          match D3PieSpec.path_of grp with
          | Some path => D3.get_attr "fill" path
          | None => None
          end
      | None => None
      end
  | Throw _ => None
  end.

Section Geometry.
Variable arc_path : Q -> Q -> PieArcDatum -> string.
Variable arc_centroid : Q -> Q -> PieArcDatum -> string.

(** The arc groups a draw puts on the surface. *)
Definition groups_of (data : list Slice) (width height : Q) : list Element :=
  map (arc_group arc_path arc_centroid (JS.Qmin width height / 2 - 10))
    (combine (pie data) (fills (scaleOrdinal schemeCategory10) 0 (pie data))).

End Geometry.
End D3PieSpec.

(** ** The canvas widget *)

Module ChartjsPieSpec.
Import ChartJs ChartjsPie.

(** The chart instance the component holds. *)
Definition current_chart (s : State) : option Chart :=
  match chart s with
  | Some ref => nth_error (charts s) ref
  | None => None
  end.

(** Two states that differ at most in the number of random draws. *)
Definition same_but_random (s s' : State) : Prop :=
  s' = set_random_calls (random_calls s') s.

(** The chart data that [getChartConfig] derives from the inputs, for
    some choice of the colours. *)
Definition data_of (i : Inputs) (colors : list string) : ChartData :=
  mkChartData
    (map (fun item => label item) (data i))
    [mkDataset (map (fun item => JS.Fin (value item)) (data i)) colors
       10 1 "#fff"].

(** [value / total * 100] of a slice, as the callbacks compute it. *)
Definition percentage_of (v total : Q) : JS.number :=
  JS.mul (JS.div (JS.Fin v) (JS.Fin total)) (JS.Fin 100).

(** A component without a chart, without a pending render callback and
    without a click subscription stays so. *)
Definition inert (s : State) : Prop :=
  chart s = None /\ render_pending s = false /\ click_subscribed s = false.

(** The label texts that a state shows at some positions, or nothing when
    the run failed or holds no chart. *)
Definition shown_texts (st : completion ChartjsPie.State) (ns : list nat)
  : list (completion ChartJs.jsvalue) :=
  match st with
  | Normal s =>
      match ChartjsPieSpec.current_chart s with
      | Some ch => map (ChartJs.inline_label_text ch) ns
      | None => []
      end
  | Throw _ => []
  end.

(** The display flags that a state shows at some positions. *)
Definition shown_flags (st : completion ChartjsPie.State) (ns : list nat)
  : list (completion bool) :=
  match st with
  | Normal s =>
      match ChartjsPieSpec.current_chart s with
      | Some ch => map (ChartJs.inline_label_shown ch) ns
      | None => []
      end
  | Throw _ => []
  end.

(** The tooltip texts that a state shows at some positions. *)
Definition shown_tooltips (st : completion ChartjsPie.State) (ns : list nat)
  : list (completion string) :=
  match st with
  | Normal s =>
      match ChartjsPieSpec.current_chart s with
      | Some ch => map (ChartJs.tooltip_text ch) ns
      | None => []
      end
  | Throw _ => []
  end.

(** The state of a run that returned. *)
Definition state_of (st : completion ChartjsPie.State) : ChartjsPie.State :=
  match st with
  | Normal s => s
  | Throw _ => ChartjsPie.constructed
  end.

Section Digits.
Variable fraction_toString : Q -> string.

(** The options that [getChartConfig] derives from the inputs. *)
Definition options_of (i : Inputs) : Options :=
  mkOptions true false
    (showLegend i) "top"
    (negb (String.eqb (title i) EmptyString)) (title i)
    (tooltip_label_callback fraction_toString)
    "#fff" "bold" 12 "#000" 1 3 "rgba(0,0,0,0.5)"
    (formatter fraction_toString (labelFormat i))
    (display (showInlineLabels i))
    1000 "easeInOutQuart".

(** A chart that shows the inputs. *)
Definition configured (i : Inputs) (ch : Chart) : Prop :=
  exists colors,
    List.length colors = List.length (data i) /\
    ChartJs.data ch = data_of i colors /\
    options ch = options_of i.

(** What holds in every state that a run reaches: with a chart reference,
    the component is alive and subscribed, the render callback has run, and
    the reference points to the only instance, which is not destroyed and
    shows the current inputs; without one, a live component has no
    instance, no subscription and has emitted nothing, and a destroyed one
    has at most one instance, destroyed. *)
Definition Inv (s : State) : Prop :=
  match chart s with
  | Some ref =>
      ref = 0%nat /\ component_destroyed s = false /\
      click_subscribed s = true /\ render_pending s = false /\
      exists ch, charts s = [ch] /\ destroyed ch = false /\
                 configured (inputs s) ch
  | None =>
      if component_destroyed s
      then (List.length (charts s) <= 1)%nat /\
           Forall (fun ch => destroyed ch = true) (charts s) /\
           click_subscribed s = false /\ render_pending s = false
      else charts s = [] /\ click_subscribed s = false /\ segmentClick s = []
  end.

(** The inline label text by label format: the raw value, the rounded
    percentage with a percent sign, "label: value", "label: pct%", or the
    raw label. *)
Definition label_text (fmt : LabelFormat) (x : Slice) (total : Q) : jsvalue :=
  let pct := num fraction_toString (JS.Math_round (percentage_of (value x) total)) in
  match fmt with
  | Value => VNumber (JS.Fin (value x))
  | Percentage => VString (pct ++ "%")%string
  | LabelValue => VString (label x ++ ": " ++ num fraction_toString (JS.Fin (value x)))%string
  | LabelPercentage => VString (label x ++ ": " ++ pct ++ "%")%string
  | Label => VString (label x)
  end.

End Digits.
End ChartjsPieSpec.

(** ** Concrete inputs *)

Module Samples.
Import ChartjsPieSpec.

(** Stand-ins for the parameters: no digits for fractions, empty path
    data, and a random source that always gives one half. *)
Definition no_fraction (q : Q) : string := EmptyString.

Definition no_geometry (outer inner : Q) (d : D3.PieArcDatum) : string :=
  EmptyString.

Definition half_random (n : nat) : Q := 1 # 2.

(** The slices A: 30, B: 50, C: 20. *)
Definition sample_ABC : list Slice :=
  [mkSlice "A" 30 None; mkSlice "B" 50 None; mkSlice "C" 20 None].

(** The SVG widget with these slices and a mounted, empty surface. *)
Definition sample_svg : D3Pie.D3PieComponent :=
  D3Pie.mkComponent sample_ABC 300 300 (Some (D3.create "svg" None)) [].

(** Mount the canvas, set the inputs, let the render callback run. *)
Definition sample_events (slices : list Slice) (fmt : ChartjsPie.LabelFormat)
  : list ChartjsPie.event :=
  [ChartjsPie.ViewReady (ChartjsPie.mkCanvas (Some ChartjsPie.context2D));
   ChartjsPie.SetInputs (ChartjsPie.mkInputs slices 300 300 EmptyString false true fmt);
   ChartjsPie.AfterNextRender].

(** The chart of a state that holds one. *)
Definition chart_of (s : ChartjsPie.State) : ChartJs.Chart :=
  match ChartjsPieSpec.current_chart s with
  | Some ch => ch
  | None =>
      ChartJs.mkChart (ChartJs.mkChartData [] [])
        (options_of no_fraction ChartjsPie.default_inputs) 0 false
  end.

(** The canvas widget after [sample_events]. *)
Definition sample_canvas (slices : list Slice) (fmt : ChartjsPie.LabelFormat)
  : ChartjsPie.State :=
  state_of (ChartjsPie.run no_fraction half_random ChartjsPie.constructed
              (sample_events slices fmt)).

End Samples.

Import PieSpec D3PieSpec ChartjsPieSpec Samples.

(** ** Colours, labels and hovering *)

Module MoreSpec.
Import D3.

(** A colour that [item.color || ...] replaces: absent or empty. *)
Definition falsy_color (x : Slice) : bool :=
  match color x with
  | Some c => String.eqb c EmptyString
  | None => true
  end.

(** The number of slices with such a colour before a position. *)
Definition falsy_before (items : list Slice) (i : nat) : nat :=
  List.length (filter falsy_color (firstn i items)).

(** The colour that [getRandomColor] makes of the value of
    [Math.random()]. *)
Definition random_color (r : Q) : string :=
  ("#" ++ JS.padStart0 6 (JS.toString16 (Z.to_N (Qfloor (r * 16777215)))))%string.

(** The inputs of the canvas widget after a step. *)
Definition inputs_after (s : ChartjsPie.State) (e : ChartjsPie.event)
  : ChartjsPie.Inputs :=
  match e with
  | ChartjsPie.SetInputs i =>
      if ChartjsPie.component_destroyed s then ChartjsPie.inputs s else i
  | _ => ChartjsPie.inputs s
  end.

(** Whether the inline label of a segment is displayed. *)
Definition is_shown (ch : ChartJs.Chart) (n : nat) : bool :=
  match ChartJs.inline_label_shown ch n with
  | Normal true => true
  | _ => false
  end.

(** The positions of the segments whose inline label is displayed. *)
Definition shown_positions (ch : ChartJs.Chart) (count : nat) : list nat :=
  filter (is_shown ch) (seq 0 count).

(** The fill of the path and the text of the label of an arc group. *)
Definition fill_in (grp : Element) : option string :=
  match D3PieSpec.path_of grp with
  | Some path => get_attr "fill" path
  | None => None
  end.

Definition label_in (grp : Element) : option string :=
  match D3PieSpec.label_of grp with
  | Some lbl => text lbl
  | None => None
  end.

(** [selection.style(name)], read back. *)
Definition get_style (name : string) (e : Element) : option string :=
  option_map snd (find (fun kv => String.eqb (fst kv) name) (styles e)).

Section Runs.
Variable fraction_toString : Q -> string.
Variable arc_path : Q -> Q -> PieArcDatum -> string.
Variable arc_centroid : Q -> Q -> PieArcDatum -> string.

(** The SVG widget after a sequence of events. *)
Fixpoint svg_run (c : D3Pie.D3PieComponent) (es : list D3Pie.event)
  : completion D3Pie.D3PieComponent :=
  match es with
  | [] => Normal c
  | e :: rest =>
      c' <- D3Pie.step fraction_toString arc_path arc_centroid c e ;;
      svg_run c' rest
  end.

(** The surface, if there is one, is a draw of the current inputs. *)
Definition shows_inputs (c : D3Pie.D3PieComponent) : Prop :=
  match D3Pie.chartContainer c with
  | Some svg =>
      exists base,
        children base = [] /\
        svg = D3Pie.drawn fraction_toString arc_path arc_centroid base
                (D3Pie.data c) (D3Pie.width c) (D3Pie.height c)
  | None => True
  end.

End Runs.

End MoreSpec.

Import MoreSpec.

(* ================================================================== *)
(** * Properties *)

(* ------------------------------------------------------------------ *)
(** ** Numbers and strings *)

Lemma Qlt_bool_iff (x y : Q) : D3.Qlt_bool x y = true <-> x < y.
Proof.
  unfold D3.Qlt_bool. rewrite negb_true_iff.
  split; intro H.
  - apply Qnot_le_lt. intro Hle. apply Qle_bool_iff in Hle. congruence.
  - destruct (Qle_bool y x) eqn:E; [|reflexivity].
    apply Qle_bool_iff in E. exfalso. apply (Qlt_not_le _ _ H E).
Qed.

Lemma Qlt_bool_false_iff (x y : Q) : D3.Qlt_bool x y = false <-> y <= x.
Proof.
  split; intro H.
  - apply Qnot_lt_le. intro Hlt. apply Qlt_bool_iff in Hlt. congruence.
  - destruct (D3.Qlt_bool x y) eqn:E; [|reflexivity].
    apply Qlt_bool_iff in E. exfalso. apply (Qlt_not_le _ _ E H).
Qed.

Lemma Qis_zero_iff (q : Q) : JS.Qis_zero q = true <-> q == 0.
Proof. unfold JS.Qis_zero. apply Qeq_bool_iff. Qed.

Lemma Qis_zero_false_iff (q : Q) : JS.Qis_zero q = false <-> ~ q == 0.
Proof.
  rewrite <- Qis_zero_iff. destruct (JS.Qis_zero q); split; congruence.
Qed.

Lemma Qis_pos_iff (q : Q) : JS.Qis_pos q = true <-> 0 < q.
Proof.
  unfold JS.Qis_pos, Qlt. simpl. rewrite Z.ltb_lt. lia.
Qed.

(* ------------------------------------------------------------------ *)
(** ** The pie layout *)

Section PieLayout.
Import D3.

Lemma insert_desc_perm it sorted :
  Permutation (insert_desc it sorted) (it :: sorted).
Proof.
  induction sorted as [|other rest IH]; simpl.
  - apply Permutation_refl.
  - destruct (Qlt_bool (value (snd it)) (value (snd other))).
    + eapply Permutation_trans; [apply perm_skip, IH | apply perm_swap].
    + apply Permutation_refl.
Qed.

Lemma sort_desc_perm items : Permutation (sort_desc items) items.
Proof.
  induction items as [|it rest IH]; simpl.
  - apply perm_nil.
  - eapply Permutation_trans; [apply insert_desc_perm | apply perm_skip, IH].
Qed.

Lemma insert_desc_sorted it sorted :
  StronglySorted desc sorted -> StronglySorted desc (insert_desc it sorted).
Proof.
  induction sorted as [|other rest IH]; simpl; intro Hs.
  - constructor; [constructor | constructor].
  - inversion Hs as [|? ? Hrest Hall]; subst.
    destruct (Qlt_bool (value (snd it)) (value (snd other))) eqn:E.
    + constructor; [apply IH, Hrest|].
      apply Forall_forall. intros z Hz.
      apply (Permutation_in _ (insert_desc_perm it rest)) in Hz.
      destruct Hz as [<- | Hz].
      * apply Qlt_bool_iff in E. unfold desc. apply Qlt_le_weak, E.
      * rewrite Forall_forall in Hall. apply Hall, Hz.
    + apply Qlt_bool_false_iff in E.
      constructor; [exact Hs|].
      constructor; [exact E|].
      rewrite Forall_forall in Hall |- *. intros z Hz.
      unfold desc in *. eapply Qle_trans; [apply Hall, Hz | exact E].
Qed.

Lemma sort_desc_sorted items : StronglySorted desc (sort_desc items).
Proof.
  induction items as [|it rest IH]; simpl.
  - constructor.
  - apply insert_desc_sorted, IH.
Qed.

Lemma insert_desc_stable it sorted :
  Forall (fun y => (fst it < fst y)%nat) sorted ->
  StronglySorted before sorted ->
  StronglySorted before (insert_desc it sorted).
Proof.
  induction sorted as [|other rest IH]; simpl; intros Hlt Hs.
  - constructor; constructor.
  - inversion Hs as [|? ? Hrest Hall]; subst.
    inversion Hlt as [|? ? Hlo Hlr]; subst.
    destruct (Qlt_bool (value (snd it)) (value (snd other))) eqn:E.
    + constructor; [apply IH; assumption|].
      apply Forall_forall. intros z Hz.
      apply (Permutation_in _ (insert_desc_perm it rest)) in Hz.
      destruct Hz as [<- | Hz].
      * left. apply Qlt_bool_iff, E.
      * rewrite Forall_forall in Hall. apply Hall, Hz.
    + apply Qlt_bool_false_iff in E.
      assert (Hio : before it other).
      { destruct (Qle_lt_or_eq _ _ E) as [Hl | He].
        - left; exact Hl.
        - right; split; [exact He | exact Hlo]. }
      constructor; [exact Hs|].
      constructor; [exact Hio|].
      rewrite Forall_forall in Hall, Hlr |- *. intros z Hz.
      specialize (Hall z Hz). specialize (Hlr z Hz).
      unfold before in *.
      destruct Hall as [Hl | [He Hn]].
      * left. eapply Qlt_le_trans; [exact Hl | exact E].
      * destruct (Qle_lt_or_eq _ _ E) as [Hl | He'].
        -- left. rewrite He. exact Hl.
        -- right. split; [rewrite He; exact He' | exact Hlr].
Qed.

Lemma sort_desc_stable items :
  StronglySorted (fun x y => (fst x < fst y)%nat) items ->
  StronglySorted before (sort_desc items).
Proof.
  induction items as [|it rest IH]; simpl; intro Hs.
  - constructor.
  - inversion Hs as [|? ? Hrest Hall]; subst.
    apply insert_desc_stable; [|apply IH, Hrest].
    rewrite Forall_forall in Hall |- *. intros y Hy.
    apply Hall. apply (Permutation_in _ (sort_desc_perm rest)), Hy.
Qed.

Lemma keys_combine_seq (data : list Slice) (i : nat) :
  keys (combine (seq i (List.length data)) data) = seq i (List.length data).
Proof.
  revert i. induction data as [|d rest IH]; intro i; simpl.
  - reflexivity.
  - unfold keys in *. rewrite IH. reflexivity.
Qed.

Lemma snd_combine_seq (data : list Slice) (i : nat) :
  map snd (combine (seq i (List.length data)) data) = data.
Proof.
  revert i. induction data as [|d rest IH]; intro i; simpl.
  - reflexivity.
  - rewrite IH. reflexivity.
Qed.

Lemma items_increasing (data : list Slice) (i : nat) :
  StronglySorted (fun x y => (fst x < fst y)%nat)
    (combine (seq i (List.length data)) data).
Proof.
  revert i. induction data as [|d rest IH]; intro i; simpl.
  - constructor.
  - constructor; [apply IH|].
    apply Forall_forall. intros [j x] Hin. simpl.
    apply in_combine_l in Hin. apply in_seq in Hin. lia.
Qed.

Lemma sorted_keys_nodup (data : list Slice) :
  NoDup (keys (sort_desc (items_of data))).
Proof.
  eapply Permutation_NoDup.
  - apply Permutation_sym, Permutation_map, sort_desc_perm.
  - change (NoDup (keys (items_of data))).
    unfold items_of. rewrite keys_combine_seq. apply seq_NoDup.
Qed.

(** *** The loop that hands out the angles *)

Lemma place_keys k pa p a0 i sorted :
  keys (place k pa p a0 i sorted) = keys sorted.
Proof.
  revert a0 i. induction sorted as [|[j d] rest IH]; intros a0 i; simpl.
  - reflexivity.
  - unfold keys in *. rewrite IH. reflexivity.
Qed.

Lemma place_chained k pa p a0 i sorted :
  chained a0 (map snd (place k pa p a0 i sorted)).
Proof.
  revert a0 i. induction sorted as [|[j d] rest IH]; intros a0 i; simpl.
  - exact I.
  - split; [reflexivity | apply IH].
Qed.

Lemma place_index k pa p a0 i sorted :
  map arc_index (map snd (place k pa p a0 i sorted))
  = seq i (List.length sorted).
Proof.
  revert a0 i. induction sorted as [|[j d] rest IH]; intros a0 i; simpl.
  - reflexivity.
  - rewrite IH. reflexivity.
Qed.

Lemma place_data k pa p a0 i sorted :
  map arc_data (map snd (place k pa p a0 i sorted)) = map snd sorted.
Proof.
  revert a0 i. induction sorted as [|[j d] rest IH]; intros a0 i; simpl.
  - reflexivity.
  - rewrite IH. reflexivity.
Qed.

Lemma place_ok k pa p a0 i sorted :
  Forall2 (placed_ok k pa) (map snd sorted)
    (map snd (place k pa p a0 i sorted)).
Proof.
  revert a0 i. induction sorted as [|[j d] rest IH]; intros a0 i; simpl.
  - constructor.
  - constructor; [|apply IH].
    repeat split; simpl. unfold positive_part.
    destruct (Qlt_bool 0 (value d)); [reflexivity | ring].
Qed.

Lemma placed_at_app_skip j (pre post : list (nat * PieArcDatum)) :
  ~ In j (keys pre) -> placed_at j (pre ++ post) = placed_at j post.
Proof.
  unfold placed_at. induction pre as [|[j' a] pre IH]; simpl; intro Hn.
  - reflexivity.
  - destruct (Nat.eqb_spec j' j) as [->|Hne].
    + exfalso. apply Hn. left. reflexivity.
    + apply IH. intro Hin. apply Hn. right. exact Hin.
Qed.

(** Reading [arcs[j]] after the loop gives what the loop stored for the
    position [j]. *)
Lemma place_lookup k pa p sorted :
  forall a0 i (pre : list (nat * PieArcDatum)),
    NoDup (keys pre ++ keys sorted) ->
    map (fun jd => placed_at (fst jd) (pre ++ place k pa p a0 i sorted)) sorted
    = map Some (map snd (place k pa p a0 i sorted)).
Proof.
  induction sorted as [|[j d] rest IH]; intros a0 i pre Hnd; simpl.
  - reflexivity.
  - f_equal.
    + rewrite placed_at_app_skip.
      * unfold placed_at. simpl. rewrite Nat.eqb_refl. reflexivity.
      * intro Hin. apply NoDup_remove_2 in Hnd. apply Hnd.
        apply in_or_app. left. exact Hin.
    + set (a1 := a0 + (if Qlt_bool 0 (value d) then value d * k else 0) + pa).
      set (arc := mkArc d i (value d) a0 a1 p).
      specialize (IH a1 (S i) (pre ++ [(j, arc)])).
      rewrite <- app_assoc in IH. simpl in IH. apply IH.
      unfold keys. rewrite map_app. simpl. rewrite <- app_assoc. simpl.
      exact Hnd.
Qed.

(** *** The layout as a whole *)

Lemma pie_eq data :
  pie data
  = map (arc_for (place (pie_k data) 0 0 0 0 (sort_desc (items_of data))))
      (items_of data).
Proof. reflexivity. Qed.

Lemma arc_for_found placed (l : list (nat * Slice)) (arcs : list PieArcDatum) :
  map (fun jd => placed_at (fst jd) placed) l = map Some arcs ->
  map (arc_for placed) l = arcs.
Proof.
  revert arcs. induction l as [|jd l IH]; intros [|a arcs] H; simpl in *;
    try discriminate; [reflexivity|].
  injection H as H1 H2. unfold arc_for at 1. rewrite H1.
  f_equal. apply IH, H2.
Qed.

Lemma ranked_eq data :
  map (arc_for (place (pie_k data) 0 0 0 0 (sort_desc (items_of data))))
    (sort_desc (items_of data))
  = ranked data.
Proof.
  apply arc_for_found.
  apply (place_lookup (pie_k data) 0 0 (sort_desc (items_of data)) 0 0%nat []).
  simpl. apply sorted_keys_nodup.
Qed.

Lemma pie_perm_ranked data : Permutation (ranked data) (pie data).
Proof.
  rewrite pie_eq, <- ranked_eq.
  apply Permutation_map, sort_desc_perm.
Qed.

Lemma pie_length data : List.length (pie data) = List.length data.
Proof.
  rewrite pie_eq, length_map. unfold items_of.
  rewrite length_combine, length_seq. apply Nat.min_id.
Qed.

Lemma Forall2_map_same {A B C} (P : B -> C -> Prop) (f : A -> B) (g : A -> C) l :
  Forall2 P (map f l) (map g l) <-> Forall (fun x => P (f x) (g x)) l.
Proof.
  induction l as [|x l IH]; simpl; split; intro H.
  - constructor.
  - constructor.
  - inversion H; subst. constructor; [assumption | apply IH; assumption].
  - inversion H; subst. constructor; [assumption | apply IH; assumption].
Qed.

(** Every slice gets the arc the loop computed for it. *)
Lemma pie_placed_ok data :
  Forall2 (placed_ok (pie_k data) 0) data (pie data).
Proof.
  set (placed := place (pie_k data) 0 0 0 0 (sort_desc (items_of data))).
  assert (Hs : Forall (fun jd => placed_ok (pie_k data) 0 (snd jd) (arc_for placed jd))
                 (sort_desc (items_of data))).
  { apply Forall2_map_same. unfold placed. rewrite ranked_eq. apply place_ok. }
  assert (Hi : Forall (fun jd => placed_ok (pie_k data) 0 (snd jd) (arc_for placed jd))
                 (items_of data)).
  { eapply Permutation_Forall; [apply sort_desc_perm | exact Hs]. }
  apply Forall2_map_same in Hi.
  unfold items_of in Hi at 1. rewrite snd_combine_seq in Hi. exact Hi.
Qed.

Lemma pie_arc_data data : map arc_data (pie data) = data.
Proof.
  pose proof (pie_placed_ok data) as H.
  induction H as [|d a ds arcs [Hd _] _ IH]; simpl.
  - reflexivity.
  - rewrite Hd, IH. reflexivity.
Qed.

Lemma pie_sum_from (data : list Slice) (acc : Q) :
  fold_left (fun sum d => if Qlt_bool 0 (value d) then sum + value d else sum)
    data acc
  == acc + positive_total data.
Proof.
  revert acc. induction data as [|d rest IH]; intro acc; simpl.
  - unfold positive_total. simpl. ring.
  - rewrite IH. unfold positive_total. simpl. unfold positive_part.
    destruct (Qlt_bool 0 (value d)); ring.
Qed.

Lemma pie_sum_positive_total data : pie_sum data == positive_total data.
Proof. unfold pie_sum. rewrite pie_sum_from. ring. Qed.

Lemma spans_sum_placed k data arcs :
  Forall2 (placed_ok k 0) data arcs ->
  spans_sum arcs == positive_total data * k.
Proof.
  induction 1 as [|d a ds arcs [_ [_ He]] _ IH].
  - unfold spans_sum, positive_total. simpl. ring.
  - unfold spans_sum, positive_total in *. simpl. rewrite IH.
    unfold span. rewrite He. ring.
Qed.

Lemma pie_spans_sum data : spans_sum (pie data) == pie_sum data * pie_k data.
Proof.
  rewrite (spans_sum_placed _ _ _ (pie_placed_ok data)).
  rewrite pie_sum_positive_total. reflexivity.
Qed.

Lemma pie_k_nonzero data :
  ~ pie_sum data == 0 -> pie_k data == tau / pie_sum data.
Proof.
  intro Hnz. unfold pie_k.
  apply Qis_zero_false_iff in Hnz. rewrite Hnz.
  apply Qis_zero_false_iff in Hnz. field. exact Hnz.
Qed.

Lemma pie_k_zero data : pie_sum data == 0 -> pie_k data = 0.
Proof.
  intro Hz. unfold pie_k. apply Qis_zero_iff in Hz. rewrite Hz. reflexivity.
Qed.

Lemma total_value_from (vs : list Q) (acc : Q) :
  fold_left Qplus vs acc == acc + fold_right Qplus 0 vs.
Proof.
  revert acc. induction vs as [|v rest IH]; intro acc; simpl.
  - ring.
  - rewrite IH. ring.
Qed.

Lemma positive_part_nonneg v : 0 <= v -> positive_part v == v.
Proof.
  intro H. unfold positive_part.
  destruct (Qlt_bool 0 v) eqn:E; [reflexivity|].
  apply Qlt_bool_false_iff in E. apply Qle_antisym; assumption.
Qed.

Lemma positive_total_nonneg data :
  Forall (fun d => 0 <= value d) data ->
  positive_total data == total_value data.
Proof.
  intro H. unfold total_value. rewrite total_value_from.
  unfold positive_total.
  induction H as [|d rest Hd _ IH]; simpl.
  - ring.
  - rewrite positive_part_nonneg by exact Hd.
    rewrite IH. ring.
Qed.

Lemma StronglySorted_map {A B} (R : B -> B -> Prop) (f : A -> B) l :
  StronglySorted (fun x y => R (f x) (f y)) l <-> StronglySorted R (map f l).
Proof.
  induction l as [|x l IH]; simpl; split; intro H.
  - constructor.
  - constructor.
  - inversion H; subst. constructor; [apply IH; assumption|].
    apply Forall_map. assumption.
  - inversion H; subst. constructor; [apply IH; assumption|].
    apply Forall_map. assumption.
Qed.

Lemma ranked_descending data :
  StronglySorted (fun a b => value (arc_data b) <= value (arc_data a))
    (ranked data).
Proof.
  apply (StronglySorted_map (fun d e => value e <= value d) arc_data).
  unfold ranked. rewrite place_data.
  apply (StronglySorted_map (fun d e => value e <= value d) snd).
  apply sort_desc_sorted.
Qed.

Lemma ranked_index data :
  map arc_index (ranked data) = seq 0 (List.length data).
Proof.
  unfold ranked. rewrite place_index. f_equal.
  rewrite (Permutation_length (sort_desc_perm _)).
  unfold items_of. rewrite length_combine, length_seq. apply Nat.min_id.
Qed.

Lemma ranked_chained data : chained 0 (ranked data).
Proof. apply place_chained. Qed.

(** *** Which slice comes first *)

Lemma nth_error_StronglySorted {A} (R : A -> A -> Prop) l :
  StronglySorted R l ->
  forall r r' x y, (r < r')%nat ->
    nth_error l r = Some x -> nth_error l r' = Some y -> R x y.
Proof.
  induction 1 as [|z l Hs IH Hall]; intros r r' x y Hlt Hx Hy.
  - destruct r; discriminate.
  - destruct r' as [|r']; [lia|]. simpl in Hy.
    destruct r as [|r]; simpl in Hx.
    + injection Hx as <-. rewrite Forall_forall in Hall.
      apply Hall. eapply nth_error_In, Hy.
    + apply (IH r r'); [lia | assumption | assumption].
Qed.

Lemma nth_error_items (data : list Slice) (s i : nat) jd :
  nth_error (combine (seq s (List.length data)) data) i = Some jd ->
  fst jd = (s + i)%nat /\ nth_error data i = Some (snd jd).
Proof.
  revert s i. induction data as [|d rest IH]; intros s i H; simpl in H.
  - destruct i; discriminate.
  - destruct i as [|i]; simpl in H.
    + injection H as <-. simpl. split; [lia | reflexivity].
    + apply IH in H. destruct H as [H1 H2]. split; [lia | exact H2].
Qed.

Lemma arc_for_ok data :
  Forall (fun jd => placed_ok (pie_k data) 0 (snd jd)
                      (arc_for (place (pie_k data) 0 0 0 0 (sort_desc (items_of data))) jd))
    (items_of data).
Proof.
  eapply Permutation_Forall; [apply sort_desc_perm|].
  apply Forall2_map_same. rewrite ranked_eq. apply place_ok.
Qed.

Lemma nth_error_map_inv {A B} (f : A -> B) l n y :
  nth_error (map f l) n = Some y -> exists x, nth_error l n = Some x /\ y = f x.
Proof.
  rewrite nth_error_map. destruct (nth_error l n) as [x|]; simpl; intro H.
  - injection H as <-. exists x. split; reflexivity.
  - discriminate.
Qed.

Lemma rank_of_arc data r jd :
  nth_error (sort_desc (items_of data)) r = Some jd ->
  arc_index (arc_for (place (pie_k data) 0 0 0 0 (sort_desc (items_of data))) jd) = r.
Proof.
  intro H.
  set (placed := place (pie_k data) 0 0 0 0 (sort_desc (items_of data))).
  assert (Hr : nth_error (map arc_index (ranked data)) r
               = Some (arc_index (arc_for placed jd))).
  { rewrite <- ranked_eq. fold placed. rewrite map_map.
    apply map_nth_error with (f := fun x => arc_index (arc_for placed x)).
    exact H. }
  rewrite ranked_index, nth_error_seq in Hr.
  destruct (Nat.ltb r (List.length data)); [|discriminate].
  injection Hr as Hr. simpl in Hr. symmetry. exact Hr.
Qed.

(** Of two slices, the one with the larger value gets the smaller index;
    with equal values, the one that is earlier in the array. *)
Lemma pie_rank_order data i j a b :
  (i < j)%nat ->
  nth_error (pie data) i = Some a ->
  nth_error (pie data) j = Some b ->
  (value (arc_data b) <= value (arc_data a) -> (arc_index a < arc_index b)%nat) /\
  (value (arc_data a) < value (arc_data b) -> (arc_index b < arc_index a)%nat).
Proof.
  intros Hij Ha Hb.
  rewrite pie_eq in Ha, Hb.
  set (placed := place (pie_k data) 0 0 0 0 (sort_desc (items_of data))) in *.
  apply nth_error_map_inv in Ha. destruct Ha as [x [Hx Ha]].
  apply nth_error_map_inv in Hb. destruct Hb as [y [Hy Hb]].
  subst a b.
  pose proof (arc_for_ok data) as Hok. fold placed in Hok.
  rewrite Forall_forall in Hok.
  destruct (Hok x (nth_error_In _ _ Hx)) as [Hdx _].
  destruct (Hok y (nth_error_In _ _ Hy)) as [Hdy _].
  rewrite Hdx, Hdy.
  assert (Hinx : In x (sort_desc (items_of data))).
  { apply (Permutation_in _ (Permutation_sym (sort_desc_perm _))).
    eapply nth_error_In, Hx. }
  assert (Hiny : In y (sort_desc (items_of data))).
  { apply (Permutation_in _ (Permutation_sym (sort_desc_perm _))).
    eapply nth_error_In, Hy. }
  apply In_nth_error in Hinx. destruct Hinx as [rx Hrx].
  apply In_nth_error in Hiny. destruct Hiny as [ry Hry].
  pose proof (rank_of_arc data rx x Hrx) as Hix. fold placed in Hix.
  pose proof (rank_of_arc data ry y Hry) as Hiy. fold placed in Hiy.
  rewrite Hix, Hiy.
  unfold items_of in Hx, Hy.
  apply nth_error_items in Hx. destruct Hx as [Hfx _].
  apply nth_error_items in Hy. destruct Hy as [Hfy _].
  simpl in Hfx, Hfy.
  assert (Hst : StronglySorted before (sort_desc (items_of data))).
  { apply sort_desc_stable. apply items_increasing. }
  destruct (Nat.lt_trichotomy rx ry) as [Hlt | [Heq | Hgt]].
  - pose proof (nth_error_StronglySorted _ _ Hst rx ry x y Hlt Hrx Hry) as Hb.
    split; [intros _; exact Hlt|].
    intro Hv. exfalso. destruct Hb as [Hb | [Hb _]].
    + apply (Qlt_irrefl (value (snd x))). eapply Qlt_trans; eassumption.
    + rewrite Hb in Hv. apply (Qlt_irrefl _ Hv).
  - assert (Hxy : x = y) by congruence. subst y. lia.
  - pose proof (nth_error_StronglySorted _ _ Hst ry rx y x Hgt Hry Hrx) as Hb.
    split; [|intros _; exact Hgt].
    intro Hv. exfalso. destruct Hb as [Hb | [_ Hb]].
    + apply (Qlt_irrefl (value (snd x))). eapply Qlt_le_trans; eassumption.
    + lia.
Qed.

Lemma placed_spans (k : Q) (data : list Slice) (arcs : list PieArcDatum) :
  Forall2 (placed_ok k 0) data arcs ->
  Forall (fun a => span a == positive_part (value (arc_data a)) * k) arcs.
Proof.
  induction 1 as [|d a ds arcs [Hd [_ He]] _ IH]; constructor.
  - unfold span. rewrite He, Hd. ring.
  - exact IH.
Qed.

Lemma pie_spans (data : list Slice) :
  Forall (fun a => span a == positive_part (value (arc_data a)) * pie_k data)
    (pie data).
Proof. apply (placed_spans _ data), pie_placed_ok. Qed.

Lemma total_positive_pie_sum (data : list Slice) :
  Forall (fun d => 0 <= value d) data ->
  pie_sum data == total_value data.
Proof.
  intro H. rewrite pie_sum_positive_total. apply positive_total_nonneg, H.
Qed.


Lemma positive_part_zero (v : Q) : v == 0 -> positive_part v == 0.
Proof.
  intro H. unfold positive_part. destruct (Qlt_bool 0 v) eqn:E.
  - exact H.
  - reflexivity.
Qed.



End PieLayout.

(* ------------------------------------------------------------------ *)
(** ** The SVG widget *)

Section SvgWidget.
Import D3 D3Pie.

Variable fraction_toString : Q -> string.
Variable arc_path : Q -> Q -> PieArcDatum -> string.
Variable arc_centroid : Q -> Q -> PieArcDatum -> string.

#[local] Abbreviation drawChart := (drawChart fraction_toString arc_path arc_centroid).
#[local] Abbreviation drawn := (drawn fraction_toString arc_path arc_centroid).
#[local] Abbreviation arc_group := (arc_group arc_path arc_centroid).
#[local] Abbreviation path_element := (path_element arc_path).
#[local] Abbreviation text_element := (text_element arc_centroid).
#[local] Abbreviation step := (step fraction_toString arc_path arc_centroid).
#[local] Abbreviation groups_of := (groups_of arc_path arc_centroid).

Lemma descendants_eq (e : Element) :
  descendants e = flat_map (fun c => c :: descendants c) (children e).
Proof. destruct e; reflexivity. Qed.

Lemma descendants_leaf (e : Element) : children e = [] -> descendants e = [].
Proof. intro H. rewrite descendants_eq, H. reflexivity. Qed.

Lemma append_all_children (groups : list Element) (g : Element) :
  children (fold_left (fun parent child => append child parent) groups g)
  = children g ++ groups.
Proof.
  revert g. induction groups as [|x rest IH]; intro g; simpl.
  - rewrite app_nil_r. reflexivity.
  - rewrite IH. destruct g. simpl. rewrite <- app_assoc. reflexivity.
Qed.

Lemma append_all_attrs (groups : list Element) (g : Element) :
  attrs (fold_left (fun parent child => append child parent) groups g) = attrs g.
Proof.
  revert g. induction groups as [|x rest IH]; intro g; simpl.
  - reflexivity.
  - rewrite IH. destruct g. reflexivity.
Qed.

Lemma arc_group_children outer df :
  children (arc_group outer df)
  = [path_element outer (fst df) (snd df); text_element outer (fst df)].
Proof. reflexivity. Qed.

Lemma arc_group_datum outer df : datum (arc_group outer df) = Some (fst df).
Proof. reflexivity. Qed.

Lemma arc_group_class outer df : has_class "arc" (arc_group outer df) = true.
Proof. reflexivity. Qed.

Lemma path_element_class outer d fill :
  has_class "arc" (path_element outer d fill) = false.
Proof. destruct fill; reflexivity. Qed.

Lemma text_element_class outer d : has_class "arc" (text_element outer d) = false.
Proof. reflexivity. Qed.

Lemma path_element_leaf outer d fill : descendants (path_element outer d fill) = [].
Proof. apply descendants_leaf. reflexivity. Qed.

Lemma text_element_leaf outer d : descendants (text_element outer d) = [].
Proof. apply descendants_leaf. reflexivity. Qed.

(** The arc groups are the only elements of class [arc] below them. *)
Lemma arcs_among_groups outer (dfs : list (PieArcDatum * option string)) :
  filter (has_class "arc")
    (flat_map (fun c => c :: descendants c) (map (arc_group outer) dfs))
  = map (arc_group outer) dfs.
Proof.
  induction dfs as [|df rest IH].
  - reflexivity.
  - cbn [map flat_map]. rewrite (descendants_eq (arc_group outer df)).
    rewrite arc_group_children. cbn [flat_map].
    rewrite path_element_leaf, text_element_leaf. cbn [app].
    cbn [filter]. rewrite arc_group_class, path_element_class, text_element_class.
    rewrite IH. reflexivity.
Qed.

Lemma fills_length scl i (ds : list PieArcDatum) :
  List.length (fills scl i ds) = List.length ds.
Proof.
  revert scl i. induction ds as [|d rest IH]; intros scl i; simpl.
  - reflexivity.
  - destruct (fill_of scl d i) as [f scl']. simpl. rewrite IH. reflexivity.
Qed.

Lemma map_fst_combine {A B} (l : list A) (l' : list B) :
  List.length l = List.length l' -> map fst (combine l l') = l.
Proof.
  revert l'. induction l as [|x l IH]; intros [|y l'] H; simpl in *;
    try discriminate; [reflexivity|].
  rewrite IH by congruence. reflexivity.
Qed.

Lemma map_snd_combine {A B} (l : list A) (l' : list B) :
  List.length l = List.length l' -> map snd (combine l l') = l'.
Proof.
  revert l'. induction l as [|x l IH]; intros [|y l'] H; simpl in *;
    try discriminate; [reflexivity|].
  rewrite IH by congruence. reflexivity.
Qed.

Lemma drawn_segments (svg : Element) data width height :
  children svg = [] ->
  selectAll_class "arc" (drawn svg data width height) = groups_of data width height.
Proof.
  intro Hc. destruct svg as [tg ats sts tx dt ls cs]. simpl in Hc. subst cs.
  unfold selectAll_class.
  change (fun x : Element => match get_attr "class" x with
                             | Some c => String.eqb c "arc"
                             | None => false
                             end) with (has_class "arc").
  rewrite descendants_eq. unfold D3Pie.drawn.
  cbn [children append app flat_map filter].
  rewrite app_nil_r.
  match goal with
  | |- context [has_class "arc" ?g] =>
      replace (has_class "arc" g) with false
  end.
  2:{ unfold has_class, get_attr. rewrite append_all_attrs. reflexivity. }
  rewrite descendants_eq, append_all_children. cbn [children create attr app].
  apply arcs_among_groups.
Qed.

Lemma groups_of_length data width height :
  List.length (groups_of data width height) = List.length data.
Proof.
  unfold groups_of. rewrite length_map, length_combine, fills_length.
  rewrite Nat.min_id. apply pie_length.
Qed.

Lemma groups_of_datum data width height :
  map datum (groups_of data width height) = map Some (pie data).
Proof.
  unfold groups_of.
  transitivity
    (map Some (map fst (combine (pie data)
                          (fills (scaleOrdinal schemeCategory10) 0 (pie data))))).
  - rewrite !map_map. apply map_ext. intro df. reflexivity.
  - rewrite map_fst_combine; [reflexivity | symmetry; apply fills_length].
Qed.

(** A draw on a mounted surface. *)
Lemma drawChart_mounted (c : D3PieComponent) (svg : Element) :
  chartContainer c = Some svg ->
  drawChart c
  = Normal (set_chartContainer
              (Some (drawn (remove_all svg) (data c) (width c) (height c))) c).
Proof. intro H. unfold D3Pie.drawChart. rewrite H. reflexivity. Qed.

Lemma drawChart_segments (c : D3PieComponent) (svg : Element) :
  chartContainer c = Some svg ->
  exists c', drawChart c = Normal c' /\
             segments c' = groups_of (data c) (width c) (height c) /\
             data c' = data c /\ width c' = width c /\ height c' = height c /\
             arcClick c' = arcClick c.
Proof.
  intro H. eexists. split; [apply drawChart_mounted, H|].
  split; [|repeat split].
  unfold segments. cbn [chartContainer set_chartContainer].
  apply drawn_segments. destruct svg; reflexivity.
Qed.

(** *** Clicks *)

Lemma nth_error_combine_same {A B} (l : list A) (l' : list B) i a :
  List.length l = List.length l' ->
  nth_error l i = Some a ->
  exists b, nth_error l' i = Some b /\ nth_error (combine l l') i = Some (a, b).
Proof.
  revert l' i. induction l as [|x l IH]; intros [|y l'] i Hlen Ha; simpl in *;
    try discriminate.
  - destruct i; discriminate.
  - destruct i as [|i]; simpl in *.
    + injection Ha as <-. exists y. split; reflexivity.
    + apply IH; [congruence | exact Ha].
Qed.

Lemma pie_nth data i x :
  nth_error data i = Some x ->
  exists a, nth_error (pie data) i = Some a /\ arc_data a = x.
Proof.
  intro H. rewrite <- (pie_arc_data data) in H.
  apply nth_error_map_inv in H. destruct H as [a [Ha Hx]].
  exists a. split; [exact Ha | symmetry; exact Hx].
Qed.

(** The arc group of the slice at a position, with its path and label. *)
Lemma groups_of_nth data width height i x :
  nth_error data i = Some x ->
  exists a fill,
    arc_data a = x /\
    nth_error (pie data) i = Some a /\
    nth_error (fills (scaleOrdinal schemeCategory10) 0 (pie data)) i = Some fill /\
    nth_error (groups_of data width height) i
    = Some (arc_group (JS.Qmin width height / 2 - 10) (a, fill)).
Proof.
  intro H. destruct (pie_nth data i x H) as [a [Ha Hx]].
  destruct (nth_error_combine_same (pie data)
              (fills (scaleOrdinal schemeCategory10) 0 (pie data)) i a
              (eq_sym (fills_length _ _ _)) Ha) as [fill [Hf Hc]].
  exists a, fill. repeat split; try assumption.
  unfold groups_of. apply map_nth_error. exact Hc.
Qed.

Lemma path_of_group outer df :
  path_of (arc_group outer df) = Some (path_element outer (fst df) (snd df)).
Proof. reflexivity. Qed.

Lemma label_of_group outer df :
  label_of (arc_group outer df) = Some (text_element outer (fst df)).
Proof. reflexivity. Qed.

Lemma click_path outer d fill (c : D3PieComponent) :
  click (path_element outer d fill) c = emit (arc_data d) c.
Proof. reflexivity. Qed.

Lemma click_label outer d (c : D3PieComponent) :
  click (text_element outer d) c = emit (arc_data d) c.
Proof. reflexivity. Qed.

Lemma text_of_label outer d : text (text_element outer d) = Some (label (arc_data d)).
Proof. reflexivity. Qed.

Lemma fill_of_path outer d fill : get_attr "fill" (path_element outer d fill) = fill.
Proof. destruct fill; reflexivity. Qed.

(** After a draw, the segment at a position belongs to the slice at that
    position: a click on its path or on its label emits that slice, once. *)
Lemma svg_click_emits_slice (c : D3PieComponent) (svg : Element) i x :
  chartContainer c = Some svg ->
  nth_error (data c) i = Some x ->
  exists c' grp path lbl,
    drawChart c = Normal c' /\
    nth_error (segments c') i = Some grp /\
    path_of grp = Some path /\ label_of grp = Some lbl /\
    step c' (Click path) = Normal (emit x c') /\
    step c' (Click lbl) = Normal (emit x c') /\
    arcClick (emit x c') = arcClick c ++ [x].
Proof.
  intros Hm Hx.
  destruct (drawChart_segments c svg Hm) as [c' [Hd [Hs [_ [_ [_ Hlog]]]]]].
  destruct (groups_of_nth (data c) (width c) (height c) i x Hx)
    as [a [fill [Ha [_ [_ Hg]]]]].
  exists c', (arc_group (JS.Qmin (width c) (height c) / 2 - 10) (a, fill)).
  eexists. eexists.
  split; [exact Hd|].
  split; [rewrite Hs; exact Hg|].
  split; [apply path_of_group|].
  split; [apply label_of_group|].
  cbn [D3Pie.step fst snd]. rewrite click_path, click_label, Ha.
  split; [reflexivity|]. split; [reflexivity|].
  cbn [arcClick emit]. rewrite Hlog. reflexivity.
Qed.

(** *** An unmounted surface, and teardown *)

Lemma drawChart_unmounted (c : D3PieComponent) :
  chartContainer c = None -> drawChart c = Normal c.
Proof. intro H. unfold D3Pie.drawChart. rewrite H. reflexivity. Qed.

Lemma drawChart_returns (c : D3PieComponent) : exists c', drawChart c = Normal c'.
Proof.
  destruct (chartContainer c) as [svg|] eqn:E.
  - eexists. apply drawChart_mounted, E.
  - exists c. apply drawChart_unmounted, E.
Qed.

Lemma svg_ngOnDestroy_clears (c : D3PieComponent) :
  exists c',
    ngOnDestroy c = Normal c' /\
    segments c' = [] /\
    (forall svg, chartContainer c' = Some svg -> descendants svg = []) /\
    (chartContainer c = None -> c' = c) /\
    (chartContainer c <> None -> chartContainer c' <> None).
Proof.
  unfold D3Pie.ngOnDestroy. destruct (chartContainer c) as [svg|] eqn:E; simpl.
  - eexists. split; [reflexivity|].
    split; [destruct svg; reflexivity|].
    split.
    + intros svg' H. injection H as <-. apply descendants_leaf.
      destruct svg; reflexivity.
    + split; [discriminate|]. intros _. discriminate.
  - exists c. split; [reflexivity|].
    split; [unfold segments; rewrite E; reflexivity|].
    split; [intros svg' H; congruence|].
    split; [reflexivity | intro H; exfalso; apply H; reflexivity].
Qed.

Lemma svg_step_returns (c : D3PieComponent) (e : event) :
  exists c', step c e = Normal c'.
Proof.
  destruct e; cbn [D3Pie.step]; try apply drawChart_returns.
  - eexists. reflexivity.
  - destruct (svg_ngOnDestroy_clears c) as [c' [H _]]. exists c'. exact H.
Qed.

(** *** Fill colours *)

Lemma Z_toString_inj (z z' : Z) : JS.Z_toString z = JS.Z_toString z' -> z = z'.
Proof.
  unfold JS.Z_toString. intro H.
  assert (Hnn : forall w, Z.to_int w <> Decimal.Pos Decimal.Nil /\
                          Z.to_int w <> Decimal.Neg Decimal.Nil).
  { intro w. split; intro Hw.
    - pose proof (DecimalZ.of_to w) as E. rewrite Hw in E. simpl in E.
      subst w. discriminate.
    - pose proof (DecimalZ.of_to w) as E. rewrite Hw in E. simpl in E.
      subst w. discriminate. }
  apply DecimalZ.to_int_inj.
  assert (E : Some (Z.to_int z) = Some (Z.to_int z')).
  { rewrite <- (DecimalString.NilZero.isi (Z.to_int z)) by apply Hnn.
    rewrite <- (DecimalString.NilZero.isi (Z.to_int z')) by apply Hnn.
    rewrite H. reflexivity. }
  injection E as E. exact E.
Qed.

Lemma index_toString_inj (i j : nat) : index_toString i = index_toString j -> i = j.
Proof. unfold index_toString. intro H. apply Z_toString_inj in H. lia. Qed.

Lemma index_of_fresh (key : string) (dom : list string) :
  ~ In key dom -> index_of key dom = None.
Proof.
  induction dom as [|k rest IH]; simpl; intro Hn.
  - reflexivity.
  - destruct (String.eqb_spec k key) as [->|Hne].
    + exfalso. apply Hn. left. reflexivity.
    + rewrite IH; [reflexivity|]. intro Hin. apply Hn. right. exact Hin.
Qed.

Lemma fills_by_domain (ds : list PieArcDatum) :
  forall (scl : ordinal) (i : nat),
    (forall key, In key (domain scl) ->
                 exists j, (j < i)%nat /\ key = index_toString j) ->
    fills scl i ds
    = fills_by_rank (range scl) (List.length (domain scl)) (map arc_data ds).
Proof.
  induction ds as [|d rest IH]; intros scl i Hdom; simpl.
  - reflexivity.
  - unfold fill_of. destruct (color (arc_data d)) as [c|] eqn:Ec.
    + f_equal. apply IH. intros key Hk.
      destruct (Hdom key Hk) as [j [Hj Hkey]]. exists j. split; [lia | exact Hkey].
    + unfold scale. rewrite index_of_fresh.
      2:{ intro Hin. destruct (Hdom _ Hin) as [j [Hj Hkey]].
          apply index_toString_inj in Hkey. lia. }
      f_equal.
      rewrite (IH (mkOrdinal (domain scl ++ [index_toString i]) (range scl)) (S i)).
      * cbn [domain range]. rewrite length_app. simpl.
        rewrite Nat.add_1_r. reflexivity.
      * cbn [domain]. intros key Hk. apply in_app_or in Hk.
        destruct Hk as [Hk | [<- | []]].
        -- destruct (Hdom key Hk) as [j [Hj Hkey]]. exists j. split; [lia | exact Hkey].
        -- exists i. split; [lia | reflexivity].
Qed.

Lemma fills_by_rank_nth pal (data : list Slice) :
  forall k i x,
    nth_error data i = Some x ->
    nth_error (fills_by_rank pal k data) i
    = Some match color x with
           | Some c => Some c
           | None => nth_error pal ((k + uncoloured_before data i) mod List.length pal)
           end.
Proof.
  induction data as [|d rest IH]; intros k i x Hx.
  - destruct i; discriminate.
  - destruct i as [|i]; simpl in Hx.
    + injection Hx as <-. simpl. unfold uncoloured_before. simpl.
      rewrite Nat.add_0_r. destruct (color d); reflexivity.
    + simpl. unfold uncoloured_before. cbn [firstn filter].
      destruct (color d) as [c|] eqn:Ec; cbn [truthy negb nth_error].
      * apply (IH k i x Hx).
      * rewrite (IH (S k) i x Hx). unfold uncoloured_before.
        cbn [List.length]. rewrite Nat.add_succ_r. reflexivity.
Qed.

Lemma fills_nth (data : list Slice) i x :
  nth_error data i = Some x ->
  nth_error (fills (scaleOrdinal schemeCategory10) 0 (pie data)) i
  = Some (fill_by_rank data i x).
Proof.
  intro Hx. rewrite fills_by_domain.
  - rewrite pie_arc_data. cbn [scaleOrdinal domain range List.length].
    rewrite (fills_by_rank_nth _ data 0 i x Hx). reflexivity.
  - intros key [].
Qed.

(** *** Redrawing *)

Lemma remove_all_idem (e : Element) : remove_all (remove_all e) = remove_all e.
Proof. destruct e; reflexivity. Qed.

Lemma remove_all_drawn (svg : Element) data width height :
  remove_all (drawn svg data width height) = remove_all svg.
Proof. destruct svg; reflexivity. Qed.

(** A draw starts from the cleared surface: what was drawn before has no
    part in the result. *)
Lemma drawChart_from_cleared (c : D3PieComponent) (svg : Element) :
  chartContainer c = Some svg ->
  drawChart c = drawChart (set_chartContainer (Some (remove_all svg)) c).
Proof.
  intro H. rewrite (drawChart_mounted c svg H).
  rewrite (drawChart_mounted (set_chartContainer (Some (remove_all svg)) c)
             (remove_all svg) eq_refl).
  rewrite remove_all_idem. reflexivity.
Qed.

Lemma drawChart_idempotent (c c' : D3PieComponent) :
  drawChart c = Normal c' -> drawChart c' = Normal c'.
Proof.
  destruct (chartContainer c) as [svg|] eqn:E.
  - rewrite (drawChart_mounted c svg E). intro H. injection H as <-.
    rewrite (drawChart_mounted
               (set_chartContainer
                  (Some (drawn (remove_all svg) (data c) (width c) (height c))) c)
               (drawn (remove_all svg) (data c) (width c) (height c)) eq_refl).
    cbn [data width height set_chartContainer].
    rewrite remove_all_drawn, remove_all_idem. reflexivity.
  - rewrite (drawChart_unmounted c E). intro H. injection H as <-.
    apply drawChart_unmounted, E.
Qed.

(** Two draws with the same inputs on surfaces that differ only in what
    was drawn on them give the same surface. *)
Lemma drawChart_deterministic (c1 c2 : D3PieComponent) (svg1 svg2 : Element) :
  chartContainer c1 = Some svg1 -> chartContainer c2 = Some svg2 ->
  remove_all svg1 = remove_all svg2 ->
  data c1 = data c2 -> width c1 = width c2 -> height c1 = height c2 ->
  exists c1' c2',
    drawChart c1 = Normal c1' /\ drawChart c2 = Normal c2' /\
    chartContainer c1' = chartContainer c2'.
Proof.
  intros H1 H2 Hs Hd Hw Hh.
  eexists. eexists.
  split; [apply (drawChart_mounted c1 svg1 H1)|].
  split; [apply (drawChart_mounted c2 svg2 H2)|].
  cbn [chartContainer set_chartContainer]. rewrite Hs, Hd, Hw, Hh. reflexivity.
Qed.

(** What a draw shows for the slice at a position. *)
Lemma drawn_slice (c : D3PieComponent) (svg : Element) i x :
  chartContainer c = Some svg ->
  nth_error (data c) i = Some x ->
  exists c' grp path lbl,
    drawChart c = Normal c' /\
    nth_error (segments c') i = Some grp /\
    path_of grp = Some path /\ label_of grp = Some lbl /\
    text lbl = Some (label x) /\
    get_attr "fill" path = fill_by_rank (data c) i x.
Proof.
  intros Hm Hx.
  destruct (drawChart_segments c svg Hm) as [c' [Hd [Hs _]]].
  destruct (groups_of_nth (data c) (width c) (height c) i x Hx)
    as [a [fill [Ha [_ [Hf Hg]]]]].
  exists c', (arc_group (JS.Qmin (width c) (height c) / 2 - 10) (a, fill)).
  eexists. eexists.
  split; [exact Hd|].
  split; [rewrite Hs; exact Hg|].
  split; [apply path_of_group|].
  split; [apply label_of_group|].
  cbn [fst snd]. rewrite text_of_label, fill_of_path, Ha.
  split; [reflexivity|].
  rewrite (fills_nth (data c) i x Hx) in Hf. injection Hf as Hf.
  symmetry. exact Hf.
Qed.

End SvgWidget.

(* ------------------------------------------------------------------ *)
(** ** The canvas widget *)

Section CanvasWidget.
Import ChartJs ChartjsPie.

Variable fraction_toString : Q -> string.
Variable Math_random : nat -> Q.

#[local] Abbreviation num := (num fraction_toString).
#[local] Abbreviation getRandomColor := (getRandomColor Math_random).
#[local] Abbreviation background_colors := (background_colors Math_random).
#[local] Abbreviation getChartConfig := (getChartConfig fraction_toString Math_random).
#[local] Abbreviation initChart := (initChart fraction_toString Math_random).
#[local] Abbreviation updateChart := (updateChart fraction_toString Math_random).
#[local] Abbreviation step := (step fraction_toString Math_random).
#[local] Abbreviation run := (run fraction_toString Math_random).
#[local] Abbreviation formatter := (formatter fraction_toString).
#[local] Abbreviation tooltip_label_callback := (tooltip_label_callback fraction_toString).
#[local] Abbreviation options_of := (options_of fraction_toString).
#[local] Abbreviation configured := (configured fraction_toString).
#[local] Abbreviation Inv := (Inv fraction_toString).
#[local] Abbreviation label_text := (label_text fraction_toString).

(** *** The configuration *)

Lemma same_but_random_refl s : same_but_random s s.
Proof. destruct s; reflexivity. Qed.

Lemma same_but_random_trans s1 s2 s3 :
  same_but_random s1 s2 -> same_but_random s2 s3 -> same_but_random s1 s3.
Proof.
  unfold same_but_random. intros H12 H23. rewrite H23 at 1. rewrite H12 at 1.
  reflexivity.
Qed.

Lemma getRandomColor_state s : same_but_random s (snd (getRandomColor s)).
Proof. reflexivity. Qed.

Lemma background_colors_spec (items : list Slice) (s : State) :
  List.length (fst (background_colors items s)) = List.length items /\
  same_but_random s (snd (background_colors items s)).
Proof.
  revert s. induction items as [|item rest IH]; intro s; simpl.
  - split; [reflexivity | apply same_but_random_refl].
  - set (pick := match color item with
                 | Some c => if String.eqb c EmptyString then getRandomColor s else (c, s)
                 | None => getRandomColor s
                 end).
    assert (Hp : same_but_random s (snd pick)).
    { unfold pick. destruct (color item) as [c|].
      - destruct (String.eqb c EmptyString); [reflexivity | apply same_but_random_refl].
      - reflexivity. }
    destruct pick as [c s1]. simpl in Hp.
    destruct (IH s1) as [Hlen Hst].
    destruct (background_colors rest s1) as [cs s2]. simpl in *.
    split; [rewrite Hlen; reflexivity|].
    eapply same_but_random_trans; eassumption.
Qed.

Lemma getChartConfig_spec (s : State) :
  exists colors s1,
    getChartConfig s = (mkConfig "pie" (data_of (inputs s) colors)
                          (options_of (inputs s)), s1) /\
    List.length colors = List.length (data (inputs s)) /\
    same_but_random s s1.
Proof.
  unfold ChartjsPie.getChartConfig.
  destruct (background_colors_spec (data (inputs s)) s) as [Hlen Hst].
  destruct (background_colors (data (inputs s)) s) as [colors s1]. simpl in *.
  exists colors, s1. split; [reflexivity|]. split; assumption.
Qed.

(** *** The operations, case by case *)

Lemma updateChart_none (s : State) : chart s = None -> updateChart s = Normal s.
Proof. intro H. unfold ChartjsPie.updateChart. rewrite H. reflexivity. Qed.

Lemma updateChart_some (s : State) (ch : Chart) :
  chart s = Some 0%nat -> charts s = [ch] ->
  exists colors n,
    List.length colors = List.length (data (inputs s)) /\
    updateChart s
    = Normal (set_charts
                [mkChart (data_of (inputs s) colors) (options_of (inputs s))
                   (S (updates ch)) (destroyed ch)]
                (set_random_calls n s)).
Proof.
  intros Hc Hcs. unfold ChartjsPie.updateChart. rewrite Hc. cbn [truthy negb deref bind].
  destruct (getChartConfig_spec s) as [colors [s1 [Hcfg [Hlen Hst]]]].
  rewrite Hcfg. exists colors, (random_calls s1). split; [exact Hlen|].
  rewrite Hst. cbn [charts set_random_calls]. rewrite Hcs.
  reflexivity.
Qed.

Lemma initChart_no_surface (s : State) :
  chartContainer s = None -> initChart s = Normal s.
Proof. intro H. unfold ChartjsPie.initChart. rewrite H. reflexivity. Qed.

Lemma initChart_no_context (s : State) (canvas : Canvas) :
  chartContainer s = Some canvas -> getContext_2d canvas = None ->
  initChart s = Normal s.
Proof.
  intros H Hc. unfold ChartjsPie.initChart. rewrite H. cbn [truthy negb deref bind].
  rewrite Hc. reflexivity.
Qed.

Lemma initChart_creates (s : State) (canvas : Canvas) (ctx : Context2D) :
  chartContainer s = Some canvas -> getContext_2d canvas = Some ctx ->
  exists colors n,
    List.length colors = List.length (data (inputs s)) /\
    initChart s
    = Normal (set_chart (Some (List.length (charts s)))
                (set_charts
                   (charts s ++ [mkChart (data_of (inputs s) colors)
                                   (options_of (inputs s)) 0 false])
                   (set_random_calls n (set_click_subscribed true s)))).
Proof.
  intros H Hc. unfold ChartjsPie.initChart. rewrite H. cbn [truthy negb deref bind].
  rewrite Hc. cbn [truthy negb deref bind].
  destruct (getChartConfig_spec (set_click_subscribed true s))
    as [colors [s1 [Hcfg [Hlen Hst]]]].
  rewrite Hcfg. exists colors, (random_calls s1). split; [exact Hlen|].
  unfold new_Chart. rewrite Hst. reflexivity.
Qed.

Lemma canvas_ngOnDestroy_none (s : State) :
  chart s = None -> ChartjsPie.ngOnDestroy s = Normal s.
Proof. intro H. unfold ChartjsPie.ngOnDestroy. rewrite H. reflexivity. Qed.

Lemma canvas_ngOnDestroy_some (s : State) (ch : Chart) :
  chart s = Some 0%nat -> charts s = [ch] ->
  ChartjsPie.ngOnDestroy s
  = Normal (set_chart None
              (set_charts [mkChart (ChartJs.data ch) (options ch) (updates ch) true] s)).
Proof.
  intros Hc Hcs. unfold ChartjsPie.ngOnDestroy. rewrite Hc, Hcs. reflexivity.
Qed.

Lemma on_canvas_click_hit (s : State) (ref i : nat) (rest : list nat) (x : Slice) :
  chart s = Some ref -> nth_error (data (inputs s)) i = Some x ->
  on_canvas_click (i :: rest) s = Normal (emit x s).
Proof.
  intros Hc Hx. unfold on_canvas_click. rewrite Hc, Hx. reflexivity.
Qed.

Lemma on_canvas_click_returns (s : State) (points : list nat) :
  exists s', on_canvas_click points s = Normal s' /\
             (s' = s \/ exists x, s' = emit x s).
Proof.
  unfold on_canvas_click. destruct (chart s); cbn [truthy negb].
  - destruct points as [|i rest].
    + exists s. split; [reflexivity | left; reflexivity].
    + destruct (nth_error (data (inputs s)) i) as [x|]; cbn [truthy deref bind].
      * exists (emit x s). split; [reflexivity | right; exists x; reflexivity].
      * exists s. split; [reflexivity | left; reflexivity].
  - exists s. split; [reflexivity | left; reflexivity].
Qed.

(** *** The states that a run reaches *)

Lemma Inv_constructed : Inv constructed.
Proof. repeat split. Qed.

Lemma step_Inv (s : State) (e : event) :
  Inv s -> exists s', step s e = Normal s' /\ Inv s'.
Proof.
  intro HI. unfold ChartjsPie.step.
  destruct (component_destroyed s) eqn:Ed; [exists s; split; [reflexivity | exact HI]|].
  destruct e as [i | canvas | | points |].
  - (* SetInputs *)
    unfold Inv in HI. destruct (chart s) as [ref|] eqn:Ec.
    + destruct HI as [-> [_ [Hsub [Hpen [ch [Hcs [Hd Hcfg]]]]]]].
      destruct (updateChart_some (set_inputs i s) ch) as [colors [n [Hlen Hu]]];
        [exact Ec | exact Hcs |].
      eexists. split; [exact Hu|].
      unfold Inv. cbn. rewrite Ec. repeat split; try assumption.
      eexists. split; [reflexivity|]. split; [exact Hd|].
      exists colors. repeat split. exact Hlen.
    + rewrite Ed in HI. exists (set_inputs i s).
      split; [apply updateChart_none; exact Ec|].
      unfold Inv. cbn. rewrite Ec, Ed. exact HI.
  - (* ViewReady *)
    eexists. split; [reflexivity|].
    unfold Inv in *. cbn. destruct (chart s); [exact HI|]. rewrite Ed in *. exact HI.
  - (* AfterNextRender *)
    destruct (render_pending s) eqn:Ep; [|exists s; split; [reflexivity | exact HI]].
    unfold Inv in HI. destruct (chart s) as [ref|] eqn:Ec.
    { destruct HI as [_ [_ [_ [Hpen _]]]]. congruence. }
    rewrite Ed in HI. destruct HI as [Hcs [Hsub Hlog]].
    destruct (chartContainer s) as [canvas|] eqn:Ecc.
    + destruct (getContext_2d canvas) as [ctx|] eqn:Ectx.
      * destruct (initChart_creates (set_render_pending false s) canvas ctx)
          as [colors [n [Hlen Hi]]]; [exact Ecc | exact Ectx |].
        eexists. split; [exact Hi|].
        unfold Inv. cbn. rewrite Hcs. cbn. repeat split; try assumption.
        eexists. split; [reflexivity|]. split; [reflexivity|].
        exists colors. repeat split. exact Hlen.
      * exists (set_render_pending false s).
        split; [apply (initChart_no_context _ canvas); assumption|].
        unfold Inv. cbn. rewrite Ec, Ed. repeat split; assumption.
    + exists (set_render_pending false s).
      split; [apply initChart_no_surface; assumption|].
      unfold Inv. cbn. rewrite Ec, Ed. repeat split; assumption.
  - (* CanvasClick *)
    destruct (click_subscribed s) eqn:Es; [|exists s; split; [reflexivity | exact HI]].
    destruct (on_canvas_click_returns s points) as [s' [Hs' [-> | [x ->]]]].
    + exists s. split; [exact Hs' | exact HI].
    + exists (emit x s). split; [exact Hs'|].
      unfold Inv in *. cbn. destruct (chart s); [exact HI|].
      rewrite Ed in *. destruct HI as [_ [Hsub _]]. congruence.
  - (* Destroy *)
    unfold Inv in HI. destruct (chart s) as [ref|] eqn:Ec.
    + destruct HI as [-> [_ [Hsub [Hpen [ch [Hcs [Hd Hcfg]]]]]]].
      rewrite (canvas_ngOnDestroy_some s ch Ec Hcs). cbn [bind].
      eexists. split; [reflexivity|].
      unfold Inv. cbn. repeat split; try lia.
      constructor; [reflexivity | constructor].
    + rewrite Ed in HI. destruct HI as [Hcs [Hsub Hlog]].
      rewrite (canvas_ngOnDestroy_none s Ec). cbn [bind].
      eexists. split; [reflexivity|].
      unfold Inv. cbn. rewrite Ec, Hcs. repeat split; try (simpl; lia).
      constructor.
Qed.

Lemma run_Inv (es : list event) (s : State) :
  Inv s -> exists s', run s es = Normal s' /\ Inv s'.
Proof.
  revert s. induction es as [|e rest IH]; intros s HI; simpl.
  - exists s. split; [reflexivity | exact HI].
  - destruct (step_Inv s e HI) as [s1 [H1 HI1]]. rewrite H1. cbn [bind].
    apply IH, HI1.
Qed.

Lemma run_app (es es' : list event) (s : State) :
  run s (es ++ es') = (s1 <- run s es ;; run s1 es').
Proof.
  revert s. induction es as [|e rest IH]; intro s; simpl.
  - reflexivity.
  - destruct (step s e) as [s1|err]; cbn [bind]; [apply IH | reflexivity].
Qed.

Lemma run_reaches_Inv (es : list event) (s : State) :
  run constructed es = Normal s -> Inv s.
Proof.
  intro H. destruct (run_Inv es constructed Inv_constructed) as [s' [H' HI]].
  rewrite H in H'. injection H' as <-. exact HI.
Qed.

Lemma run_returns (es : list event) : exists s, run constructed es = Normal s.
Proof.
  destruct (run_Inv es constructed Inv_constructed) as [s [H _]].
  exists s. exact H.
Qed.

(** The chart that a reached state holds shows the current inputs. *)
Lemma current_chart_configured (es : list event) (s : State) (ch : Chart) :
  run constructed es = Normal s -> current_chart s = Some ch ->
  chart s = Some 0%nat /\ charts s = [ch] /\ destroyed ch = false /\
  configured (inputs s) ch /\
  component_destroyed s = false /\ click_subscribed s = true.
Proof.
  intros Hr Hc. apply run_reaches_Inv in Hr.
  unfold current_chart in Hc. unfold Inv in Hr.
  destruct (chart s) as [ref|]; [|discriminate].
  destruct Hr as [-> [Hd [Hsub [_ [ch' [Hcs [Hnd Hcfg]]]]]]].
  rewrite Hcs in Hc. simpl in Hc. injection Hc as <-.
  repeat split; assumption.
Qed.

(** *** The callbacks of a configured chart *)

Lemma sum_reduce_from (vs : list Q) (acc : Q) :
  fold_left JS.add (map JS.Fin vs) (JS.Fin acc) = JS.Fin (fold_left Qplus vs acc).
Proof.
  revert acc. induction vs as [|v rest IH]; intro acc; simpl.
  - reflexivity.
  - apply IH.
Qed.

Lemma total_of_data_of (i : Inputs) (colors : list string) :
  total_of (data_of i colors) = Normal (JS.Fin (total_value (data i))).
Proof.
  unfold total_of, data_of. cbn [datasets nth_error deref bind ds_data].
  unfold JS.sum_reduce, total_value.
  rewrite <- sum_reduce_from, map_map. reflexivity.
Qed.

Lemma value_at (i : Inputs) (n : nat) (x : Slice) :
  nth_error (data i) n = Some x ->
  to_number (nth_error (map (fun item => JS.Fin (value item)) (data i)) n)
  = JS.Fin (value x).
Proof. intro H. rewrite nth_error_map, H. reflexivity. Qed.

Lemma label_at (i : Inputs) (n : nat) (x : Slice) :
  nth_error (data i) n = Some x ->
  nth_error (map (fun item => label item) (data i)) n = Some (label x).
Proof. intro H. rewrite nth_error_map, H. reflexivity. Qed.

Lemma inline_label_text_configured (i : Inputs) (ch : Chart) (n : nat) (x : Slice) :
  configured i ch -> nth_error (data i) n = Some x ->
  inline_label_text ch n
  = Normal (label_text (labelFormat i) x (total_value (data i))).
Proof.
  intros [colors [_ [Hd Ho]]] Hx.
  unfold inline_label_text, label_context. rewrite Hd, Ho.
  cbn [data_of datasets nth_error deref bind dataset ds_data options_of
       datalabels_formatter].
  rewrite (value_at i n x Hx).
  unfold ChartjsPie.formatter.
  change (mkChartData (map (fun item => label item) (data i))
            [mkDataset (map (fun item => JS.Fin (value item)) (data i)) colors
               10 1 "#fff"]) with (data_of i colors).
  cbn [chart_data dataIndex]. rewrite total_of_data_of. cbn [bind].
  unfold data_of. cbn [labels]. rewrite (label_at i n x Hx).
  unfold label_text, rounded_percentage, percentage_of.
  destruct (labelFormat i); reflexivity.
Qed.

Lemma inline_label_shown_configured (i : Inputs) (ch : Chart) (n : nat) (x : Slice) :
  configured i ch -> nth_error (data i) n = Some x ->
  inline_label_shown ch n
  = Normal (showInlineLabels i &&
            JS.ge (percentage_of (value x) (total_value (data i))) (JS.Fin 5)).
Proof.
  intros [colors [_ [Hd Ho]]] Hx.
  unfold inline_label_shown, label_context. rewrite Hd, Ho.
  cbn [data_of datasets nth_error deref bind options_of datalabels_display].
  unfold display. destruct (showInlineLabels i); cbn [negb andb]; [|reflexivity].
  change (mkChartData (map (fun item => label item) (data i))
            [mkDataset (map (fun item => JS.Fin (value item)) (data i)) colors
               10 1 "#fff"]) with (data_of i colors).
  cbn [chart_data dataIndex dataset ds_data].
  rewrite total_of_data_of. cbn [bind].
  rewrite (value_at i n x Hx). reflexivity.
Qed.

Lemma tooltip_text_configured (i : Inputs) (ch : Chart) (n : nat) (x : Slice) :
  configured i ch -> nth_error (data i) n = Some x ->
  tooltip_text ch n
  = Normal (label x ++ ": " ++ num (JS.Fin (value x)) ++ " (" ++
            num (JS.Math_round (percentage_of (value x) (total_value (data i))))
            ++ "%)")%string.
Proof.
  intros [colors [_ [Hd Ho]]] Hx.
  unfold tooltip_text, tooltip_item. rewrite Hd, Ho.
  cbn [data_of datasets nth_error deref bind options_of tooltip_label ds_data labels].
  rewrite (value_at i n x Hx), (label_at i n x Hx).
  unfold ChartjsPie.tooltip_label_callback.
  change (mkChartData (map (fun item => label item) (data i))
            [mkDataset (map (fun item => JS.Fin (value item)) (data i)) colors
               10 1 "#fff"]) with (data_of i colors).
  cbn [item_chart_data item_label raw]. rewrite total_of_data_of. reflexivity.
Qed.

(** *** Percentages *)

Lemma percentage_of_nonzero (v t : Q) :
  ~ t == 0 -> percentage_of v t = JS.Fin (v / t * 100).
Proof.
  intro H. unfold percentage_of, JS.div.
  apply Qis_zero_false_iff in H. rewrite H. reflexivity.
Qed.

Lemma percentage_of_zero_zero (v t : Q) :
  t == 0 -> v == 0 -> percentage_of v t = JS.NaN.
Proof.
  intros Ht Hv. unfold percentage_of, JS.div.
  apply Qis_zero_iff in Ht, Hv. rewrite Ht, Hv. reflexivity.
Qed.

Lemma percentage_of_zero_pos (v t : Q) :
  t == 0 -> 0 < v -> percentage_of v t = JS.PosInf.
Proof.
  intros Ht Hv. unfold percentage_of, JS.div.
  apply Qis_zero_iff in Ht. rewrite Ht.
  assert (Hz : JS.Qis_zero v = false).
  { apply Qis_zero_false_iff. intro E. rewrite E in Hv. apply (Qlt_irrefl _ Hv). }
  apply Qis_pos_iff in Hv. rewrite Hz, Hv. reflexivity.
Qed.

Lemma percentage_of_zero_neg (v t : Q) :
  t == 0 -> v < 0 -> percentage_of v t = JS.NegInf.
Proof.
  intros Ht Hv. unfold percentage_of, JS.div.
  apply Qis_zero_iff in Ht. rewrite Ht.
  assert (Hz : JS.Qis_zero v = false).
  { apply Qis_zero_false_iff. intro E. rewrite E in Hv. apply (Qlt_irrefl _ Hv). }
  assert (Hp : JS.Qis_pos v = false).
  { destruct (JS.Qis_pos v) eqn:E; [|reflexivity].
    apply Qis_pos_iff in E. exfalso.
    apply (Qlt_irrefl 0). eapply Qlt_trans; eassumption. }
  rewrite Hz, Hp. reflexivity.
Qed.

Lemma ge_5_iff (q : Q) : JS.ge (JS.Fin q) (JS.Fin 5) = true <-> 5 <= q.
Proof. simpl. apply Qle_bool_iff. Qed.

Lemma Qdiv_zero (v t : Q) : t == 0 -> v / t == 0.
Proof. intro H. unfold Qdiv. rewrite H. change (/ 0) with 0. ring. Qed.

(** With a total that is not zero, [percentage >= 5] says that the share
    is at least 5%. *)
Lemma share_at_least_5 (v t : Q) :
  ~ t == 0 ->
  (JS.ge (percentage_of v t) (JS.Fin 5) = true <-> (5 # 100) <= v / t).
Proof.
  intro H. rewrite (percentage_of_nonzero v t H), ge_5_iff.
  split; intro Hle; lra.
Qed.

Lemma Qred_inject_Z (z : Z) : Qred (inject_Z z) = inject_Z z.
Proof.
  unfold Qred, inject_Z.
  pose proof (Z.ggcd_gcd z 1) as Hg.
  pose proof (Z.ggcd_correct_divisors z 1) as Hd.
  destruct (Z.ggcd z 1) as [g [aa bb]]. simpl in *.
  rewrite Z.gcd_1_r in Hg. subst g. destruct Hd as [Ha Hb].
  rewrite Z.mul_1_l in Ha, Hb. subst aa bb. reflexivity.
Qed.

Lemma num_round (q : Q) :
  num (JS.Math_round (JS.Fin q)) = JS.Z_toString (Qfloor (q + (1 # 2))).
Proof.
  unfold ChartjsPie.num, JS.toString, JS.Math_round.
  rewrite Qred_inject_Z. reflexivity.
Qed.

(** The rounded percentage of a slice when the total is not zero. *)
Lemma rounded_percentage_digits (v t : Q) :
  ~ t == 0 ->
  num (JS.Math_round (percentage_of v t))
  = JS.Z_toString (Qfloor (v / t * 100 + (1 # 2))).
Proof. intro H. rewrite (percentage_of_nonzero v t H). apply num_round. Qed.

Lemma values_sum_nonneg (data : list Slice) :
  Forall (fun d => 0 <= value d) data ->
  0 <= fold_right Qplus 0 (map value data).
Proof.
  induction 1 as [|d rest Hd _ IH]; simpl.
  - apply Qle_refl.
  - lra.
Qed.

(** Non-negative values with a zero total are all zero. *)
Lemma zero_total_zero_values (data : list Slice) (x : Slice) :
  Forall (fun d => 0 <= value d) data ->
  total_value data == 0 -> In x data -> value x == 0.
Proof.
  intros Hn Ht Hx. unfold total_value in Ht. rewrite total_value_from in Ht.
  induction Hn as [|d rest Hd Hrest IH]; [destruct Hx|].
  simpl in Ht. pose proof (values_sum_nonneg rest Hrest) as Hs.
  destruct Hx as [-> | Hx].
  - lra.
  - apply IH; [lra | exact Hx].
Qed.

(** *** Data, lifecycle and clicks *)

Lemma configured_lengths (i : Inputs) (ch : Chart) :
  configured i ch ->
  exists ds,
    datasets (ChartJs.data ch) = [ds] /\
    labels (ChartJs.data ch) = map (fun item => label item) (data i) /\
    ds_data ds = map (fun item => JS.Fin (value item)) (data i) /\
    List.length (labels (ChartJs.data ch)) = List.length (data i) /\
    List.length (ds_data ds) = List.length (data i) /\
    List.length (backgroundColor ds) = List.length (data i).
Proof.
  intros [colors [Hlen [Hd _]]]. rewrite Hd. unfold data_of. cbn.
  eexists. split; [reflexivity|]. cbn.
  rewrite !length_map. repeat split. exact Hlen.
Qed.

(** An input change with a chart: the same instance gets the new data and
    options and one more [update()]. *)
Lemma step_SetInputs_chart (s : State) (ref : nat) (i : Inputs) :
  Inv s -> chart s = Some ref ->
  exists s' ch ch',
    charts s = [ch] /\
    step s (SetInputs i) = Normal s' /\
    chart s' = Some ref /\ charts s' = [ch'] /\
    nth_error (charts s) ref = Some ch /\ nth_error (charts s') ref = Some ch' /\
    configured i ch' /\
    updates ch' = S (updates ch) /\ destroyed ch' = false /\
    inputs s' = i /\ segmentClick s' = segmentClick s.
Proof.
  intros HI Hc. unfold Inv in HI. rewrite Hc in HI.
  destruct HI as [-> [Hd [_ [_ [ch [Hcs [Hnd _]]]]]]].
  destruct (updateChart_some (set_inputs i s) ch Hc Hcs) as [colors [n [Hlen Hu]]].
  eexists. exists ch. eexists.
  split; [exact Hcs|].
  split; [unfold ChartjsPie.step; rewrite Hd; exact Hu|].
  cbn. rewrite Hcs, Hnd. repeat split; try assumption.
  exists colors. repeat split. exact Hlen.
Qed.

(** An input change without a chart only records the inputs. *)
Lemma step_SetInputs_no_chart (s : State) (i : Inputs) :
  chart s = None -> component_destroyed s = false ->
  step s (SetInputs i) = Normal (set_inputs i s).
Proof.
  intros Hc Hd. unfold ChartjsPie.step. rewrite Hd.
  apply updateChart_none. exact Hc.
Qed.

Lemma Inv_at_most_one (s : State) : Inv s -> (List.length (charts s) <= 1)%nat.
Proof.
  unfold Inv. destruct (chart s).
  - intros [_ [_ [_ [_ [ch [-> _]]]]]]. simpl. lia.
  - destruct (component_destroyed s).
    + intros [H _]. exact H.
    + intros [-> _]. simpl. lia.
Qed.

(** Only the render callback creates an instance, and only when the
    canvas and its 2D context are there. *)
Lemma step_creates (s s' : State) (e : event) :
  Inv s -> step s e = Normal s' ->
  List.length (charts s') <> List.length (charts s) ->
  e = AfterNextRender /\ render_pending s = true /\ charts s = [] /\
  chart s = None /\ chart s' = Some 0%nat /\
  exists canvas ctx, chartContainer s = Some canvas /\
                     getContext_2d canvas = Some ctx.
Proof.
  intros HI Hs Hlen. unfold ChartjsPie.step in Hs.
  destruct (component_destroyed s) eqn:Ed.
  { injection Hs as <-. exfalso. apply Hlen. reflexivity. }
  destruct e as [i | canvas | | points |].
  - exfalso. apply Hlen. unfold Inv in HI. destruct (chart s) as [ref|] eqn:Ec.
    + destruct HI as [-> [_ [_ [_ [ch [Hcs _]]]]]].
      destruct (updateChart_some (set_inputs i s) ch Ec Hcs) as [colors [n [_ Hu]]].
      rewrite Hu in Hs. injection Hs as <-. cbn. rewrite Hcs. reflexivity.
    + rewrite (updateChart_none (set_inputs i s) Ec) in Hs.
      injection Hs as <-. reflexivity.
  - injection Hs as <-. exfalso. apply Hlen. reflexivity.
  - destruct (render_pending s) eqn:Ep.
    2:{ injection Hs as <-. exfalso. apply Hlen. reflexivity. }
    unfold Inv in HI. destruct (chart s) as [ref|] eqn:Ec.
    { destruct HI as [_ [_ [_ [Hpen _]]]]. congruence. }
    rewrite Ed in HI. destruct HI as [Hcs _].
    destruct (chartContainer s) as [canvas|] eqn:Ecc.
    + destruct (getContext_2d canvas) as [ctx|] eqn:Ectx.
      * destruct (initChart_creates (set_render_pending false s) canvas ctx Ecc Ectx)
          as [colors [n [_ Hi]]].
        rewrite Hi in Hs. injection Hs as <-. cbn. rewrite Hcs.
        repeat split. exists canvas, ctx. split; [reflexivity | exact Ectx].
      * rewrite (initChart_no_context (set_render_pending false s) canvas Ecc Ectx) in Hs.
        injection Hs as <-. exfalso. apply Hlen. reflexivity.
    + rewrite (initChart_no_surface (set_render_pending false s) Ecc) in Hs.
      injection Hs as <-. exfalso. apply Hlen. reflexivity.
  - exfalso. apply Hlen. destruct (click_subscribed s).
    + destruct (on_canvas_click_returns s points) as [s1 [H1 [-> | [x ->]]]];
        rewrite H1 in Hs; injection Hs as <-; reflexivity.
    + injection Hs as <-. reflexivity.
  - exfalso. apply Hlen. unfold Inv in HI. destruct (chart s) as [ref|] eqn:Ec.
    + destruct HI as [-> [_ [_ [_ [ch [Hcs _]]]]]].
      rewrite (canvas_ngOnDestroy_some s ch Ec Hcs) in Hs. cbn [bind] in Hs.
      injection Hs as <-. cbn. rewrite Hcs. reflexivity.
    + rewrite (canvas_ngOnDestroy_none s Ec) in Hs. cbn [bind] in Hs.
      injection Hs as <-. reflexivity.
Qed.

(** A render callback that finds no canvas or no 2D context gives up. *)
Lemma step_render_abandoned (s : State) :
  component_destroyed s = false -> render_pending s = true ->
  (chartContainer s = None \/
   exists canvas, chartContainer s = Some canvas /\ getContext_2d canvas = None) ->
  step s AfterNextRender = Normal (set_render_pending false s).
Proof.
  intros Hd Hp Hs. unfold ChartjsPie.step. rewrite Hd, Hp.
  destruct Hs as [Hn | [canvas [Hc Hctx]]].
  - apply initChart_no_surface. exact Hn.
  - apply (initChart_no_context _ canvas); assumption.
Qed.

Lemma step_inert (s : State) (e : event) :
  inert s ->
  exists s', step s e = Normal s' /\ inert s' /\
             charts s' = charts s /\ segmentClick s' = segmentClick s.
Proof.
  intros [Hc [Hp Hs]]. unfold ChartjsPie.step.
  destruct (component_destroyed s) eqn:Ed.
  { exists s. repeat split; assumption. }
  destruct e as [i | canvas | | points |].
  - rewrite (updateChart_none (set_inputs i s) Hc).
    eexists. split; [reflexivity|]. repeat split; assumption.
  - eexists. split; [reflexivity|]. repeat split; assumption.
  - rewrite Hp. exists s. repeat split; assumption.
  - rewrite Hs. exists s. repeat split; assumption.
  - rewrite (canvas_ngOnDestroy_none s Hc). cbn [bind].
    eexists. split; [reflexivity|]. repeat split. exact Hc.
Qed.

Lemma run_inert (es : list event) (s : State) :
  inert s ->
  exists s', run s es = Normal s' /\ inert s' /\
             charts s' = charts s /\ segmentClick s' = segmentClick s.
Proof.
  revert s. induction es as [|e rest IH]; intros s Hi; simpl.
  - exists s. repeat split; try reflexivity; apply Hi.
  - destruct (step_inert s e Hi) as [s1 [H1 [Hi1 [Hc1 Hl1]]]].
    rewrite H1. cbn [bind].
    destruct (IH s1 Hi1) as [s2 [H2 [Hi2 [Hc2 Hl2]]]].
    exists s2. split; [exact H2|]. split; [exact Hi2|].
    split; congruence.
Qed.

(** Destruction. *)
Lemma step_Destroy (s : State) :
  Inv s -> component_destroyed s = false ->
  exists s',
    step s Destroy = Normal s' /\ chart s' = None /\
    component_destroyed s' = true /\ click_subscribed s' = false /\
    (chart s = None -> charts s' = charts s) /\
    (forall ref ch, chart s = Some ref -> nth_error (charts s) ref = Some ch ->
       exists ch', nth_error (charts s') ref = Some ch' /\ destroyed ch' = true /\
                   List.length (charts s') = List.length (charts s)).
Proof.
  intros HI Hd. unfold ChartjsPie.step. rewrite Hd.
  unfold Inv in HI. destruct (chart s) as [ref|] eqn:Ec.
  - destruct HI as [-> [_ [_ [_ [ch [Hcs _]]]]]].
    rewrite (canvas_ngOnDestroy_some s ch Ec Hcs). cbn [bind].
    eexists. split; [reflexivity|]. cbn.
    repeat split; try discriminate.
    intros ref ch0 Href _. injection Href as <-.
    eexists. split; [reflexivity|]. split; [reflexivity|].
    rewrite Hcs. reflexivity.
  - rewrite (canvas_ngOnDestroy_none s Ec). cbn [bind].
    eexists. split; [reflexivity|]. cbn.
    repeat split; try assumption. intros ref ch Href. congruence.
Qed.

(** A click on a rendered segment of a reached state. *)
Lemma canvas_click_emits (es : list event) (s : State) (ch : Chart)
    (i : nat) (rest : list nat) :
  run constructed es = Normal s -> current_chart s = Some ch ->
  (i < List.length (labels (ChartJs.data ch)))%nat ->
  exists x,
    nth_error (data (inputs s)) i = Some x /\
    step s (CanvasClick (i :: rest)) = Normal (emit x s) /\
    segmentClick (emit x s) = segmentClick s ++ [x].
Proof.
  intros Hr Hc Hi.
  destruct (current_chart_configured es s ch Hr Hc)
    as [Hch [_ [_ [Hcfg [Hd Hsub]]]]].
  destruct (configured_lengths _ _ Hcfg) as [ds [_ [_ [_ [Hlen _]]]]].
  rewrite Hlen in Hi.
  destruct (nth_error (data (inputs s)) i) as [x|] eqn:Ex.
  2:{ apply nth_error_None in Ex. lia. }
  exists x. split; [reflexivity|].
  split; [|reflexivity].
  unfold ChartjsPie.step. rewrite Hd, Hsub.
  apply (on_canvas_click_hit s 0%nat i rest x Hch Ex).
Qed.

End CanvasWidget.

(* ------------------------------------------------------------------ *)
(** ** The contract of the two widgets *)

Section Claims.

Variable fraction_toString : Q -> string.
Variable arc_path : Q -> Q -> D3.PieArcDatum -> string.
Variable arc_centroid : Q -> Q -> D3.PieArcDatum -> string.
Variable Math_random : nat -> Q.

#[local] Abbreviation svg_step := (D3Pie.step fraction_toString arc_path arc_centroid).
#[local] Abbreviation svg_drawChart :=
  (D3Pie.drawChart fraction_toString arc_path arc_centroid).
#[local] Abbreviation canvas_step := (ChartjsPie.step fraction_toString Math_random).
#[local] Abbreviation canvas_run := (ChartjsPie.run fraction_toString Math_random).

(** C1. After a redraw the segments are those of the current data, one per
    slice, and nothing of an earlier render is left.  SVG widget: the arc
    groups on the surface after a change of [data] carry the arcs of
    [pie(data)], one each, and the whole result is the one a draw on the
    cleared surface gives.  Canvas widget: after an input change the chart
    holds one dataset whose labels, values and colours have the length of
    [data]. *)
Theorem redraw_shows_exactly_current_data
    (c : D3Pie.D3PieComponent) (svg : D3.Element) (data' : list Slice)
    (es : list ChartjsPie.event) (s : ChartjsPie.State) (ch : ChartJs.Chart)
    (i : ChartjsPie.Inputs) :
  D3Pie.chartContainer c = Some svg ->
  canvas_run ChartjsPie.constructed es = Normal s ->
  ChartjsPieSpec.current_chart s = Some ch ->
  (exists c',
      svg_step c (D3Pie.SetData data') = Normal c' /\
      List.length (D3PieSpec.segments c') = List.length data' /\
      map D3.datum (D3PieSpec.segments c') = map Some (D3.pie data') /\
      svg_step (D3Pie.set_chartContainer (Some (D3.remove_all svg)) c)
        (D3Pie.SetData data') = Normal c') /\
  (exists s' ch' ds,
      canvas_step s (ChartjsPie.SetInputs i) = Normal s' /\
      ChartjsPieSpec.current_chart s' = Some ch' /\
      ChartJs.datasets (ChartJs.data ch') = [ds] /\
      ChartJs.labels (ChartJs.data ch')
      = map (fun item => label item) (ChartjsPie.data i) /\
      ChartJs.ds_data ds
      = map (fun item => JS.Fin (value item)) (ChartjsPie.data i) /\
      List.length (ChartJs.labels (ChartJs.data ch')) = List.length (ChartjsPie.data i) /\
      List.length (ChartJs.ds_data ds) = List.length (ChartjsPie.data i) /\
      List.length (ChartJs.backgroundColor ds) = List.length (ChartjsPie.data i)).
Proof.
  intros Hm Hr Hc. split.
  - assert (Hm' : D3Pie.chartContainer (D3Pie.set_data data' c) = Some svg) by exact Hm.
    destruct (drawChart_segments fraction_toString arc_path arc_centroid _ svg Hm')
      as [c' [Hd [Hs _]]].
    exists c'. cbn [D3Pie.step].
    split; [exact Hd|].
    split; [rewrite Hs; apply groups_of_length|].
    split; [rewrite Hs; apply groups_of_datum|].
    rewrite <- Hd.
    symmetry. apply (drawChart_from_cleared _ _ _ (D3Pie.set_data data' c) svg Hm').
  - destruct (current_chart_configured _ _ es s ch Hr Hc) as [Hch _].
    pose proof (run_reaches_Inv _ _ es s Hr) as HI.
    destruct (step_SetInputs_chart _ Math_random s 0%nat i HI Hch)
      as [s' [ch0 [ch' [_ [Hs [Hch' [Hcs' [_ [_ [Hcfg _]]]]]]]]]].
    destruct (configured_lengths _ _ _ Hcfg) as [ds [Hds [Hl [Hv [H1 [H2 H3]]]]]].
    exists s', ch', ds.
    split; [exact Hs|].
    split; [unfold ChartjsPieSpec.current_chart; rewrite Hch', Hcs'; reflexivity|].
    repeat split; assumption.
Qed.



(** C5. A click on a rendered segment emits one event, whose payload is
    the entry of the current data at the segment's position.  SVG widget:
    after a draw, the arc group at a position has a path and a label, and a
    click on either emits the slice at that position.  Canvas widget: in a
    reached state with a chart, a click whose first hit is a rendered
    segment emits the entry of the current [data] at the hit's index. *)
Theorem click_emits_clicked_entry :
  (forall (c : D3Pie.D3PieComponent) (svg : D3.Element) (i : nat) (x : Slice),
      D3Pie.chartContainer c = Some svg ->
      nth_error (D3Pie.data c) i = Some x ->
      exists c' grp path lbl,
        svg_drawChart c = Normal c' /\
        nth_error (D3PieSpec.segments c') i = Some grp /\
        D3PieSpec.path_of grp = Some path /\ D3PieSpec.label_of grp = Some lbl /\
        svg_step c' (D3Pie.Click path) = Normal (D3Pie.emit x c') /\
        svg_step c' (D3Pie.Click lbl) = Normal (D3Pie.emit x c') /\
        D3Pie.arcClick (D3Pie.emit x c') = D3Pie.arcClick c ++ [x]) /\
  (forall (es : list ChartjsPie.event) (s : ChartjsPie.State) (ch : ChartJs.Chart)
          (i : nat) (rest : list nat),
      canvas_run ChartjsPie.constructed es = Normal s ->
      ChartjsPieSpec.current_chart s = Some ch ->
      (i < List.length (ChartJs.labels (ChartJs.data ch)))%nat ->
      exists x,
        nth_error (ChartjsPie.data (ChartjsPie.inputs s)) i = Some x /\
        canvas_step s (ChartjsPie.CanvasClick (i :: rest))
        = Normal (ChartjsPie.emit x s) /\
        ChartjsPie.segmentClick (ChartjsPie.emit x s)
        = ChartjsPie.segmentClick s ++ [x]).
Proof.
  split.
  - intros c svg i x Hm Hx. apply (svg_click_emits_slice _ _ _ c svg i x Hm Hx).
  - intros es s ch i rest Hr Hc Hi. apply (canvas_click_emits _ _ es s ch i rest Hr Hc Hi).
Qed.

(** C6. The canvas widget holds at most one chart instance.  In every
    reached state at most one instance was ever created; an instance
    appears only in the step of the render callback, when the canvas and
    its 2D context are there; an input change with an instance leaves the
    reference and the number of instances as they are, gives that instance
    the data and options of the new inputs and one more [update()]; an
    input change without an instance only records the inputs. *)
Theorem single_chart_instance
    (es : list ChartjsPie.event) (s : ChartjsPie.State) :
  canvas_run ChartjsPie.constructed es = Normal s ->
  ChartjsPie.charts ChartjsPie.constructed = [] /\
  (List.length (ChartjsPie.charts s) <= 1)%nat /\
  (forall e s',
      canvas_step s e = Normal s' ->
      List.length (ChartjsPie.charts s') <> List.length (ChartjsPie.charts s) ->
      e = ChartjsPie.AfterNextRender /\
      ChartjsPie.render_pending s = true /\
      ChartjsPie.charts s = [] /\ ChartjsPie.chart s = None /\
      ChartjsPie.chart s' = Some 0%nat /\
      exists canvas ctx,
        ChartjsPie.chartContainer s = Some canvas /\
        ChartjsPie.getContext_2d canvas = Some ctx) /\
  (forall i ref,
      ChartjsPie.chart s = Some ref ->
      exists s' ch ch',
        nth_error (ChartjsPie.charts s) ref = Some ch /\
        canvas_step s (ChartjsPie.SetInputs i) = Normal s' /\
        ChartjsPie.chart s' = Some ref /\
        List.length (ChartjsPie.charts s') = List.length (ChartjsPie.charts s) /\
        nth_error (ChartjsPie.charts s') ref = Some ch' /\
        configured fraction_toString i ch' /\
        ChartJs.updates ch' = S (ChartJs.updates ch) /\
        ChartJs.destroyed ch' = false) /\
  (forall i,
      ChartjsPie.chart s = None -> ChartjsPie.component_destroyed s = false ->
      canvas_step s (ChartjsPie.SetInputs i) = Normal (ChartjsPie.set_inputs i s)).
Proof.
  intro Hr. pose proof (run_reaches_Inv _ _ es s Hr) as HI.
  split; [reflexivity|].
  split; [apply (Inv_at_most_one _ s HI)|].
  split; [intros e s' Hs Hl; apply (step_creates _ _ s s' e HI Hs Hl)|].
  split.
  - intros i ref Hc.
    destruct (step_SetInputs_chart _ Math_random s ref i HI Hc)
      as [s' [ch [ch' [Hcs [Hs [Hc' [Hcs' [Hn [Hn' [Hcfg [Hu [Hd _]]]]]]]]]]]].
    exists s', ch, ch'. repeat split; try assumption.
    rewrite Hcs, Hcs'. reflexivity.
  - intros i Hc Hd. apply step_SetInputs_no_chart; assumption.
Qed.

(** C7. An unavailable drawing surface raises no error.  SVG widget: no
    step throws; without the surface a change of [data] only records the
    data, and once the surface is there the next change draws one segment
    per slice.  Canvas widget: no run throws; when the render callback
    finds no canvas, or a canvas without a 2D context, it returns with
    nothing created, and whatever happens afterwards the component holds no
    chart, no instance exists and no event is emitted. *)
Theorem unavailable_surface_is_silent :
  (forall (c : D3Pie.D3PieComponent) (e : D3Pie.event),
      exists c', svg_step c e = Normal c') /\
  (forall (c : D3Pie.D3PieComponent) (d : list Slice),
      D3Pie.chartContainer c = None ->
      svg_step c (D3Pie.SetData d) = Normal (D3Pie.set_data d c)) /\
  (forall (c : D3Pie.D3PieComponent) (svg : D3.Element) (d : list Slice),
      D3Pie.chartContainer c = Some svg ->
      exists c', svg_step c (D3Pie.SetData d) = Normal c' /\
                 List.length (D3PieSpec.segments c') = List.length d) /\
  (forall es : list ChartjsPie.event,
      exists s, canvas_run ChartjsPie.constructed es = Normal s) /\
  (forall (es : list ChartjsPie.event) (s : ChartjsPie.State),
      canvas_run ChartjsPie.constructed es = Normal s ->
      ChartjsPie.component_destroyed s = false ->
      ChartjsPie.render_pending s = true ->
      (ChartjsPie.chartContainer s = None \/
       exists canvas, ChartjsPie.chartContainer s = Some canvas /\
                      ChartjsPie.getContext_2d canvas = None) ->
      canvas_step s ChartjsPie.AfterNextRender
      = Normal (ChartjsPie.set_render_pending false s) /\
      forall es', exists s',
        canvas_run (ChartjsPie.set_render_pending false s) es' = Normal s' /\
        ChartjsPie.chart s' = None /\ ChartjsPie.charts s' = [] /\
        ChartjsPie.segmentClick s' = []).
Proof.
  split; [intros c e; apply svg_step_returns|].
  split.
  { intros c d Hn. cbn [D3Pie.step]. apply drawChart_unmounted. exact Hn. }
  split.
  { intros c svg d Hm.
    assert (Hm' : D3Pie.chartContainer (D3Pie.set_data d c) = Some svg) by exact Hm.
    destruct (drawChart_segments fraction_toString arc_path arc_centroid _ svg Hm')
      as [c' [Hd [Hs _]]].
    exists c'. split; [exact Hd|]. rewrite Hs. apply groups_of_length. }
  split; [intro es; apply run_returns|].
  intros es s Hr Hd Hp Hs.
  split; [apply step_render_abandoned; assumption|].
  pose proof (run_reaches_Inv _ _ es s Hr) as HI. unfold Inv in HI.
  destruct (ChartjsPie.chart s) as [ref|] eqn:Ec.
  { destruct HI as [_ [_ [_ [Hpen _]]]]. congruence. }
  rewrite Hd in HI. destruct HI as [Hcs [Hsub Hlog]].
  intro es'.
  destruct (run_inert fraction_toString Math_random es'
              (ChartjsPie.set_render_pending false s))
    as [s' [Hr' [[Hc' _] [Hcs' Hlog']]]].
  { repeat split; assumption. }
  exists s'. split; [exact Hr'|]. split; [exact Hc'|].
  split; [rewrite Hcs'; exact Hcs | rewrite Hlog'; exact Hlog].
Qed.


(** C9, amended.  A redraw of the SVG widget is idempotent and depends
    only on the inputs: drawing again changes nothing, two draws with the
    same [data], [width] and [height] give the same surface, there is one
    segment per slice, each label shows the slice's label, and each fill is
    the slice's own colour if it has one, and otherwise the palette colour
    at the slice's rank among the slices without a colour (counted from 0,
    cycling through the ten colours). *)
Theorem svg_redraw_is_idempotent (c : D3Pie.D3PieComponent) (svg : D3.Element) :
  D3Pie.chartContainer c = Some svg ->
  exists c',
    svg_drawChart c = Normal c' /\
    svg_drawChart c' = Normal c' /\
    List.length (D3PieSpec.segments c') = List.length (D3Pie.data c) /\
    (forall c2 svg2,
        D3Pie.chartContainer c2 = Some svg2 ->
        D3.remove_all svg2 = D3.remove_all svg ->
        D3Pie.data c2 = D3Pie.data c ->
        D3Pie.width c2 = D3Pie.width c -> D3Pie.height c2 = D3Pie.height c ->
        exists c2', svg_drawChart c2 = Normal c2' /\
                    D3Pie.chartContainer c2' = D3Pie.chartContainer c') /\
    (forall i x,
        nth_error (D3Pie.data c) i = Some x ->
        exists grp path lbl,
          nth_error (D3PieSpec.segments c') i = Some grp /\
          D3PieSpec.path_of grp = Some path /\ D3PieSpec.label_of grp = Some lbl /\
          D3.text lbl = Some (label x) /\
          D3.get_attr "fill" path = fill_by_rank (D3Pie.data c) i x).
Proof.
  intro Hm.
  destruct (drawChart_segments fraction_toString arc_path arc_centroid c svg Hm)
    as [c' [Hd [Hs _]]].
  exists c'. split; [exact Hd|].
  split; [apply (drawChart_idempotent _ _ _ c c' Hd)|].
  split; [rewrite Hs; apply groups_of_length|].
  split.
  - intros c2 svg2 Hm2 Hsvg Hdat Hw Hh.
    destruct (drawChart_deterministic fraction_toString arc_path arc_centroid
                c2 c svg2 svg Hm2 Hm Hsvg Hdat Hw Hh)
      as [c2' [c1' [H2 [H1 Heq]]]].
    exists c2'. split; [exact H2|].
    rewrite H1 in Hd. injection Hd as <-. exact Heq.
  - intros i x Hx.
    destruct (drawn_slice fraction_toString arc_path arc_centroid c svg i x Hm Hx)
      as [c1 [grp [path [lbl [H1 [Hg [Hp [Hl [Ht Hf]]]]]]]]].
    rewrite H1 in Hd. injection Hd as <-.
    exists grp, path, lbl. repeat split; assumption.
Qed.


End Claims.

(* ------------------------------------------------------------------ *)
(** ** Concrete runs *)

(** C1 at the slices A, B, C: three segments on the surface, three labels
    in the chart. *)
Lemma redraw_shows_exactly_current_data_witness :
  D3Pie.chartContainer sample_svg = Some (D3.create "svg" None) /\
  ChartjsPie.run no_fraction half_random ChartjsPie.constructed
    (sample_events [] ChartjsPie.Label)
  = Normal (sample_canvas [] ChartjsPie.Label) /\
  ChartjsPieSpec.current_chart (sample_canvas [] ChartjsPie.Label)
  = Some (chart_of (sample_canvas [] ChartjsPie.Label)) /\
  (exists c',
      D3Pie.step no_fraction no_geometry no_geometry sample_svg
        (D3Pie.SetData sample_ABC) = Normal c' /\
      List.length (D3PieSpec.segments c') = 3%nat) /\
  (exists s' ch',
      ChartjsPie.step no_fraction half_random (sample_canvas [] ChartjsPie.Label)
        (ChartjsPie.SetInputs
           (ChartjsPie.mkInputs sample_ABC 300 300 EmptyString false true ChartjsPie.Label))
      = Normal s' /\
      ChartjsPieSpec.current_chart s' = Some ch' /\
      List.length (ChartJs.labels (ChartJs.data ch')) = 3%nat).
Proof.
  pose proof (redraw_shows_exactly_current_data no_fraction no_geometry no_geometry
                half_random sample_svg (D3.create "svg" None) sample_ABC
                (sample_events [] ChartjsPie.Label)
                (sample_canvas [] ChartjsPie.Label)
                (chart_of (sample_canvas [] ChartjsPie.Label))
                (ChartjsPie.mkInputs sample_ABC 300 300 EmptyString false true ChartjsPie.Label)
                eq_refl eq_refl eq_refl)
    as [[c' [Hd [Hl _]]] [s' [ch' [ds [Hs [Hc [_ [_ [_ [Hn _]]]]]]]]]].
  split; [reflexivity|].
  split; [reflexivity|].
  split; [reflexivity|].
  split.
  - exists c'. split; [exact Hd | exact Hl].
  - exists s', ch'. split; [exact Hs|]. split; [exact Hc | exact Hn].
Defined.



(** C5 at the slices A, B, C: a click on the second segment. *)
Lemma click_emits_clicked_entry_witness :
  let s := sample_canvas sample_ABC ChartjsPie.Label in
  D3Pie.chartContainer sample_svg = Some (D3.create "svg" None) /\
  nth_error (D3Pie.data sample_svg) 1 = Some (mkSlice "B" 50 None) /\
  ChartjsPie.run no_fraction half_random ChartjsPie.constructed
    (sample_events sample_ABC ChartjsPie.Label) = Normal s /\
  ChartjsPieSpec.current_chart s = Some (chart_of s) /\
  (1 < List.length (ChartJs.labels (ChartJs.data (chart_of s))))%nat /\
  (exists c' grp path,
      D3Pie.drawChart no_fraction no_geometry no_geometry sample_svg = Normal c' /\
      nth_error (D3PieSpec.segments c') 1 = Some grp /\
      D3PieSpec.path_of grp = Some path /\
      D3Pie.step no_fraction no_geometry no_geometry c' (D3Pie.Click path)
      = Normal (D3Pie.emit (mkSlice "B" 50 None) c')) /\
  (exists x,
      nth_error (ChartjsPie.data (ChartjsPie.inputs s)) 1 = Some x /\
      ChartjsPie.step no_fraction half_random s (ChartjsPie.CanvasClick [1%nat])
      = Normal (ChartjsPie.emit x s)).
Proof.
  intro s.
  assert (Hlt : (1 < List.length (ChartJs.labels (ChartJs.data (chart_of s))))%nat).
  { vm_compute. lia. }
  pose proof (click_emits_clicked_entry no_fraction no_geometry no_geometry
                half_random) as [Hsvg Hcanvas].
  destruct (Hsvg sample_svg (D3.create "svg" None) 1%nat (mkSlice "B" 50 None)
              eq_refl eq_refl)
    as [c' [grp [path [lbl [Hd [Hg [Hp [_ [Hc _]]]]]]]]].
  destruct (Hcanvas (sample_events sample_ABC ChartjsPie.Label) s (chart_of s)
              1%nat [] eq_refl eq_refl Hlt)
    as [x [Hx [Hs _]]].
  split; [reflexivity|]. split; [reflexivity|]. split; [reflexivity|].
  split; [reflexivity|]. split; [exact Hlt|].
  split.
  - exists c', grp, path. repeat split; assumption.
  - exists x. split; assumption.
Defined.

(** C6 at the run that mounts, sets A, B, C and renders. *)
Lemma single_chart_instance_witness :
  let s := sample_canvas sample_ABC ChartjsPie.Label in
  ChartjsPie.run no_fraction half_random ChartjsPie.constructed
    (sample_events sample_ABC ChartjsPie.Label) = Normal s /\
  (List.length (ChartjsPie.charts s) <= 1)%nat.
Proof.
  intro s. split; [reflexivity|].
  exact (proj1 (proj2 (single_chart_instance no_fraction half_random
                         (sample_events sample_ABC ChartjsPie.Label) s eq_refl))).
Defined.

(** C7 where nothing is mounted: the first draw and the render callback. *)
Lemma unavailable_surface_is_silent_witness :
  D3Pie.chartContainer D3Pie.initial = None /\
  ChartjsPie.run no_fraction half_random ChartjsPie.constructed []
  = Normal ChartjsPie.constructed /\
  ChartjsPie.component_destroyed ChartjsPie.constructed = false /\
  ChartjsPie.render_pending ChartjsPie.constructed = true /\
  ChartjsPie.chartContainer ChartjsPie.constructed = None /\
  D3Pie.step no_fraction no_geometry no_geometry D3Pie.initial
    (D3Pie.SetData sample_ABC)
  = Normal (D3Pie.set_data sample_ABC D3Pie.initial) /\
  ChartjsPie.step no_fraction half_random ChartjsPie.constructed
    ChartjsPie.AfterNextRender
  = Normal (ChartjsPie.set_render_pending false ChartjsPie.constructed).
Proof.
  pose proof (unavailable_surface_is_silent no_fraction no_geometry no_geometry
                half_random) as [_ [Hskip [_ [_ Hinit]]]].
  split; [reflexivity|]. split; [reflexivity|]. split; [reflexivity|].
  split; [reflexivity|]. split; [reflexivity|].
  split.
  - apply (Hskip D3Pie.initial sample_ABC eq_refl).
  - apply (proj1 (Hinit [] ChartjsPie.constructed eq_refl eq_refl eq_refl
                    (or_introl eq_refl))).
Defined.


(** C9, as the claim states it, fails: with the slices A (red) and B (no
    colour), B is filled with the first palette colour, not with the one
    at its position 1. *)
Lemma fill_is_not_by_position :
  let slices := [mkSlice "A" 30 (Some "#ff0000"); mkSlice "B" 50 None] in
  let c := D3Pie.mkComponent slices 300 300 (Some (D3.create "svg" None)) [] in
  shown_fill (D3Pie.drawChart no_fraction no_geometry no_geometry c) 1
  = Some "#1f77b4" /\
  fill_by_position 1 (mkSlice "B" 50 None) = Some "#ff7f0e" /\
  shown_fill (D3Pie.drawChart no_fraction no_geometry no_geometry c) 1
  <> fill_by_position 1 (mkSlice "B" 50 None).
Proof.
  intros slices c.
  assert (H : shown_fill (D3Pie.drawChart no_fraction no_geometry no_geometry c) 1
              = Some "#1f77b4") by (vm_compute; reflexivity).
  split; [exact H|]. split; [reflexivity|].
  rewrite H. vm_compute. discriminate.
Qed.

(** C9 at the slices A, B, C. *)
Lemma svg_redraw_is_idempotent_witness :
  D3Pie.chartContainer sample_svg = Some (D3.create "svg" None) /\
  exists c',
    D3Pie.drawChart no_fraction no_geometry no_geometry sample_svg = Normal c' /\
    D3Pie.drawChart no_fraction no_geometry no_geometry c' = Normal c' /\
    List.length (D3PieSpec.segments c') = 3%nat.
Proof.
  destruct (svg_redraw_is_idempotent no_fraction no_geometry no_geometry
              sample_svg (D3.create "svg" None) eq_refl)
    as [c' [Hd [Hi [Hl _]]]].
  split; [reflexivity|].
  exists c'. split; [exact Hd|]. split; [exact Hi | exact Hl].
Defined.



(* ================================================================== *)
(** * Further properties of the components *)

(* ------------------------------------------------------------------ *)
(** ** The colours of the canvas widget *)

Section CanvasColours.
Import ChartJs ChartjsPie.

Variable fraction_toString : Q -> string.
Variable Math_random : nat -> Q.

#[local] Abbreviation getRandomColor := (getRandomColor Math_random).
#[local] Abbreviation background_colors := (background_colors Math_random).
#[local] Abbreviation getChartConfig := (getChartConfig fraction_toString Math_random).
#[local] Abbreviation step := (step fraction_toString Math_random).
#[local] Abbreviation run := (run fraction_toString Math_random).
#[local] Abbreviation options_of := (options_of fraction_toString).
#[local] Abbreviation configured := (configured fraction_toString).
#[local] Abbreviation Inv := (Inv fraction_toString).

Lemma getRandomColor_eq (s : State) :
  getRandomColor s
  = (random_color (Math_random (random_calls s)),
     set_random_calls (S (random_calls s)) s).
Proof. reflexivity. Qed.

(** The colours of the dataset, position by position, and the number of
    random draws. *)
Lemma background_colors_nth (items : list Slice) :
  forall (s : State),
    random_calls (snd (background_colors items s))
    = (random_calls s + List.length (filter falsy_color items))%nat /\
    forall i x,
      nth_error items i = Some x ->
      nth_error (fst (background_colors items s)) i
      = Some (if falsy_color x
              then random_color (Math_random (random_calls s + falsy_before items i))
              else match color x with Some c => c | None => EmptyString end).
Proof.
  induction items as [|item rest IH]; intro s.
  - split; [simpl; lia | intros i x H; destruct i; discriminate].
  - cbn [ChartjsPie.background_colors].
    set (pick := match color item with
                 | Some c => if String.eqb c EmptyString then getRandomColor s else (c, s)
                 | None => getRandomColor s
                 end).
    assert (Hp : pick = if falsy_color item
                        then (random_color (Math_random (random_calls s)),
                              set_random_calls (S (random_calls s)) s)
                        else (match color item with Some c => c | None => EmptyString end, s)).
    { unfold pick, falsy_color. destruct (color item) as [c|]; [|reflexivity].
      destruct (String.eqb c EmptyString); reflexivity. }
    rewrite Hp. clear Hp pick.
    destruct (falsy_color item) eqn:Ef.
    + destruct (IH (set_random_calls (S (random_calls s)) s)) as [Hn Hc].
      destruct (background_colors rest (set_random_calls (S (random_calls s)) s))
        as [cs s2]. cbn [fst snd] in *.
      split.
      * rewrite Hn. cbn [random_calls set_random_calls filter]. rewrite Ef.
        simpl. lia.
      * intros i x Hx. destruct i as [|i]; simpl in Hx.
        -- injection Hx as <-. rewrite Ef. unfold falsy_before. simpl.
           rewrite Nat.add_0_r. reflexivity.
        -- simpl. rewrite (Hc i x Hx). cbn [random_calls set_random_calls].
           unfold falsy_before. cbn [firstn filter]. rewrite Ef.
           cbn [List.length]. rewrite Nat.add_succ_r. reflexivity.
    + destruct (IH s) as [Hn Hc].
      destruct (background_colors rest s) as [cs s2]. cbn [fst snd] in *.
      split.
      * rewrite Hn. cbn [filter]. rewrite Ef. reflexivity.
      * intros i x Hx. destruct i as [|i]; simpl in Hx.
        -- injection Hx as <-. rewrite Ef. reflexivity.
        -- simpl. rewrite (Hc i x Hx).
           unfold falsy_before. cbn [firstn filter]. rewrite Ef. reflexivity.
Qed.

Lemma getChartConfig_parts (s : State) :
  getChartConfig s
  = (mkConfig "pie"
       (data_of (inputs s) (fst (background_colors (data (inputs s)) s)))
       (options_of (inputs s)),
     snd (background_colors (data (inputs s)) s)).
Proof.
  unfold ChartjsPie.getChartConfig.
  destruct (background_colors (data (inputs s)) s) as [colors s1]. reflexivity.
Qed.

(** The colours of the configuration. *)
Lemma getChartConfig_colours (s : State) :
  exists ds,
    datasets (config_data (fst (getChartConfig s))) = [ds] /\
    List.length (backgroundColor ds) = List.length (data (inputs s)) /\
    random_calls (snd (getChartConfig s))
    = (random_calls s + List.length (filter falsy_color (data (inputs s))))%nat /\
    same_but_random s (snd (getChartConfig s)) /\
    forall i x,
      nth_error (data (inputs s)) i = Some x ->
      nth_error (backgroundColor ds) i
      = Some (if falsy_color x
              then random_color
                     (Math_random (random_calls s + falsy_before (data (inputs s)) i))
              else match color x with Some c => c | None => EmptyString end).
Proof.
  rewrite getChartConfig_parts. cbn [fst snd config_data data_of datasets].
  eexists. split; [reflexivity|]. cbn [backgroundColor].
  destruct (background_colors_nth (data (inputs s)) s) as [Hn Hc].
  destruct (background_colors_spec Math_random (data (inputs s)) s) as [Hlen Hst].
  split; [exact Hlen|]. split; [exact Hn|]. split; [exact Hst | exact Hc].
Qed.

Lemma initChart_exact (s : State) (canvas : Canvas) (ctx : Context2D) :
  chartContainer s = Some canvas -> getContext_2d canvas = Some ctx ->
  ChartjsPie.initChart fraction_toString Math_random s
  = Normal (set_chart (Some (List.length (charts s)))
              (set_charts
                 (charts s
                  ++ [mkChart
                        (config_data (fst (getChartConfig (set_click_subscribed true s))))
                        (config_options (fst (getChartConfig (set_click_subscribed true s))))
                        0 false])
                 (snd (getChartConfig (set_click_subscribed true s))))).
Proof.
  intros Hc Hx. unfold ChartjsPie.initChart. rewrite Hc.
  cbn [truthy negb deref bind]. rewrite Hx. cbn [truthy negb deref bind].
  destruct (getChartConfig_spec fraction_toString Math_random
              (set_click_subscribed true s)) as [colors [s1 [Hcfg [_ Hst]]]].
  rewrite Hcfg. cbn [fst snd config_data config_options].
  unfold new_Chart.
  assert (Hch : charts s1 = charts s) by (rewrite Hst; reflexivity).
  rewrite Hch. reflexivity.
Qed.

(** X1. The chart that the render callback creates keeps every colour that
    a slice brings, at the slice's position, and gives every slice without
    a colour (absent or empty) the colour of one call of [Math.random()],
    in sequence order; the calls made are as many as there are such
    slices. *)
Theorem created_chart_colours
    (es : list event) (s : State) (canvas : Canvas) (ctx : Context2D) :
  run constructed es = Normal s ->
  component_destroyed s = false -> render_pending s = true ->
  chartContainer s = Some canvas -> getContext_2d canvas = Some ctx ->
  exists s' ch ds,
    step s AfterNextRender = Normal s' /\
    current_chart s' = Some ch /\
    datasets (ChartJs.data ch) = [ds] /\
    List.length (backgroundColor ds) = List.length (data (inputs s)) /\
    random_calls s'
    = (random_calls s + List.length (filter falsy_color (data (inputs s))))%nat /\
    forall n x,
      nth_error (data (inputs s)) n = Some x ->
      nth_error (backgroundColor ds) n
      = Some (if falsy_color x
              then random_color
                     (Math_random (random_calls s + falsy_before (data (inputs s)) n))
              else match color x with Some c => c | None => EmptyString end).
Proof.
  intros Hr Hd Hp Hc Hx.
  pose proof (run_reaches_Inv fraction_toString Math_random es s Hr) as HI.
  assert (Hcs : charts s = []).
  { unfold ChartjsPieSpec.Inv in HI. destruct (chart s) as [ref|].
    - destruct HI as [_ [_ [_ [Hrp _]]]]. rewrite Hrp in Hp. discriminate.
    - rewrite Hd in HI. exact (proj1 HI). }
  set (s0 := set_click_subscribed true (set_render_pending false s)).
  destruct (getChartConfig_colours s0) as [ds [Hds [Hlen [Hn [Hst Hcol]]]]].
  eexists. eexists. exists ds.
  split.
  { unfold ChartjsPie.step. rewrite Hd, Hp.
    apply (initChart_exact (set_render_pending false s) canvas ctx Hc Hx). }
  fold s0. cbn [charts set_render_pending]. rewrite Hcs.
  split.
  { unfold current_chart. reflexivity. }
  split; [exact Hds|].
  split; [exact Hlen|].
  split; [exact Hn | exact Hcol].
Qed.

Lemma updateChart_exact (s : State) (ch : Chart) :
  chart s = Some 0%nat -> charts s = [ch] ->
  ChartjsPie.updateChart fraction_toString Math_random s
  = Normal (set_charts
              [mkChart (config_data (fst (getChartConfig s)))
                 (config_options (fst (getChartConfig s)))
                 (S (updates ch)) (destroyed ch)]
              (snd (getChartConfig s))).
Proof.
  intros Hc Hcs. unfold ChartjsPie.updateChart. rewrite Hc.
  cbn [truthy negb deref bind].
  destruct (getChartConfig_spec fraction_toString Math_random s)
    as [colors [s1 [Hcfg [_ Hst]]]].
  rewrite Hcfg. cbn [fst snd config_data config_options].
  assert (Hch : charts s1 = [ch]) by (rewrite Hst; exact Hcs).
  rewrite Hch. reflexivity.
Qed.

(** X2. An input change in a state with a chart re-draws only the missing
    colours: in the updated chart the slices that bring a colour keep it,
    the others get the colours of new calls of [Math.random()], numbered
    on from the calls made so far; when every slice brings a colour no
    call is made. *)
Theorem update_redraws_only_missing_colours
    (es : list event) (s : State) (ch : Chart) (i : Inputs) :
  run constructed es = Normal s ->
  current_chart s = Some ch ->
  exists s' ch' ds,
    step s (SetInputs i) = Normal s' /\
    current_chart s' = Some ch' /\
    datasets (ChartJs.data ch') = [ds] /\
    random_calls s'
    = (random_calls s + List.length (filter falsy_color (data i)))%nat /\
    (forall n x,
        nth_error (data i) n = Some x ->
        nth_error (backgroundColor ds) n
        = Some (if falsy_color x
                then random_color
                       (Math_random (random_calls s + falsy_before (data i) n))
                else match color x with Some c => c | None => EmptyString end)) /\
    (Forall (fun x => falsy_color x = false) (data i) ->
     random_calls s' = random_calls s).
Proof.
  intros Hr Hc.
  destruct (current_chart_configured fraction_toString Math_random es s ch Hr Hc)
    as [Hch [Hcs [_ [_ [Hd _]]]]].
  destruct (getChartConfig_colours (set_inputs i s))
    as [ds [Hds [_ [Hn [Hst Hcol]]]]].
  eexists. eexists. exists ds.
  split.
  { unfold ChartjsPie.step. rewrite Hd.
    apply (updateChart_exact (set_inputs i s) ch Hch Hcs). }
  assert (Hchart : chart (snd (getChartConfig (set_inputs i s))) = Some 0%nat).
  { rewrite Hst. exact Hch. }
  split.
  { unfold current_chart. cbn [chart charts set_charts]. rewrite Hchart. reflexivity. }
  split; [exact Hds|].
  split; [exact Hn|].
  split; [exact Hcol|].
  intro Hall. cbn [random_calls set_charts]. rewrite Hn.
  cbn [inputs set_inputs random_calls].
  replace (filter falsy_color (data i)) with (@nil Slice); [simpl; lia|].
  symmetry. induction Hall as [|x rest Hx _ IH]; simpl; [reflexivity|].
  rewrite Hx. exact IH.
Qed.

(** X3. The chart of every reached state shows the current inputs: the
    legend is displayed as [showLegend] says, at the top; the title is
    displayed exactly when it is not empty, with the text of the input;
    labels and values are those of the current data, in order; and the
    chart is not destroyed. *)
Theorem chart_follows_inputs (es : list event) (s : State) (ch : Chart) :
  run constructed es = Normal s ->
  current_chart s = Some ch ->
  legend_display (options ch) = showLegend (inputs s) /\
  legend_position (options ch) = "top" /\
  title_display (options ch) = negb (String.eqb (title (inputs s)) EmptyString) /\
  title_text (options ch) = title (inputs s) /\
  labels (ChartJs.data ch) = map (fun item => label item) (data (inputs s)) /\
  map ds_data (datasets (ChartJs.data ch))
  = [map (fun item => JS.Fin (value item)) (data (inputs s))] /\
  destroyed ch = false.
Proof.
  intros Hr Hc.
  destruct (current_chart_configured fraction_toString Math_random es s ch Hr Hc)
    as [_ [_ [Hnd [[colors [_ [Hdata Hopt]]] _]]]].
  rewrite Hdata, Hopt. repeat split. exact Hnd.
Qed.

End CanvasColours.

(* ------------------------------------------------------------------ *)
(** ** Percentages, inline labels and tooltips of the canvas widget *)

Section CanvasLabels.
Import ChartJs ChartjsPie.

Variable fraction_toString : Q -> string.
Variable Math_random : nat -> Q.

#[local] Abbreviation num := (num fraction_toString).
#[local] Abbreviation step := (step fraction_toString Math_random).
#[local] Abbreviation run := (run fraction_toString Math_random).
#[local] Abbreviation configured := (configured fraction_toString).

Lemma value_le_sum (data : list Slice) (x : Slice) :
  Forall (fun d => 0 <= value d) data -> In x data ->
  value x <= fold_right Qplus 0 (map value data).
Proof.
  intro Hn. induction Hn as [|d rest Hd Hrest IH]; intro Hin; [contradiction|].
  pose proof (values_sum_nonneg rest Hrest) as Hs. simpl.
  destruct Hin as [-> | Hin].
  - lra.
  - specialize (IH Hin). lra.
Qed.

Lemma value_le_total (data : list Slice) (x : Slice) :
  Forall (fun d => 0 <= value d) data -> In x data ->
  value x <= total_value data.
Proof.
  intros Hn Hin. unfold total_value. rewrite total_value_from.
  pose proof (value_le_sum data x Hn Hin). lra.
Qed.

Lemma total_nonneg (data : list Slice) :
  Forall (fun d => 0 <= value d) data -> 0 <= total_value data.
Proof.
  intro Hn. unfold total_value. rewrite total_value_from.
  pose proof (values_sum_nonneg data Hn). lra.
Qed.

Lemma share_within_unit (data : list Slice) (x : Slice) :
  Forall (fun d => 0 <= value d) data -> In x data ->
  ~ total_value data == 0 ->
  0 <= value x / total_value data /\ value x / total_value data <= 1.
Proof.
  intros Hn Hin Hnz.
  pose proof (total_nonneg data Hn) as Ht.
  pose proof (value_le_total data x Hn Hin) as Hle.
  assert (Hx : 0 <= value x).
  { rewrite Forall_forall in Hn. exact (Hn x Hin). }
  assert (Hpos : 0 < total_value data).
  { destruct (Qlt_le_dec 0 (total_value data)) as [H|H]; [exact H|].
    exfalso. apply Hnz. lra. }
  split.
  - apply Qle_shift_div_l; [exact Hpos | lra].
  - apply Qle_shift_div_r; [exact Hpos | lra].
Qed.

(** X4. For slices with non-negative values and a total that is not zero,
    [Math.round((value / total) * 100)] of a slice of the data is an
    integer between 0 and 100, printed with its decimal digits. *)
Theorem rounded_percentage_within_0_100 (data : list Slice) (x : Slice) :
  Forall (fun d => 0 <= value d) data -> In x data ->
  ~ total_value data == 0 ->
  exists z,
    rounded_percentage (JS.Fin (value x)) (JS.Fin (total_value data))
    = JS.Fin (inject_Z z) /\
    (0 <= z <= 100)%Z /\
    num (rounded_percentage (JS.Fin (value x)) (JS.Fin (total_value data)))
    = JS.Z_toString z.
Proof.
  intros Hn Hin Hnz.
  destruct (share_within_unit data x Hn Hin Hnz) as [H0 H1].
  exists (Qfloor (value x / total_value data * 100 + (1 # 2))).
  assert (Hr : rounded_percentage (JS.Fin (value x)) (JS.Fin (total_value data))
               = JS.Fin (inject_Z (Qfloor (value x / total_value data * 100 + (1 # 2))))).
  { unfold rounded_percentage.
    change (JS.mul (JS.div (JS.Fin (value x)) (JS.Fin (total_value data))) (JS.Fin 100))
      with (percentage_of (value x) (total_value data)).
    rewrite (percentage_of_nonzero _ _ Hnz). reflexivity. }
  split; [exact Hr|]. split.
  - generalize dependent (value x / total_value data). intros r H0 H1 _.
    split.
    + assert (H : (Qfloor 0 <= Qfloor (r * 100 + (1 # 2)))%Z)
        by (apply Qfloor_resp_le; lra).
      exact H.
    + assert (H : (Qfloor (r * 100 + (1 # 2)) <= Qfloor (201 # 2))%Z)
        by (apply Qfloor_resp_le; lra).
      exact H.
  - rewrite Hr. unfold ChartjsPie.num, JS.toString.
    rewrite Qred_inject_Z. reflexivity.
Qed.


(** The positions that a test on positions selects are as many as the
    slices that the matching test on slices selects. *)
Lemma filter_positions {A} (p : nat -> bool) (q : A -> bool) (l : list A) :
  forall start,
    (forall n x, nth_error l n = Some x -> p (start + n)%nat = q x) ->
    List.length (filter p (seq start (List.length l)))
    = List.length (filter q l).
Proof.
  induction l as [|a rest IH]; intros start H; [reflexivity|].
  cbn [List.length seq filter].
  assert (Ha : p start = q a).
  { rewrite <- (H 0%nat a eq_refl). f_equal. lia. }
  assert (Hrest : List.length (filter p (seq (S start) (List.length rest)))
                  = List.length (filter q rest)).
  { apply IH. intros n x Hx. rewrite <- (H (S n) x Hx). f_equal. lia. }
  rewrite Ha. destruct (q a); cbn [List.length]; rewrite Hrest; reflexivity.
Qed.

Lemma filter_none {A} (q : A -> bool) (l : list A) :
  (forall x, In x l -> q x = false) -> filter q l = [].
Proof.
  induction l as [|a rest IH]; intro Hall; [reflexivity|].
  cbn [filter]. rewrite (Hall a (or_introl eq_refl)).
  apply IH. intros x Hin. apply Hall. right. exact Hin.
Qed.

Lemma filter_length_le {A} (q q' : A -> bool) (l : list A) :
  (forall x, q x = true -> q' x = true) ->
  (List.length (filter q l) <= List.length (filter q' l))%nat.
Proof.
  intro H. induction l as [|a rest IH]; [simpl; lia|].
  cbn [filter]. destruct (q a) eqn:E.
  - rewrite (H a E). cbn [List.length]. lia.
  - destruct (q' a); cbn [List.length]; lia.
Qed.

(** Slices of at least [c] each, among non-negative ones, together stay
    within the sum. *)
Lemma count_large_values (c : Q) (data : list Slice) :
  Forall (fun d => 0 <= value d) data -> 0 <= c ->
  inject_Z (Z.of_nat (List.length (filter (fun d => Qle_bool c (value d)) data))) * c
  <= fold_right Qplus 0 (map value data).
Proof.
  intros Hn Hc. induction Hn as [|d rest Hd Hrest IH].
  - cbn [filter map fold_right List.length Z.of_nat].
    rewrite Qmult_0_l. apply Qle_refl.
  - cbn [filter map fold_right].
    destruct (Qle_bool c (value d)) eqn:E.
    + apply Qle_bool_iff in E. cbn [List.length].
      rewrite Nat2Z.inj_succ. unfold Z.succ. rewrite inject_Z_plus.
      change (inject_Z 1) with 1. rewrite Qmult_plus_distr_l.
      set (m := inject_Z _ * c) in *. lra.
    + set (m := inject_Z _ * c) in *. lra.
Qed.

(** X6. Among slices with non-negative values at most twenty get an inline
    label, however many there are: a label needs a share of at least 5%. *)
Theorem at_most_twenty_inline_labels
    (es : list event) (s : State) (ch : Chart) :
  run constructed es = Normal s ->
  current_chart s = Some ch ->
  Forall (fun d => 0 <= value d) (data (inputs s)) ->
  (List.length (shown_positions ch (List.length (data (inputs s)))) <= 20)%nat.
Proof.
  intros Hr Hc Hn.
  destruct (current_chart_configured fraction_toString Math_random es s ch Hr Hc)
    as [_ [_ [_ [Hcfg _]]]].
  set (items := data (inputs s)) in *.
  set (total := total_value items).
  set (q := fun d : Slice =>
              showInlineLabels (inputs s)
              && JS.ge (percentage_of (value d) total) (JS.Fin 5)).
  unfold shown_positions.
  rewrite (filter_positions (is_shown ch) q items 0).
  2:{ intros n x Hx. unfold is_shown. cbn [Nat.add].
      rewrite (inline_label_shown_configured fraction_toString (inputs s) ch n x Hcfg Hx).
      fold items. fold total. unfold q.
      destruct (showInlineLabels (inputs s)
                && JS.ge (percentage_of (value x) total) (JS.Fin 5)); reflexivity. }
  pose proof (total_nonneg items Hn) as Ht. fold total in Ht.
  destruct (Qeq_dec total 0) as [Hz | Hnz].
  - (* every value is zero: no label at all *)
    assert (Hnone : filter q items = []).
    { apply filter_none. intros x Hin. unfold q.
      rewrite (percentage_of_zero_zero (value x) total Hz
                 (zero_total_zero_values items x Hn Hz Hin)).
      apply andb_false_r. }
    rewrite Hnone. simpl. lia.
  - assert (Hpos : 0 < total).
    { destruct (Qlt_le_dec 0 total) as [H|H]; [exact H|]. exfalso. apply Hnz. lra. }
    assert (Hle : (List.length (filter q items)
                   <= List.length (filter (fun d => Qle_bool (total * (5 # 100)) (value d))
                                     items))%nat).
    { apply filter_length_le. intros a Eq.
      unfold q in Eq. apply andb_true_iff in Eq. destruct Eq as [_ Eq].
      apply (share_at_least_5 (value a) total Hnz) in Eq.
      apply Qle_bool_iff.
      apply (Qmult_le_compat_r _ _ total) in Eq; [|lra].
      assert (Hd : value a / total * total == value a) by (field; exact Hnz).
      set (r := value a / total * total) in *. lra. }
    assert (Hc5 : 0 <= total * (5 # 100)) by lra.
    pose proof (count_large_values (total * (5 # 100)) items Hn Hc5) as Hcount.
    assert (Hsum : fold_right Qplus 0 (map value items) == total).
    { unfold total, total_value. rewrite total_value_from. lra. }
    set (k := List.length (filter (fun d => Qle_bool (total * (5 # 100)) (value d)) items))
      in *.
    assert (Hk : inject_Z (Z.of_nat k) <= 20).
    { apply (Qmult_le_r _ _ (total * (5 # 100))); [lra|].
      assert (H20 : 20 * (total * (5 # 100)) == total) by ring.
      lra. }
    assert (Hkz : (Z.of_nat k <= 20)%Z).
    { change 20 with (inject_Z 20) in Hk. rewrite Zle_Qle. exact Hk. }
    lia.
Qed.

End CanvasLabels.

(* ------------------------------------------------------------------ *)
(** ** What the canvas widget emits, and what it does after teardown *)

Section CanvasEvents.
Import ChartJs ChartjsPie.

Variable fraction_toString : Q -> string.
Variable Math_random : nat -> Q.

#[local] Abbreviation initChart := (initChart fraction_toString Math_random).
#[local] Abbreviation updateChart := (updateChart fraction_toString Math_random).
#[local] Abbreviation step := (step fraction_toString Math_random).
#[local] Abbreviation run := (run fraction_toString Math_random).
#[local] Abbreviation Inv := (Inv fraction_toString).

Lemma update_at_length {A} (l : list A) :
  forall (i : nat) (x : A), List.length (update_at i x l) = List.length l.
Proof.
  induction l as [|y rest IH]; intros [|i] x; simpl; try reflexivity.
  rewrite IH. reflexivity.
Qed.

Lemma initChart_keeps (s s' : State) :
  initChart s = Normal s' ->
  inputs s' = inputs s /\ segmentClick s' = segmentClick s.
Proof.
  intro H. destruct (chartContainer s) as [canvas|] eqn:Ec.
  - destruct (getContext_2d canvas) as [ctx|] eqn:Ex.
    + destruct (initChart_creates fraction_toString Math_random s canvas ctx Ec Ex)
        as [colors [n [_ Hi]]].
      rewrite Hi in H. injection H as <-. split; reflexivity.
    + rewrite (initChart_no_context fraction_toString Math_random s canvas Ec Ex) in H.
      injection H as <-. split; reflexivity.
  - rewrite (initChart_no_surface fraction_toString Math_random s Ec) in H.
    injection H as <-. split; reflexivity.
Qed.

Lemma canvas_ngOnDestroy_keeps (s s' : State) :
  ChartjsPie.ngOnDestroy s = Normal s' ->
  chart s' = None /\ inputs s' = inputs s /\ segmentClick s' = segmentClick s /\
  List.length (charts s') = List.length (charts s).
Proof.
  unfold ChartjsPie.ngOnDestroy. destruct (chart s) as [ref|] eqn:Ec.
  - cbn [truthy deref bind].
    destruct (nth_error (charts s) ref) as [ch|] eqn:En; cbn [deref bind];
      [|discriminate].
    intro H. injection H as <-. cbn.
    repeat split. apply update_at_length.
  - cbn [truthy]. intro H. injection H as <-.
    repeat split. exact Ec.
Qed.

(** What one step does to the inputs and to the emitted values. *)
Lemma step_effect (s s' : State) (e : event) :
  Inv s -> step s e = Normal s' ->
  inputs s' = inputs_after s e /\
  (segmentClick s' = segmentClick s \/
   exists i rest x,
     e = CanvasClick (i :: rest) /\
     nth_error (data (inputs s)) i = Some x /\
     chart s <> None /\ s' = emit x s).
Proof.
  intros HI H. unfold ChartjsPie.step in H. unfold inputs_after.
  destruct (component_destroyed s) eqn:Ed.
  { injection H as <-. split; [destruct e; reflexivity | left; reflexivity]. }
  destruct e as [i | canvas | | points | ].
  - destruct (chart s) as [ref|] eqn:Ec.
    + destruct (step_SetInputs_chart fraction_toString Math_random s ref i HI Ec)
        as [s2 [ch [ch' [_ [Hs [_ [_ [_ [_ [_ [_ [_ [Hin Hseg]]]]]]]]]]]]].
      unfold ChartjsPie.step in Hs. rewrite Ed in Hs. rewrite Hs in H.
      injection H as <-. split; [exact Hin | left; exact Hseg].
    + rewrite (updateChart_none fraction_toString Math_random (set_inputs i s) Ec) in H.
      injection H as <-. split; [reflexivity | left; reflexivity].
  - injection H as <-. split; [reflexivity | left; reflexivity].
  - destruct (render_pending s).
    + destruct (initChart_keeps _ _ H) as [Hin Hseg].
      split; [exact Hin | left; exact Hseg].
    + injection H as <-. split; [reflexivity | left; reflexivity].
  - destruct (click_subscribed s).
    + unfold on_canvas_click in H. destruct (chart s) as [ref|] eqn:Ec.
      * cbn [truthy negb] in H. destruct points as [|i rest].
        -- injection H as <-. split; [reflexivity | left; reflexivity].
        -- destruct (nth_error (data (inputs s)) i) as [x|] eqn:Ex;
             cbn [truthy deref bind] in H; injection H as <-.
           ++ split; [reflexivity|]. right. exists i, rest, x.
              repeat split; try reflexivity; try assumption. discriminate.
           ++ split; [reflexivity | left; reflexivity].
      * cbn [truthy negb] in H. injection H as <-.
        split; [reflexivity | left; reflexivity].
    + injection H as <-. split; [reflexivity | left; reflexivity].
  - destruct (ChartjsPie.ngOnDestroy s) as [s2|err] eqn:En; cbn [bind] in H;
      [|discriminate].
    injection H as <-.
    destruct (canvas_ngOnDestroy_keeps s s2 En) as [_ [Hin [Hseg _]]].
    split; [exact Hin | left; exact Hseg].
Qed.

(** X7. Only a click on the canvas emits, and only one value: a step of a
    reached state leaves [segmentClick] as it is, unless it is a click
    whose first hit is a position of the current data while the component
    holds a chart; then the slice at that position is appended.  A click
    that hits nothing, one whose first hit is outside the data, and one
    that comes while there is no chart emit nothing. *)
Theorem only_segment_clicks_emit
    (es : list event) (s s' : State) (e : event) :
  run constructed es = Normal s ->
  step s e = Normal s' ->
  (segmentClick s' = segmentClick s \/
   exists i rest x,
     e = CanvasClick (i :: rest) /\
     nth_error (data (inputs s)) i = Some x /\
     chart s <> None /\
     segmentClick s' = segmentClick s ++ [x]) /\
  (e = CanvasClick [] -> s' = s) /\
  (forall i rest,
      e = CanvasClick (i :: rest) ->
      chart s = None \/ nth_error (data (inputs s)) i = None -> s' = s).
Proof.
  intros Hr Hs.
  pose proof (run_reaches_Inv fraction_toString Math_random es s Hr) as HI.
  destruct (step_effect s s' e HI Hs) as [_ Hseg].
  split; [|split].
  - destruct Hseg as [Hseg | [i [rest [x [He [Hx [Hc Hs']]]]]]].
    + left. exact Hseg.
    + right. exists i, rest, x. rewrite Hs'. repeat split; assumption.
  - intro He. subst e. unfold ChartjsPie.step in Hs.
    destruct (component_destroyed s); [injection Hs as <-; reflexivity|].
    destruct (click_subscribed s); [|injection Hs as <-; reflexivity].
    unfold on_canvas_click in Hs.
    destruct (negb (truthy (chart s))); injection Hs as <-; reflexivity.
  - intros i rest He Hno. subst e. unfold ChartjsPie.step in Hs.
    destruct (component_destroyed s); [injection Hs as <-; reflexivity|].
    destruct (click_subscribed s); [|injection Hs as <-; reflexivity].
    unfold on_canvas_click in Hs.
    destruct Hno as [Hno | Hno]; rewrite Hno in Hs; cbn [truthy negb] in Hs.
    + injection Hs as <-. reflexivity.
    + destruct (negb (truthy (chart s))); injection Hs as <-; reflexivity.
Qed.

(** Where the inputs and the emitted values of a reached state come
    from. *)
Lemma run_provenance (es : list event) :
  forall s,
    run constructed es = Normal s ->
    (inputs s = default_inputs \/ In (SetInputs (inputs s)) es) /\
    Forall (fun x => exists i, In (SetInputs i) es /\ In x (data i))
      (segmentClick s).
Proof.
  induction es as [|e es IH] using rev_ind; intros s Hr.
  - injection Hr as <-. split; [left; reflexivity | constructor].
  - rewrite (run_app fraction_toString Math_random) in Hr.
    destruct (run constructed es) as [s1|err] eqn:E1; cbn [bind] in Hr;
      [|discriminate].
    cbn [ChartjsPie.run] in Hr.
    destruct (step s1 e) as [s2|err] eqn:E2; cbn [bind] in Hr; [|discriminate].
    injection Hr as <-.
    destruct (IH s1 eq_refl) as [Hin Hseg].
    pose proof (run_reaches_Inv fraction_toString Math_random es s1 E1) as HI.
    destruct (step_effect s1 s2 e HI E2) as [Hin2 Hseg2].
    assert (Hmono : Forall (fun x => exists i, In (SetInputs i) (es ++ [e])
                                               /\ In x (data i)) (segmentClick s1)).
    { apply (Forall_impl _ (P := fun x => exists i, In (SetInputs i) es
                                                    /\ In x (data i))); [|exact Hseg].
      intros x [i [Hi Hx]]. exists i. split; [|exact Hx].
      apply in_or_app. left. exact Hi. }
    split.
    + rewrite Hin2. unfold inputs_after.
      assert (Hkeep : inputs s1 = default_inputs
                      \/ In (SetInputs (inputs s1)) (es ++ [e])).
      { destruct Hin as [Hin | Hin]; [left; exact Hin|].
        right. apply in_or_app. left. exact Hin. }
      destruct e as [i | canvas | | points | ]; try exact Hkeep.
      destruct (component_destroyed s1); [exact Hkeep|].
      right. apply in_or_app. right. left. reflexivity.
    + destruct Hseg2 as [Hsame | [i [rest [x [He [Hx [_ Hs2]]]]]]].
      * rewrite Hsame. exact Hmono.
      * rewrite Hs2. cbn [segmentClick emit].
        apply Forall_app. split; [exact Hmono|].
        constructor; [|constructor].
        destruct Hin as [Hin | Hin].
        -- rewrite Hin in Hx. destruct i; discriminate.
        -- exists (inputs s1). split.
           ++ apply in_or_app. left. exact Hin.
           ++ apply (nth_error_In _ _ Hx).
Qed.

(** X8. Whatever the host, the framework and the user do, every value
    that the canvas widget has emitted is a slice of some [data] that the
    host has set; with the initial, empty data nothing is emitted. *)
Theorem emitted_slices_come_from_inputs (es : list event) (s : State) :
  run constructed es = Normal s ->
  Forall (fun x => exists i, In (SetInputs i) es /\ In x (data i))
    (segmentClick s) /\
  ((forall i, ~ In (SetInputs i) es) -> segmentClick s = []).
Proof.
  intro Hr. destruct (run_provenance es s Hr) as [_ Hseg].
  split; [exact Hseg|].
  intro Hnone. destruct (segmentClick s) as [|x rest]; [reflexivity|].
  inversion Hseg as [|? ? [i [Hi _]] _]. destruct (Hnone i Hi).
Qed.

(** X9. After [ngOnDestroy] the component holds no chart, and what may
    still run finds nothing to do: a second [ngOnDestroy], [updateChart]
    and the click handler return with the state unchanged; the teardown
    itself creates no instance and leaves inputs and emitted values as
    they are. *)
Theorem nothing_runs_on_a_destroyed_chart (s s' : State) :
  ChartjsPie.ngOnDestroy s = Normal s' ->
  chart s' = None /\
  ChartjsPie.ngOnDestroy s' = Normal s' /\
  updateChart s' = Normal s' /\
  (forall points, on_canvas_click points s' = Normal s') /\
  inputs s' = inputs s /\ segmentClick s' = segmentClick s /\
  List.length (charts s') = List.length (charts s).
Proof.
  intro H. destruct (canvas_ngOnDestroy_keeps s s' H) as [Hc [Hin [Hseg Hlen]]].
  split; [exact Hc|].
  split; [exact (canvas_ngOnDestroy_none s' Hc)|].
  split; [exact (updateChart_none fraction_toString Math_random s' Hc)|].
  split.
  - intro points. unfold on_canvas_click. rewrite Hc. reflexivity.
  - repeat split; assumption.
Qed.

End CanvasEvents.

(* ------------------------------------------------------------------ *)
(** ** The form of a random colour *)

Section RandomColour.
Import ChartjsPie.

Variable Math_random : nat -> Q.

#[local] Abbreviation getRandomColor := (getRandomColor Math_random).

Lemma string_of_uint_length (d : Hexadecimal.uint) :
  String.length (HexadecimalString.NilEmpty.string_of_uint d)
  = Hexadecimal.nb_digits d.
Proof. induction d; simpl; congruence. Qed.

Lemma little_digit (l : Hexadecimal.uint) (r : nat) :
  (r < 16)%nat ->
  Hexadecimal.nb_digits (Nat.iter r Hexadecimal.Little.succ (Hexadecimal.D0 l))
  = S (Hexadecimal.nb_digits l).
Proof.
  intro H.
  do 16 (destruct r as [|r]; [reflexivity|]). lia.
Qed.

Lemma to_lu_iter (n : N) (r : nat) :
  HexadecimalPos.Unsigned.to_lu (N.of_nat r + n)
  = Nat.iter r Hexadecimal.Little.succ (HexadecimalPos.Unsigned.to_lu n).
Proof.
  induction r as [|r IH].
  - reflexivity.
  - rewrite Nnat.Nat2N.inj_succ, N.add_succ_l, HexadecimalPos.Unsigned.to_lu_succ, IH.
    reflexivity.
Qed.

Lemma to_lu_digits (k : nat) :
  forall n : N,
    (n < 16 ^ N.of_nat (S k))%N ->
    (1 <= Hexadecimal.nb_digits (HexadecimalPos.Unsigned.to_lu n) <= S k)%nat.
Proof.
  induction k as [|k IH]; intros n Hn.
  - change (16 ^ N.of_nat 1)%N with 16%N in Hn.
    destruct n as [|p]; [simpl; lia|].
    do 4 (destruct p as [p|p|]; try (simpl; lia); try lia).
  - destruct (N.eq_dec (n / 16) 0) as [Hq | Hq].
    + apply N.div_small_iff in Hq; [|discriminate].
      assert (H1 : (n < 16 ^ N.of_nat 1)%N) by exact Hq.
      destruct n as [|p]; [simpl; lia|].
      do 4 (destruct p as [p|p|]; try (simpl; lia); try lia).
    + pose proof (N.div_mod n 16 ltac:(discriminate)) as Hdm.
      pose proof (N.mod_lt n 16 ltac:(discriminate)) as Hr.
      assert (Hlt : (n / 16 < 16 ^ N.of_nat (S k))%N).
      { apply N.Div0.div_lt_upper_bound.
        rewrite <- N.pow_succ_r'. rewrite <- Nnat.Nat2N.inj_succ. exact Hn. }
      specialize (IH (n / 16)%N Hlt).
      destruct (n / 16)%N as [|p] eqn:Ep; [contradiction|].
      rewrite Hdm, N.add_comm.
      rewrite <- (Nnat.N2Nat.id (n mod 16)).
      rewrite to_lu_iter, HexadecimalPos.Unsigned.to_lhex_tenfold.
      rewrite little_digit; [lia|].
      lia.
Qed.

Lemma toString16_length (n : N) :
  (n < 16 ^ 6)%N -> (1 <= String.length (JS.toString16 n) <= 6)%nat.
Proof.
  intro Hn. unfold JS.toString16.
  destruct n as [|p]; [simpl; lia|].
  pose proof (to_lu_digits 5 (N.pos p) Hn) as H.
  cbn [N.to_hex_uint].
  assert (Hd : Hexadecimal.nb_digits (Pos.to_hex_uint p)
               = Hexadecimal.nb_digits (HexadecimalPos.Unsigned.to_lu (N.pos p))).
  { unfold Pos.to_hex_uint. rewrite HexadecimalFacts.nb_digits_rev. reflexivity. }
  unfold HexadecimalString.NilZero.string_of_uint.
  destruct (Pos.to_hex_uint p) eqn:E;
    try (rewrite string_of_uint_length, Hd; exact H).
  simpl. lia.
Qed.

Lemma string_length_append (s1 s2 : string) :
  String.length (s1 ++ s2) = (String.length s1 + String.length s2)%nat.
Proof. induction s1 as [|c s1 IH]; simpl; [reflexivity | rewrite IH; reflexivity]. Qed.

Lemma zeros_length (k : nat) :
  String.length (String.concat EmptyString (repeat "0" k)) = k.
Proof.
  induction k as [|k IH]; [reflexivity|].
  cbn [repeat String.concat]. destruct k as [|k]; [reflexivity|].
  cbn [repeat] in *. rewrite !string_length_append. cbn [String.length].
  rewrite IH. reflexivity.
Qed.

Lemma padStart0_length (len : nat) (s : string) :
  (String.length s <= len)%nat -> String.length (JS.padStart0 len s) = len.
Proof.
  intro H. unfold JS.padStart0.
  rewrite string_length_append, zeros_length. lia.
Qed.

Lemma random_floor_bounds (r : Q) :
  0 <= r -> r < 1 ->
  (0 <= Qfloor (r * 16777215) < 16777215)%Z.
Proof.
  intros H0 H1. split.
  - assert (H : (Qfloor 0 <= Qfloor (r * 16777215))%Z)
      by (apply Qfloor_resp_le; lra).
    exact H.
  - pose proof (Qfloor_le (r * 16777215)) as Hf.
    assert (Hq : inject_Z (Qfloor (r * 16777215)) < inject_Z 16777215).
    { change (inject_Z 16777215) with 16777215. lra. }
    rewrite <- Zlt_Qlt in Hq. exact Hq.
Qed.

Lemma padStart0_full (len : nat) (s : string) :
  String.length s = len -> JS.padStart0 len s = s.
Proof.
  intro H. unfold JS.padStart0. rewrite H, Nat.sub_diag. reflexivity.
Qed.

Lemma padStart0_short (len : nat) (s : string) :
  (String.length s < len)%nat ->
  exists rest, JS.padStart0 len s = String "0"%char rest.
Proof.
  intro H. unfold JS.padStart0.
  destruct (len - String.length s)%nat as [|k] eqn:E; [lia|].
  cbn [repeat String.concat]. destruct (repeat "0" k) as [|z zs].
  - eexists. reflexivity.
  - eexists. reflexivity.
Qed.

Lemma toString16_inj (n n' : N) : JS.toString16 n = JS.toString16 n' -> n = n'.
Proof.
  unfold JS.toString16. intro H.
  apply HexadecimalN.Unsigned.to_uint_inj.
  assert (Hs : forall m, HexadecimalString.NilZero.uint_of_string
                           (HexadecimalString.NilZero.string_of_uint (N.to_hex_uint m))
                         = Some (N.to_hex_uint m)).
  { intro m. apply HexadecimalString.NilZero.usu.
    destruct m as [|p]; [discriminate|].
    apply HexadecimalPos.Unsigned.to_uint_nonnil. }
  pose proof (Hs n) as Hn. rewrite H, (Hs n') in Hn. congruence.
Qed.

(** X10. When [Math.random()] gives a number from 0 up to, but not
    including, 1, [getRandomColor] returns a number sign followed by
    exactly six characters, the hexadecimal digits of an integer below
    16777215 padded with zeros on the left; the colour "#ffffff" is never
    drawn.  The call is counted. *)
Theorem random_colour_is_six_hex_digits (s : State) :
  0 <= Math_random (random_calls s) -> Math_random (random_calls s) < 1 ->
  exists n : N,
    (n < 16777215)%N /\
    fst (getRandomColor s) = String "#"%char (JS.padStart0 6 (JS.toString16 n)) /\
    String.length (fst (getRandomColor s)) = 7%nat /\
    fst (getRandomColor s) <> "#ffffff" /\
    random_calls (snd (getRandomColor s)) = S (random_calls s).
Proof.
  intros H0 H1.
  destruct (random_floor_bounds (Math_random (random_calls s)) H0 H1) as [Hlo Hhi].
  unfold ChartjsPie.getRandomColor. cbn [fst snd].
  set (n := Z.to_N (Qfloor (Math_random (random_calls s) * 16777215))).
  assert (Hn : (n < 16777215)%N) by (unfold n; lia).
  assert (Hlen : (1 <= String.length (JS.toString16 n) <= 6)%nat).
  { apply toString16_length. change (16 ^ 6)%N with 16777216%N. lia. }
  exists n. split; [exact Hn|]. split; [reflexivity|].
  split; [|split].
  - cbn [append String.length]. rewrite padStart0_length; lia.
  - cbn [append]. intro Hw. injection Hw as Hw.
    destruct (Nat.eq_dec (String.length (JS.toString16 n)) 6) as [H6 | H6].
    + rewrite (padStart0_full 6 _ H6) in Hw.
      assert (Hmax : n = 16777215%N) by (apply toString16_inj; rewrite Hw; reflexivity).
      lia.
    + destruct (padStart0_short 6 (JS.toString16 n)) as [rest Hrest]; [lia|].
      rewrite Hrest in Hw. discriminate.
  - reflexivity.
Qed.

End RandomColour.

(* ------------------------------------------------------------------ *)
(** ** The pie layout for values of any sign *)

Section PieAnyValues.
Import D3.

Lemma positive_part_nonneg_any (v : Q) : 0 <= positive_part v.
Proof.
  unfold positive_part. destruct (Qlt_bool 0 v) eqn:E.
  - apply Qlt_bool_iff in E. apply Qlt_le_weak. exact E.
  - apply Qle_refl.
Qed.

Lemma positive_part_pos (v : Q) : 0 < v -> positive_part v = v.
Proof.
  intro H. unfold positive_part. apply Qlt_bool_iff in H. rewrite H. reflexivity.
Qed.

Lemma positive_part_nonpos (v : Q) : v <= 0 -> positive_part v = 0.
Proof.
  intro H. unfold positive_part. apply Qlt_bool_false_iff in H. rewrite H.
  reflexivity.
Qed.

Lemma positive_total_nonneg_any (data : list Slice) : 0 <= positive_total data.
Proof.
  unfold positive_total. induction data as [|d rest IH]; simpl; [apply Qle_refl|].
  pose proof (positive_part_nonneg_any (value d)). lra.
Qed.

Lemma tau_pos : 0 < tau.
Proof. reflexivity. Qed.

Lemma pie_k_nonneg (data : list Slice) : 0 <= pie_k data.
Proof.
  destruct (Qeq_dec (pie_sum data) 0) as [Hz | Hnz].
  - rewrite (pie_k_zero data Hz). apply Qle_refl.
  - rewrite (pie_k_nonzero data Hnz).
    pose proof (positive_total_nonneg_any data) as Hp.
    rewrite <- pie_sum_positive_total in Hp.
    assert (Hpos : 0 < pie_sum data).
    { destruct (Qlt_le_dec 0 (pie_sum data)) as [H|H]; [exact H|].
      exfalso. apply Hnz. lra. }
    apply Qle_shift_div_l; [exact Hpos|]. pose proof tau_pos. lra.
Qed.

Lemma pie_spans_total (data : list Slice) :
  (pie_sum data == 0 -> spans_sum (pie data) == 0) /\
  (~ pie_sum data == 0 -> spans_sum (pie data) == tau).
Proof.
  split; intro H.
  - rewrite pie_spans_sum, H. ring.
  - rewrite pie_spans_sum, (pie_k_nonzero data H). field. exact H.
Qed.

Lemma spans_sum_perm (l l' : list PieArcDatum) :
  Permutation l l' -> spans_sum l == spans_sum l'.
Proof.
  unfold spans_sum. intro H. induction H; simpl.
  - reflexivity.
  - rewrite IHPermutation. reflexivity.
  - ring.
  - rewrite IHPermutation1. exact IHPermutation2.
Qed.

(** In a chain of arcs with spans that are not negative, every arc lies
    between the start of the chain and its end. *)
Lemma chained_within (arcs : list PieArcDatum) :
  forall a0,
    chained a0 arcs ->
    Forall (fun a => 0 <= span a) arcs ->
    Forall (fun a => a0 <= startAngle a /\ startAngle a <= endAngle a /\
                     endAngle a <= a0 + spans_sum arcs) arcs.
Proof.
  induction arcs as [|a rest IH]; intros a0 Hc Hs; [constructor|].
  destruct Hc as [Hstart Hc]. inversion Hs as [|? ? Ha Hrest]; subst.
  specialize (IH (endAngle a) Hc Hrest).
  assert (Hsum : 0 <= spans_sum rest).
  { clear - Hrest. unfold spans_sum. induction Hrest; simpl; [apply Qle_refl | lra]. }
  unfold spans_sum in *. cbn [map fold_right]. unfold span in *.
  constructor.
  - lra.
  - apply (Forall_impl _ (P := fun b => endAngle a <= startAngle b /\
                                        startAngle b <= endAngle b /\
                                        endAngle b <= endAngle a
                                          + fold_right Qplus 0
                                              (map (fun a1 => endAngle a1 - startAngle a1)
                                                 rest)));
      [|exact IH].
    intros b [H1 [H2 H3]]. lra.
Qed.


End PieAnyValues.

(* ------------------------------------------------------------------ *)
(** ** The surface of the SVG widget over a run *)

Section SvgRuns.
Import D3 D3Pie.

Variable fraction_toString : Q -> string.
Variable arc_path : Q -> Q -> PieArcDatum -> string.
Variable arc_centroid : Q -> Q -> PieArcDatum -> string.

#[local] Abbreviation drawChart := (drawChart fraction_toString arc_path arc_centroid).
#[local] Abbreviation drawn := (drawn fraction_toString arc_path arc_centroid).
#[local] Abbreviation arc_group := (arc_group arc_path arc_centroid).
#[local] Abbreviation path_element := (path_element arc_path).
#[local] Abbreviation text_element := (text_element arc_centroid).
#[local] Abbreviation step := (step fraction_toString arc_path arc_centroid).
#[local] Abbreviation groups_of := (groups_of arc_path arc_centroid).
#[local] Abbreviation svg_run := (svg_run fraction_toString arc_path arc_centroid).
#[local] Abbreviation shows_inputs :=
  (shows_inputs fraction_toString arc_path arc_centroid).

Lemma remove_all_children (e : Element) : children (remove_all e) = [].
Proof. destruct e. reflexivity. Qed.

Lemma remove_all_leaf (e : Element) : children e = [] -> remove_all e = e.
Proof. destruct e. simpl. intro H. rewrite H. reflexivity. Qed.

Lemma click_keeps (t : Element) (c : D3PieComponent) :
  data (click t c) = data c /\ width (click t c) = width c /\
  height (click t c) = height c /\ chartContainer (click t c) = chartContainer c.
Proof.
  unfold click. destruct (get_listener "click" t) as [[ | | | | | ]|];
    destruct (datum t); repeat split.
Qed.

Lemma drawChart_shows (c c' : D3PieComponent) :
  drawChart c = Normal c' -> shows_inputs c'.
Proof.
  intro H. unfold MoreSpec.shows_inputs.
  destruct (chartContainer c) as [svg|] eqn:Ec.
  - rewrite (drawChart_mounted fraction_toString arc_path arc_centroid c svg Ec) in H.
    injection H as <-. cbn [chartContainer set_chartContainer data width height].
    exists (remove_all svg). split; [apply remove_all_children | reflexivity].
  - rewrite (drawChart_unmounted fraction_toString arc_path arc_centroid c Ec) in H.
    injection H as <-. rewrite Ec. exact I.
Qed.

Lemma step_shows (c c' : D3PieComponent) (e : event) :
  e <> Destroy -> shows_inputs c -> step c e = Normal c' -> shows_inputs c'.
Proof.
  intros He Hc H. destruct e as [d | w | h | svg | t | ]; cbn [D3Pie.step] in H;
    try exact (drawChart_shows _ _ H).
  - injection H as <-. unfold MoreSpec.shows_inputs in *.
    destruct (click_keeps t c) as [Hd [Hw [Hh Hcc]]].
    rewrite Hcc, Hd, Hw, Hh. exact Hc.
  - contradiction.
Qed.

Lemma svg_run_shows (es : list event) :
  forall c c',
    ~ In Destroy es -> shows_inputs c -> svg_run c es = Normal c' ->
    shows_inputs c'.
Proof.
  induction es as [|e rest IH]; intros c c' Hno Hc H.
  - injection H as <-. exact Hc.
  - cbn [MoreSpec.svg_run] in H.
    destruct (step c e) as [c1|err] eqn:E1; cbn [bind] in H; [|discriminate].
    apply (IH c1 c').
    + intro Hin. apply Hno. right. exact Hin.
    + apply (step_shows c c1 e); [|exact Hc | exact E1].
      intro He. apply Hno. left. exact He.
    + exact H.
Qed.

(** A surface that is a draw of the inputs is what [drawChart] gives. *)
Lemma shows_inputs_drawn (c : D3PieComponent) (svg : Element) :
  shows_inputs c -> chartContainer c = Some svg -> drawChart c = Normal c.
Proof.
  intros Hs Hc. unfold MoreSpec.shows_inputs in Hs. rewrite Hc in Hs.
  destruct Hs as [base [Hb Hsvg]].
  rewrite (drawChart_mounted fraction_toString arc_path arc_centroid c svg Hc).
  rewrite Hsvg at 1.
  rewrite (remove_all_drawn fraction_toString arc_path arc_centroid),
    (remove_all_leaf base Hb), <- Hsvg.
  destruct c. cbn in *. rewrite Hc. reflexivity.
Qed.

Lemma fill_in_group outer df : fill_in (arc_group outer df) = snd df.
Proof.
  unfold fill_in. rewrite (path_of_group arc_path arc_centroid).
  apply fill_of_path.
Qed.

Lemma label_in_group outer df :
  label_in (arc_group outer df) = Some (label (arc_data (fst df))).
Proof.
  unfold label_in. rewrite (label_of_group arc_path arc_centroid).
  apply text_of_label.
Qed.

(** The fills and the label texts of the arc groups of a draw. *)
Lemma groups_of_fills data width height :
  map fill_in (groups_of data width height)
  = fills (scaleOrdinal schemeCategory10) 0 (pie data).
Proof.
  unfold D3PieSpec.groups_of. rewrite map_map.
  rewrite (map_ext _ snd (fun df => fill_in_group _ df)).
  apply map_snd_combine. symmetry. apply fills_length.
Qed.

Lemma groups_of_labels data width height :
  map label_in (groups_of data width height)
  = map (fun x => Some (label x)) data.
Proof.
  unfold D3PieSpec.groups_of. rewrite map_map.
  rewrite (map_ext _ (fun df => Some (label (arc_data (fst df))))
             (fun df => label_in_group _ df)).
  rewrite <- (map_map fst (fun a => Some (label (arc_data a)))).
  rewrite map_fst_combine; [|symmetry; apply fills_length].
  rewrite <- (map_map arc_data (fun x => Some (label x))).
  rewrite pie_arc_data. reflexivity.
Qed.

(** X12. Over any sequence of input changes, mounts and clicks, in any
    order, a mounted SVG widget shows the current data: one segment per
    slice, in sequence order, bound to the arcs of [pie(data)], each label
    the slice's label and each fill the slice's own colour or the palette
    colour at its rank among the slices without one. *)
Theorem svg_surface_tracks_inputs
    (es : list event) (c : D3PieComponent) (svg : Element) :
  svg_run initial es = Normal c ->
  ~ In Destroy es ->
  chartContainer c = Some svg ->
  List.length (segments c) = List.length (data c) /\
  map datum (segments c) = map Some (pie (data c)) /\
  map label_in (segments c) = map (fun x => Some (label x)) (data c) /\
  (forall i x,
      nth_error (data c) i = Some x ->
      exists grp,
        nth_error (segments c) i = Some grp /\
        fill_in grp = fill_by_rank (data c) i x /\
        label_in grp = Some (label x)).
Proof.
  intros Hr Hno Hc.
  assert (Hs : shows_inputs c).
  { apply (svg_run_shows es initial c Hno); [exact I | exact Hr]. }
  pose proof (shows_inputs_drawn c svg Hs Hc) as Hd.
  destruct (drawChart_segments fraction_toString arc_path arc_centroid c svg Hc)
    as [c' [Hd' [Hseg _]]].
  rewrite Hd in Hd'. injection Hd' as <-.
  rewrite Hseg.
  split; [apply groups_of_length|].
  split; [apply groups_of_datum|].
  split; [apply groups_of_labels|].
  intros i x Hx.
  destruct (groups_of_nth arc_path arc_centroid (data c) (width c) (height c) i x Hx)
    as [a [fill [Ha [_ [Hf Hg]]]]].
  eexists. split; [exact Hg|].
  rewrite fill_in_group, label_in_group. cbn [fst snd]. rewrite Ha.
  split; [|reflexivity].
  rewrite (fills_nth (data c) i x Hx) in Hf. injection Hf as <-. reflexivity.
Qed.

(** X13. A resize draws the same slices again: after a change of [width]
    or [height] the segments are bound to the same arcs and have the same
    fills and label texts as before, and nothing is emitted. *)
Theorem resize_keeps_slices_and_colours
    (c c1 : D3PieComponent) (svg : Element) (e : event) :
  chartContainer c = Some svg ->
  drawChart c = Normal c1 ->
  (exists w, e = SetWidth w) \/ (exists h, e = SetHeight h) ->
  exists c2,
    step c1 e = Normal c2 /\
    map datum (segments c2) = map datum (segments c1) /\
    map fill_in (segments c2) = map fill_in (segments c1) /\
    map label_in (segments c2) = map label_in (segments c1) /\
    data c2 = data c1 /\ arcClick c2 = arcClick c1.
Proof.
  intros Hc Hd He.
  destruct (drawChart_segments fraction_toString arc_path arc_centroid c svg Hc)
    as [c1' [Hd' [Hseg1 [Hdata1 _]]]].
  rewrite Hd in Hd'. injection Hd' as <-.
  assert (Hc1 : exists svg1, chartContainer c1 = Some svg1).
  { rewrite (drawChart_mounted fraction_toString arc_path arc_centroid c svg Hc) in Hd.
    injection Hd as <-. eexists. reflexivity. }
  destruct Hc1 as [svg1 Hc1].
  assert (Hgen : forall c0, chartContainer c0 = Some svg1 -> data c0 = data c1 ->
                            arcClick c0 = arcClick c1 ->
                 exists c2, drawChart c0 = Normal c2 /\
                   map datum (segments c2) = map datum (segments c1) /\
                   map fill_in (segments c2) = map fill_in (segments c1) /\
                   map label_in (segments c2) = map label_in (segments c1) /\
                   data c2 = data c1 /\ arcClick c2 = arcClick c1).
  { intros c0 Hc0 Hdata0 Hclick0.
    destruct (drawChart_segments fraction_toString arc_path arc_centroid c0 svg1 Hc0)
      as [c2 [Hd2 [Hseg2 [Hdata2 [_ [_ Hclick2]]]]]].
    exists c2. split; [exact Hd2|].
    rewrite Hseg2, Hseg1, Hdata0, Hdata1.
    rewrite !groups_of_datum, !groups_of_fills, !groups_of_labels.
    repeat split; congruence. }
  destruct He as [[w ->] | [h ->]]; cbn [D3Pie.step].
  - apply Hgen; [exact Hc1 | reflexivity | reflexivity].
  - apply Hgen; [exact Hc1 | reflexivity | reflexivity].
Qed.

End SvgRuns.

(* ------------------------------------------------------------------ *)
(** ** Clicks and hovering on the SVG widget *)

Section SvgPointer.
Import D3 D3Pie D3PieHover.

Variable fraction_toString : Q -> string.
Variable arc_path : Q -> Q -> PieArcDatum -> string.
Variable arc_centroid : Q -> Q -> PieArcDatum -> string.

#[local] Abbreviation drawChart := (drawChart fraction_toString arc_path arc_centroid).
#[local] Abbreviation drawn := (drawn fraction_toString arc_path arc_centroid).
#[local] Abbreviation arc_group := (arc_group arc_path arc_centroid).
#[local] Abbreviation path_element := (path_element arc_path).
#[local] Abbreviation text_element := (text_element arc_centroid).
#[local] Abbreviation groups_of := (groups_of arc_path arc_centroid).
#[local] Abbreviation px := (px fraction_toString).
#[local] Abbreviation move_tooltip := (move_tooltip fraction_toString).
#[local] Abbreviation show_tooltip := (show_tooltip fraction_toString).
#[local] Abbreviation mouseover_path := (mouseover_path fraction_toString).
#[local] Abbreviation mouseover_label := (mouseover_label fraction_toString).

(** *** The elements of a drawn surface *)

Lemma append_all_tag (groups : list Element) (g : Element) :
  tag (fold_left (fun parent child => append child parent) groups g) = tag g.
Proof.
  revert g. induction groups as [|x rest IH]; intro g; [reflexivity|].
  cbn [fold_left]. rewrite IH. destruct g. reflexivity.
Qed.

Lemma append_all_listeners (groups : list Element) (g : Element) :
  listeners (fold_left (fun parent child => append child parent) groups g)
  = listeners g.
Proof.
  revert g. induction groups as [|x rest IH]; intro g; [reflexivity|].
  cbn [fold_left]. rewrite IH. destruct g. reflexivity.
Qed.

Lemma drawn_descendants (base : Element) data width height (t : Element) :
  children base = [] ->
  In t (descendants (drawn base data width height)) ->
  (tag t = "g" /\ listeners t = []) \/
  exists df,
    In df (combine (pie data) (fills (scaleOrdinal schemeCategory10) 0 (pie data))) /\
    (t = path_element (JS.Qmin width height / 2 - 10) (fst df) (snd df) \/
     t = text_element (JS.Qmin width height / 2 - 10) (fst df)).
Proof.
  intros Hb Hin. unfold D3Pie.drawn in Hin.
  set (outer := JS.Qmin width height / 2 - 10) in *.
  set (dfs := combine (pie data) (fills (scaleOrdinal schemeCategory10) 0 (pie data))) in *.
  set (g0 := attr "transform" _ (create "g" None)) in Hin.
  set (G := fold_left (fun parent child => append child parent)
              (map (arc_group outer) dfs) g0) in Hin.
  rewrite descendants_eq in Hin.
  assert (Hch : children (append G base) = [G]).
  { destruct base. simpl in Hb. subst. reflexivity. }
  rewrite Hch in Hin. cbn [flat_map] in Hin. rewrite app_nil_r in Hin.
  destruct Hin as [<- | Hin].
  { left. unfold G. rewrite append_all_tag, append_all_listeners. split; reflexivity. }
  rewrite descendants_eq in Hin. unfold G in Hin.
  rewrite append_all_children in Hin. cbn [children g0 attr create app] in Hin.
  apply in_flat_map in Hin. destruct Hin as [grp [Hgrp Hin]].
  apply in_map_iff in Hgrp. destruct Hgrp as [df [<- Hdf]].
  destruct Hin as [<- | Hin].
  { left. split; reflexivity. }
  rewrite descendants_eq, (arc_group_children arc_path arc_centroid) in Hin.
  cbn [flat_map] in Hin.
  rewrite (path_element_leaf arc_path), (text_element_leaf arc_centroid) in Hin.
  cbn [app] in Hin.
  right. exists df. split; [exact Hdf|].
  destruct Hin as [<- | [<- | []]]; [left | right]; reflexivity.
Qed.

Lemma click_without_listener (t : Element) (c : D3PieComponent) :
  listeners t = [] -> click t c = c.
Proof.
  intro H. unfold click, get_listener. rewrite H. reflexivity.
Qed.

(** X14. A click on any element of a drawn surface emits at most one
    value, and only a slice of the current data: the paths and the labels
    emit the slice of their segment, the groups emit nothing. *)
Theorem svg_click_emits_a_slice_or_nothing
    (c c' : D3PieComponent) (svg' t : Element) :
  drawChart c = Normal c' ->
  chartContainer c' = Some svg' ->
  In t (descendants svg') ->
  (tag t = "g" /\ click t c' = c') \/
  (exists a,
      In a (pie (data c')) /\ In (arc_data a) (data c') /\
      datum t = Some a /\ (tag t = "path" \/ tag t = "text") /\
      click t c' = emit (arc_data a) c').
Proof.
  intros Hd Hc' Hin.
  destruct (chartContainer c) as [svg|] eqn:Ec.
  2:{ rewrite (drawChart_unmounted fraction_toString arc_path arc_centroid c Ec) in Hd.
      injection Hd as <-. rewrite Ec in Hc'. discriminate. }
  rewrite (drawChart_mounted fraction_toString arc_path arc_centroid c svg Ec) in Hd.
  injection Hd as <-. cbn [chartContainer set_chartContainer] in Hc'.
  injection Hc' as <-. cbn [data set_chartContainer].
  assert (Hb : children (remove_all svg) = []) by (destruct svg; reflexivity).
  destruct (drawn_descendants _ _ _ _ t Hb Hin) as [[Ht Hl] | [df [Hdf Ht]]].
  - left. split; [exact Ht | apply click_without_listener; exact Hl].
  - right. exists (fst df).
    assert (Ha : In (fst df) (pie (data c))).
    { destruct df as [a f]. exact (in_combine_l _ _ _ _ Hdf). }
    split; [exact Ha|].
    split.
    { rewrite <- (pie_arc_data (data c)). apply in_map. exact Ha. }
    destruct Ht as [-> | ->].
    + split; [reflexivity|]. split; [left; reflexivity|].
      apply (click_path arc_path).
    + split; [reflexivity|]. split; [right; reflexivity|].
      apply (click_label arc_centroid).
Qed.

(** *** Attributes and styles read back *)

Lemma find_key_app (k : string) (l l' : list (string * string)) :
  find (fun kv => String.eqb (fst kv) k) (l ++ l')
  = match find (fun kv => String.eqb (fst kv) k) l with
    | Some x => Some x
    | None => find (fun kv => String.eqb (fst kv) k) l'
    end.
Proof.
  induction l as [|x rest IH]; [reflexivity|].
  simpl. destruct (String.eqb (fst x) k); [reflexivity | exact IH].
Qed.

Lemma find_remove_key_same (k : string) (l : list (string * string)) :
  find (fun kv => String.eqb (fst kv) k) (remove_key k l) = None.
Proof.
  unfold remove_key. induction l as [|x rest IH]; [reflexivity|].
  simpl. destruct (String.eqb (fst x) k) eqn:E; simpl; [exact IH|].
  rewrite E. exact IH.
Qed.

Lemma find_remove_key_other (k k' : string) (l : list (string * string)) :
  k <> k' ->
  find (fun kv => String.eqb (fst kv) k) (remove_key k' l)
  = find (fun kv => String.eqb (fst kv) k) l.
Proof.
  intro Hne. unfold remove_key. induction l as [|x rest IH]; [reflexivity|].
  simpl. destruct (String.eqb (fst x) k') eqn:E'; simpl.
  - apply String.eqb_eq in E'.
    destruct (String.eqb (fst x) k) eqn:E; [|exact IH].
    apply String.eqb_eq in E. congruence.
  - destruct (String.eqb (fst x) k); [reflexivity | exact IH].
Qed.

Lemma get_attr_same (k : string) (v : option string) (e : Element) :
  get_attr k (attr k v e) = v.
Proof.
  destruct e. unfold get_attr, attr. cbn [attrs]. destruct v as [s|].
  - rewrite find_key_app, find_remove_key_same. simpl.
    rewrite String.eqb_refl. reflexivity.
  - rewrite find_remove_key_same. reflexivity.
Qed.

Lemma get_attr_other (k k' : string) (v : option string) (e : Element) :
  k <> k' -> get_attr k (attr k' v e) = get_attr k e.
Proof.
  intro Hne. destruct e. unfold get_attr, attr. cbn [attrs]. destruct v as [s|].
  - rewrite find_key_app, (find_remove_key_other k k' _ Hne). simpl.
    assert (E : String.eqb k' k = false).
    { apply String.eqb_neq. congruence. }
    rewrite E. destruct (find _ _); reflexivity.
  - rewrite (find_remove_key_other k k' _ Hne). reflexivity.
Qed.

Lemma get_style_same (k v : string) (e : Element) :
  get_style k (style k v e) = Some v.
Proof.
  destruct e. unfold get_style, style. cbn [styles].
  rewrite find_key_app, find_remove_key_same. simpl.
  rewrite String.eqb_refl. reflexivity.
Qed.

Lemma get_style_other (k k' v : string) (e : Element) :
  k <> k' -> get_style k (style k' v e) = get_style k e.
Proof.
  intro Hne. destruct e. unfold get_style, style. cbn [styles].
  rewrite find_key_app, (find_remove_key_other k k' _ Hne). simpl.
  assert (E : String.eqb k' k = false).
  { apply String.eqb_neq. congruence. }
  rewrite E. destruct (find _ _); reflexivity.
Qed.

Lemma get_style_set_text (k s : string) (e : Element) :
  get_style k (set_text s e) = get_style k e.
Proof. destruct e. reflexivity. Qed.

Lemma text_style (k v : string) (e : Element) : text (style k v e) = text e.
Proof. destruct e. reflexivity. Qed.

Lemma text_set_text (s : string) (e : Element) : text (set_text s e) = Some s.
Proof. destruct e. reflexivity. Qed.

(** X15. The tooltip follows the pointer: a mouseover shows it, 10 pixels
    right of the pointer and 25 above, with the label and the value of the
    hovered slice; a mousemove places it again and keeps the text; a
    mouseout makes it transparent and leaves it where it was. *)
Theorem tooltip_follows_pointer
    (ev ev' : PointerEvent) (d : PieArcDatum) (tooltip : Element) :
  let shown := show_tooltip ev d tooltip in
  let moved := move_tooltip ev' shown in
  let hidden := hide_tooltip moved in
  (get_style "opacity" shown = Some "1" /\
   get_style "left" shown = Some (px (pageX ev + 10)) /\
   get_style "top" shown = Some (px (pageY ev - 25)) /\
   text shown
   = Some ("<strong>" ++ label (arc_data d) ++ "</strong>: "
             ++ JS.toString fraction_toString (JS.Fin (value (arc_data d))))%string) /\
  (get_style "opacity" moved = Some "1" /\
   get_style "left" moved = Some (px (pageX ev' + 10)) /\
   get_style "top" moved = Some (px (pageY ev' - 25)) /\
   text moved = text shown) /\
  (get_style "opacity" hidden = Some "0" /\
   get_style "left" hidden = get_style "left" moved /\
   get_style "top" hidden = get_style "top" moved /\
   text hidden = text shown).
Proof.
  intros shown moved hidden.
  assert (Hs : get_style "opacity" shown = Some "1" /\
               get_style "left" shown = Some (px (pageX ev + 10)) /\
               get_style "top" shown = Some (px (pageY ev - 25))).
  { unfold shown, D3PieHover.show_tooltip, D3PieHover.move_tooltip.
    rewrite !get_style_set_text.
    repeat split.
    - rewrite !(get_style_other "opacity") by discriminate.
      apply get_style_same.
    - rewrite !(get_style_other "left") by discriminate.
      apply get_style_same.
    - rewrite 4!(get_style_other "top") by discriminate.
      apply get_style_same. }
  destruct Hs as [Ho [Hl Ht]].
  split; [|split].
  - repeat split; try assumption.
    unfold shown, D3PieHover.show_tooltip. apply text_set_text.
  - unfold moved, D3PieHover.move_tooltip. repeat split.
    + rewrite !(get_style_other "opacity") by discriminate. exact Ho.
    + rewrite (get_style_other "left") by discriminate. apply get_style_same.
    + apply get_style_same.
    + rewrite !text_style. reflexivity.
  - unfold hidden, D3PieHover.hide_tooltip. repeat split.
    + apply get_style_same.
    + rewrite (get_style_other "left") by discriminate. reflexivity.
    + rewrite (get_style_other "top") by discriminate. reflexivity.
    + rewrite text_style. unfold moved, D3PieHover.move_tooltip.
      rewrite !text_style. reflexivity.
Qed.

(** *** Hovering *)

Lemma revert_highlight_path outer d fill stroke :
  D3PieHover.revert (D3PieHover.highlight stroke (path_element outer d fill))
  = D3PieHover.revert (path_element outer d fill).
Proof. destruct fill, stroke; reflexivity. Qed.

Lemma change_path_of_group (f : Element -> Element) outer df :
  (forall p, tag (f p) = tag p) ->
  path_of (change_path_of f (arc_group outer df))
  = Some (f (path_element outer (fst df) (snd df))) /\
  label_of (change_path_of f (arc_group outer df))
  = Some (text_element outer (fst df)) /\
  datum (change_path_of f (arc_group outer df)) = Some (fst df).
Proof.
  intro Htag.
  assert (Hc : children (change_path_of f (arc_group outer df))
               = [f (path_element outer (fst df) (snd df));
                  text_element outer (fst df)]).
  { reflexivity. }
  unfold path_of, label_of. rewrite Hc. cbn [filter].
  rewrite Htag.
  repeat split.
Qed.

Lemma highlight_tag stroke p : tag (D3PieHover.highlight stroke p) = tag p.
Proof. destruct p, stroke; reflexivity. Qed.

Lemma revert_tag p : tag (D3PieHover.revert p) = tag p.
Proof. destruct p; reflexivity. Qed.

(** X16. Hovering a label acts on the arc of its segment as hovering the
    arc itself does: both mouseover listeners give the path the same
    highlight, show the same tooltip and leave the same colour scale; the
    highlight changes neither the fill nor the label; and after the
    mouseout the path is as a mouseout alone leaves it, without stroke. *)
Theorem label_hover_highlights_its_arc
    (outer : Q) (df : PieArcDatum * option string)
    (scl : ordinal) (ev : PointerEvent) (tooltip : Element) :
  let grp := arc_group outer df in
  let path := path_element outer (fst df) (snd df) in
  let lbl := text_element outer (fst df) in
  exists stroke scl',
    stroke_of scl (fst df) = (stroke, scl') /\
    mouseover_path scl ev tooltip path
    = Normal (D3PieHover.highlight stroke path, show_tooltip ev (fst df) tooltip, scl') /\
    mouseover_label scl ev tooltip lbl grp
    = Normal (change_path_of (D3PieHover.highlight stroke) grp,
              show_tooltip ev (fst df) tooltip, scl') /\
    path_of (change_path_of (D3PieHover.highlight stroke) grp)
    = Some (D3PieHover.highlight stroke path) /\
    label_of (change_path_of (D3PieHover.highlight stroke) grp) = Some lbl /\
    get_attr "stroke" (D3PieHover.highlight stroke path) = stroke /\
    get_attr "fill" (D3PieHover.highlight stroke path) = snd df /\
    (forall tip,
        path_of (fst (mouseout_label tip
                        (change_path_of (D3PieHover.highlight stroke) grp)))
        = Some (fst (mouseout_path tip (D3PieHover.highlight stroke path)))) /\
    D3PieHover.revert (D3PieHover.highlight stroke path) = D3PieHover.revert path /\
    get_attr "stroke" (D3PieHover.revert path) = None /\
    get_attr "fill" (D3PieHover.revert path) = snd df.
Proof.
  intros grp path lbl.
  destruct (stroke_of scl (fst df)) as [stroke scl'] eqn:Es.
  exists stroke, scl'.
  split; [reflexivity|].
  split.
  { unfold D3PieHover.mouseover_path.
    change (datum path) with (Some (fst df)). cbn [deref bind]. rewrite Es.
    reflexivity. }
  split.
  { unfold D3PieHover.mouseover_label.
    change (datum lbl) with (Some (fst df)). cbn [deref bind]. rewrite Es.
    reflexivity. }
  destruct (change_path_of_group (D3PieHover.highlight stroke) outer df
              (highlight_tag stroke)) as [Hp [Hl _]].
  split; [exact Hp|]. split; [exact Hl|].
  split.
  { unfold D3PieHover.highlight.
    rewrite !(get_attr_other "stroke") by discriminate. apply get_attr_same. }
  split.
  { unfold D3PieHover.highlight.
    rewrite !(get_attr_other "fill") by discriminate.
    apply (fill_of_path arc_path). }
  split.
  { intro tip. unfold mouseout_label, mouseout_path. cbn [fst].
    assert (Hc : children (change_path_of D3PieHover.revert
                             (change_path_of (D3PieHover.highlight stroke) grp))
                 = [D3PieHover.revert (D3PieHover.highlight stroke path); lbl]).
    { reflexivity. }
    unfold path_of. rewrite Hc. cbn [filter].
    rewrite revert_tag, highlight_tag. reflexivity. }
  split; [apply revert_highlight_path|].
  split.
  { unfold D3PieHover.revert.
    rewrite !(get_attr_other "stroke") by discriminate. apply get_attr_same. }
  unfold D3PieHover.revert.
  rewrite !(get_attr_other "fill") by discriminate.
  apply (fill_of_path arc_path).
Qed.

End SvgPointer.

(* ------------------------------------------------------------------ *)
(** ** The colour of the hover stroke *)

Section HoverStroke.
Import D3 D3Pie D3PieHover.

Variable fraction_toString : Q -> string.
Variable arc_path : Q -> Q -> PieArcDatum -> string.

#[local] Abbreviation path_element := (path_element arc_path).
#[local] Abbreviation show_tooltip := (show_tooltip fraction_toString).
#[local] Abbreviation mouseover_path := (mouseover_path fraction_toString).

Lemma index_of_position (r : nat) :
  forall n s,
    (s <= r < s + n)%nat ->
    index_of (index_toString r) (map index_toString (seq s n)) = Some (r - s)%nat.
Proof.
  induction n as [|n IH]; intros s H; [lia|].
  cbn [seq map index_of].
  destruct (String.eqb (index_toString s) (index_toString r)) eqn:E.
  - apply String.eqb_eq in E. apply index_toString_inj in E. subst.
    rewrite Nat.sub_diag. reflexivity.
  - assert (Hne : s <> r).
    { intro Heq. subst. rewrite String.eqb_refl in E. discriminate. }
    rewrite (IH (S s)) by lia. cbn [option_map]. f_equal. lia.
Qed.

Lemma index_of_later (i : nat) :
  forall n s,
    (s + n <= i)%nat ->
    index_of (index_toString i) (map index_toString (seq s n)) = None.
Proof.
  intros n s H. apply index_of_fresh. intro Hin.
  apply in_map_iff in Hin. destruct Hin as [j [Hj Hin]].
  apply index_toString_inj in Hj. subst. apply in_seq in Hin. lia.
Qed.

(** The scale after the fills of slices without colours: it has seen the
    positions, in order. *)
Lemma scale_after_uncoloured_fills (ds : list PieArcDatum) :
  forall (i : nat) (rng : list string),
    Forall (fun d => color (arc_data d) = None) ds ->
    scale_after_fills (mkOrdinal (map index_toString (seq 0 i)) rng) i ds
    = mkOrdinal (map index_toString (seq 0 (i + List.length ds))) rng.
Proof.
  induction ds as [|d rest IH]; intros i rng Hall.
  - cbn [scale_after_fills List.length]. rewrite Nat.add_0_r. reflexivity.
  - inversion Hall as [|? ? Hd Hrest]; subst.
    cbn [scale_after_fills]. unfold fill_of. rewrite Hd.
    unfold scale. cbn [domain range].
    rewrite (index_of_later i i 0) by lia.
    replace (map index_toString (seq 0 i) ++ [index_toString i])
      with (map index_toString (seq 0 (S i))).
    2:{ rewrite seq_S, map_app. reflexivity. }
    rewrite (IH (S i) rng Hrest). cbn [List.length].
    rewrite Nat.add_succ_r. reflexivity.
Qed.

Lemma uncoloured_before_all (data : list Slice) :
  Forall (fun d => color d = None) data ->
  forall i, (i <= List.length data)%nat -> uncoloured_before data i = i.
Proof.
  intro Hall. unfold uncoloured_before.
  induction Hall as [|d rest Hd Hrest IH]; intros i Hi.
  - destruct i; [reflexivity | simpl in Hi; lia].
  - destruct i as [|i]; [reflexivity|].
    cbn [firstn filter]. rewrite Hd. cbn [truthy negb List.length].
    rewrite IH; [reflexivity | simpl in Hi; lia].
Qed.

Lemma arc_index_bound (data : list Slice) (a : PieArcDatum) :
  In a (pie data) -> (arc_index a < List.length data)%nat.
Proof.
  intro Hin.
  apply (Permutation_in _ (Permutation_sym (pie_perm_ranked data))) in Hin.
  apply (in_map arc_index) in Hin. rewrite ranked_index in Hin.
  apply in_seq in Hin. lia.
Qed.

Lemma palette_distinct (m n : nat) :
  (m < 10)%nat -> (n < 10)%nat ->
  nth_error schemeCategory10 m = nth_error schemeCategory10 n -> m = n.
Proof.
  intros Hm Hn H.
  do 10 (destruct m as [|m];
         [do 10 (destruct n as [|n];
                 [first [reflexivity | (simpl in H; discriminate H)]|]); lia|]).
  lia.
Qed.

(** X17. When no slice brings a colour, the fill of the segment at a
    position is the palette colour at that position, but the stroke that
    a mouseover gives the arc is the palette colour at the arc's [index],
    its rank by descending value: the two agree only where rank and
    position agree modulo ten.  The hover leaves the colour scale as the
    fills left it. *)
Theorem hover_stroke_follows_rank
    (data : list Slice) (i : nat) (a : PieArcDatum) :
  Forall (fun d => color d = None) data ->
  nth_error (pie data) i = Some a ->
  let scl := scale_after_fills (scaleOrdinal schemeCategory10) 0 (pie data) in
  (arc_index a < List.length data)%nat /\
  nth_error (fills (scaleOrdinal schemeCategory10) 0 (pie data)) i
  = Some (nth_error schemeCategory10 (i mod 10)) /\
  stroke_of scl a = (nth_error schemeCategory10 (arc_index a mod 10), scl) /\
  (forall outer fill ev tooltip,
      mouseover_path scl ev tooltip (path_element outer a fill)
      = Normal (D3PieHover.highlight
                  (nth_error schemeCategory10 (arc_index a mod 10))
                  (path_element outer a fill),
                show_tooltip ev a tooltip, scl)) /\
  (nth_error schemeCategory10 (arc_index a mod 10)
   = nth_error schemeCategory10 (i mod 10)
   <-> arc_index a mod 10 = i mod 10).
Proof.
  intros Hall Ha scl.
  assert (Hin : In a (pie data)) by exact (nth_error_In _ _ Ha).
  pose proof (arc_index_bound data a Hin) as Hr.
  assert (Hx : nth_error data i = Some (arc_data a)).
  { rewrite <- (pie_arc_data data) at 1. rewrite nth_error_map, Ha. reflexivity. }
  assert (Hcol : color (arc_data a) = None).
  { rewrite Forall_forall in Hall. apply Hall. exact (nth_error_In _ _ Hx). }
  assert (Hi : (i < List.length data)%nat).
  { apply nth_error_Some. rewrite Hx. discriminate. }
  assert (Hscl : scl = mkOrdinal (map index_toString (seq 0 (List.length data)))
                         schemeCategory10).
  { unfold scl, scaleOrdinal.
    change (@nil string) with (map index_toString (seq 0 0)).
    rewrite scale_after_uncoloured_fills.
    - rewrite pie_length. reflexivity.
    - apply Forall_map with (f := arc_data) (P := fun d => color d = None).
      rewrite pie_arc_data. exact Hall. }
  assert (Hstroke : stroke_of scl a
                    = (nth_error schemeCategory10 (arc_index a mod 10), scl)).
  { unfold stroke_of. rewrite Hcol, Hscl. unfold scale. cbn [domain range].
    rewrite (index_of_position (arc_index a) (List.length data) 0) by lia.
    rewrite Nat.sub_0_r. reflexivity. }
  split; [exact Hr|].
  split.
  { rewrite (fills_nth data i (arc_data a) Hx). unfold fill_by_rank.
    rewrite Hcol, (uncoloured_before_all data Hall i) by lia. reflexivity. }
  split; [exact Hstroke|].
  split.
  { intros outer fill ev tooltip. unfold D3PieHover.mouseover_path.
    change (datum (path_element outer a fill)) with (Some a).
    cbn [deref bind]. rewrite Hstroke. reflexivity. }
  split.
  - apply palette_distinct; apply Nat.mod_upper_bound; discriminate.
  - intro Heq. rewrite Heq. reflexivity.
Qed.

End HoverStroke.

(* ------------------------------------------------------------------ *)
(** ** The earlier revision of the SVG widget *)

Section Revisions.
Import D3 D3Pie.

Variable fraction_toString : Q -> string.
Variable arc_path : Q -> Q -> PieArcDatum -> string.
Variable arc_centroid : Q -> Q -> PieArcDatum -> string.

#[local] Abbreviation drawChart := (drawChart fraction_toString arc_path arc_centroid).
#[local] Abbreviation groups_of := (groups_of arc_path arc_centroid).
#[local] Abbreviation old_drawn :=
  (D3PieLegacy.drawn fraction_toString arc_path arc_centroid).
#[local] Abbreviation old_ngOnChanges :=
  (D3PieLegacy.ngOnChanges fraction_toString arc_path arc_centroid).
#[local] Abbreviation old_arc_group := (D3PieLegacy.arc_group arc_path arc_centroid).
#[local] Abbreviation old_path_element := (D3PieLegacy.path_element arc_path).
#[local] Abbreviation old_text_element := (D3PieLegacy.text_element arc_centroid).

Lemma old_path_element_class outer d fill :
  has_class "arc" (old_path_element outer d fill) = false.
Proof. destruct fill; reflexivity. Qed.

Lemma old_arcs_among_groups outer (dfs : list (PieArcDatum * option string)) :
  filter (has_class "arc")
    (flat_map (fun c => c :: descendants c) (map (old_arc_group outer) dfs))
  = map (old_arc_group outer) dfs.
Proof.
  induction dfs as [|df rest IH]; [reflexivity|].
  cbn [map flat_map]. rewrite (descendants_eq (old_arc_group outer df)).
  change (children (old_arc_group outer df))
    with [old_path_element outer (fst df) (snd df); old_text_element outer (fst df)].
  cbn [flat_map].
  rewrite (descendants_leaf (old_path_element outer (fst df) (snd df)) eq_refl).
  rewrite (descendants_leaf (old_text_element outer (fst df)) eq_refl).
  cbn [app filter]. rewrite old_path_element_class.
  change (has_class "arc" (old_arc_group outer df)) with true.
  change (has_class "arc" (old_text_element outer (fst df))) with false.
  rewrite IH. reflexivity.
Qed.

Lemma old_drawn_segments (svg : Element) data width height :
  children svg = [] ->
  selectAll_class "arc" (old_drawn svg data width height)
  = map (old_arc_group (JS.Qmin width height / 2 - 10))
      (combine (pie data) (fills (scaleOrdinal schemeCategory10) 0 (pie data))).
Proof.
  intro Hc. destruct svg as [tg ats sts tx dt ls cs]. simpl in Hc. subst cs.
  unfold selectAll_class.
  change (fun x : Element => match get_attr "class" x with
                             | Some c => String.eqb c "arc"
                             | None => false
                             end) with (has_class "arc").
  rewrite descendants_eq. unfold D3PieLegacy.drawn.
  cbn [children append app flat_map filter].
  rewrite app_nil_r.
  match goal with
  | |- context [has_class "arc" ?g] =>
      replace (has_class "arc" g) with false
  end.
  2:{ unfold has_class, get_attr. rewrite append_all_attrs. reflexivity. }
  rewrite descendants_eq, append_all_children. cbn [children create attr app].
  apply old_arcs_among_groups.
Qed.

Lemma old_ngOnChanges_segments (c : D3PieComponent) (svg : Element) :
  chartContainer c = Some svg ->
  exists c',
    old_ngOnChanges c = Normal c' /\
    segments c'
    = map (old_arc_group (JS.Qmin (width c) (height c) / 2 - 10))
        (combine (pie (data c))
           (fills (scaleOrdinal schemeCategory10) 0 (pie (data c)))) /\
    data c' = data c /\ arcClick c' = arcClick c.
Proof.
  intro Hc. unfold D3PieLegacy.ngOnChanges, D3PieLegacy.drawChart.
  rewrite Hc. cbn [truthy negb deref bind].
  eexists. split; [reflexivity|].
  unfold segments. cbn [chartContainer set_chartContainer].
  split; [|split; reflexivity].
  apply old_drawn_segments. destruct svg; reflexivity.
Qed.

Lemma old_fill_in_group outer df : fill_in (old_arc_group outer df) = snd df.
Proof. destruct df as [a [f|]]; reflexivity. Qed.

Lemma old_label_in_group outer df :
  label_in (old_arc_group outer df) = Some (label (arc_data (fst df))).
Proof. destruct df as [a [f|]]; reflexivity. Qed.

(** X18. The earlier revision and the current one draw the same chart:
    for the same inputs the segments are bound to the same arcs, in the
    same order, with the same fills and the same label texts. *)
Theorem revisions_draw_the_same_slices (c : D3PieComponent) (svg : Element) :
  chartContainer c = Some svg ->
  exists c1 c2,
    old_ngOnChanges c = Normal c1 /\
    drawChart c = Normal c2 /\
    List.length (segments c1) = List.length (data c) /\
    map datum (segments c1) = map datum (segments c2) /\
    map fill_in (segments c1) = map fill_in (segments c2) /\
    map label_in (segments c1) = map label_in (segments c2).
Proof.
  intro Hc.
  destruct (old_ngOnChanges_segments c svg Hc) as [c1 [H1 [Hs1 _]]].
  destruct (drawChart_segments fraction_toString arc_path arc_centroid c svg Hc)
    as [c2 [H2 [Hs2 _]]].
  exists c1, c2. split; [exact H1|]. split; [exact H2|].
  rewrite Hs1, Hs2.
  rewrite (groups_of_datum arc_path arc_centroid),
    (groups_of_fills arc_path arc_centroid),
    (groups_of_labels arc_path arc_centroid).
  assert (Hlen : List.length (pie (data c))
                 = List.length (fills (scaleOrdinal schemeCategory10) 0 (pie (data c)))).
  { symmetry. apply fills_length. }
  split.
  { rewrite length_map, length_combine, <- Hlen, Nat.min_id. apply pie_length. }
  split; [|split]; rewrite map_map.
  - change (fun x => datum (old_arc_group (JS.Qmin (width c) (height c) / 2 - 10) x))
      with (fun x : PieArcDatum * option string => Some (fst x)).
    rewrite <- (map_map fst Some), (map_fst_combine _ _ Hlen). reflexivity.
  - rewrite (map_ext _ snd (fun df => old_fill_in_group _ df)).
    apply (map_snd_combine _ _ Hlen).
  - rewrite (map_ext _ (fun df => Some (label (arc_data (fst df))))
               (fun df => old_label_in_group _ df)).
    rewrite <- (map_map fst (fun a => Some (label (arc_data a)))).
    rewrite (map_fst_combine _ _ Hlen).
    rewrite <- (map_map arc_data (fun x => Some (label x))).
    rewrite pie_arc_data. reflexivity.
Qed.

(** X19. In the earlier revision only the arcs are clickable: a click on
    the path of a segment emits the slice at its position, a click on its
    label emits nothing, as the label has no listener. *)
Theorem earlier_revision_labels_do_not_emit
    (c : D3PieComponent) (svg : Element) (i : nat) (x : Slice) :
  chartContainer c = Some svg ->
  nth_error (data c) i = Some x ->
  exists c' grp path lbl,
    old_ngOnChanges c = Normal c' /\
    nth_error (segments c') i = Some grp /\
    path_of grp = Some path /\ label_of grp = Some lbl /\
    text lbl = Some (label x) /\
    listeners lbl = [] /\
    click lbl c' = c' /\
    click path c' = emit x c' /\
    arcClick (emit x c') = arcClick c ++ [x].
Proof.
  intros Hc Hx.
  destruct (old_ngOnChanges_segments c svg Hc) as [c' [Hd [Hs [_ Hclick]]]].
  destruct (groups_of_nth arc_path arc_centroid (data c) (width c) (height c) i x Hx)
    as [a [fill [Ha [Hpa [Hf _]]]]].
  assert (Hlen : List.length (pie (data c))
                 = List.length (fills (scaleOrdinal schemeCategory10) 0 (pie (data c)))).
  { symmetry. apply fills_length. }
  destruct (nth_error_combine_same _ _ i a Hlen Hpa) as [fill' [Hf' Hcomb]].
  rewrite Hf in Hf'. injection Hf' as <-.
  set (outer := JS.Qmin (width c) (height c) / 2 - 10) in *.
  exists c', (old_arc_group outer (a, fill)),
    (old_path_element outer a fill), (old_text_element outer a).
  split; [exact Hd|].
  split.
  { rewrite Hs. rewrite nth_error_map, Hcomb. reflexivity. }
  split; [destruct fill; reflexivity|].
  split; [destruct fill; reflexivity|].
  split; [rewrite <- Ha; reflexivity|].
  split; [reflexivity|].
  split; [reflexivity|].
  split.
  { rewrite <- Ha. destruct fill; reflexivity. }
  cbn [arcClick emit]. rewrite Hclick. reflexivity.
Qed.

End Revisions.

(* ------------------------------------------------------------------ *)
(** ** Further concrete runs *)

(** X1 at the slices A (red) and B (no colour): the created chart keeps
    the red and makes one random draw. *)
Lemma created_chart_colours_witness :
  let slices := [mkSlice "A" 30 (Some "#ff0000"); mkSlice "B" 50 None] in
  let canvas := ChartjsPie.mkCanvas (Some ChartjsPie.context2D) in
  let es := [ChartjsPie.ViewReady canvas;
             ChartjsPie.SetInputs
               (ChartjsPie.mkInputs slices 300 300 EmptyString false true
                  ChartjsPie.Label)] in
  let s := state_of (ChartjsPie.run no_fraction half_random ChartjsPie.constructed es) in
  ChartjsPie.run no_fraction half_random ChartjsPie.constructed es = Normal s /\
  ChartjsPie.component_destroyed s = false /\
  ChartjsPie.render_pending s = true /\
  ChartjsPie.chartContainer s = Some canvas /\
  ChartjsPie.getContext_2d canvas = Some ChartjsPie.context2D /\
  exists s' ch ds,
    ChartjsPie.step no_fraction half_random s ChartjsPie.AfterNextRender = Normal s' /\
    ChartjsPieSpec.current_chart s' = Some ch /\
    ChartJs.datasets (ChartJs.data ch) = [ds] /\
    nth_error (ChartJs.backgroundColor ds) 0 = Some "#ff0000" /\
    ChartjsPie.random_calls s' = 1%nat.
Proof.
  intros slices canvas es s.
  destruct (created_chart_colours no_fraction half_random es s canvas
              ChartjsPie.context2D eq_refl eq_refl eq_refl eq_refl eq_refl)
    as [s' [ch [ds [Hs [Hc [Hds [_ [Hn Hcol]]]]]]]].
  split; [reflexivity|]. split; [reflexivity|]. split; [reflexivity|].
  split; [reflexivity|]. split; [reflexivity|].
  exists s', ch, ds.
  split; [exact Hs|]. split; [exact Hc|]. split; [exact Hds|].
  split; [exact (Hcol 0%nat (mkSlice "A" 30 (Some "#ff0000")) eq_refl) | exact Hn].
Defined.

(** X2 at a chart without data that gets the slices A (red) and B (no
    colour): one more random draw. *)
Lemma update_redraws_only_missing_colours_witness :
  let s := sample_canvas [] ChartjsPie.Label in
  let i := ChartjsPie.mkInputs
             [mkSlice "A" 30 (Some "#ff0000"); mkSlice "B" 50 None]
             300 300 EmptyString false true ChartjsPie.Label in
  ChartjsPie.run no_fraction half_random ChartjsPie.constructed
    (sample_events [] ChartjsPie.Label) = Normal s /\
  ChartjsPieSpec.current_chart s = Some (chart_of s) /\
  exists s' ch' ds,
    ChartjsPie.step no_fraction half_random s (ChartjsPie.SetInputs i) = Normal s' /\
    ChartjsPieSpec.current_chart s' = Some ch' /\
    ChartJs.datasets (ChartJs.data ch') = [ds] /\
    nth_error (ChartJs.backgroundColor ds) 0 = Some "#ff0000" /\
    ChartjsPie.random_calls s' = S (ChartjsPie.random_calls s).
Proof.
  intros s i.
  destruct (update_redraws_only_missing_colours no_fraction half_random
              (sample_events [] ChartjsPie.Label) s (chart_of s) i eq_refl eq_refl)
    as [s' [ch' [ds [Hs [Hc [Hds [Hn [Hcol _]]]]]]]].
  split; [reflexivity|]. split; [reflexivity|].
  exists s', ch', ds.
  split; [exact Hs|]. split; [exact Hc|]. split; [exact Hds|].
  split; [exact (Hcol 0%nat (mkSlice "A" 30 (Some "#ff0000")) eq_refl)|].
  rewrite Hn. simpl. lia.
Defined.

(** X3 at the run that mounts, sets A, B, C and renders. *)
Lemma chart_follows_inputs_witness :
  let s := sample_canvas sample_ABC ChartjsPie.Label in
  ChartjsPie.run no_fraction half_random ChartjsPie.constructed
    (sample_events sample_ABC ChartjsPie.Label) = Normal s /\
  ChartjsPieSpec.current_chart s = Some (chart_of s) /\
  ChartJs.legend_display (ChartJs.options (chart_of s)) = false /\
  ChartJs.title_display (ChartJs.options (chart_of s)) = false /\
  ChartJs.labels (ChartJs.data (chart_of s)) = ["A"; "B"; "C"].
Proof.
  intro s.
  destruct (chart_follows_inputs no_fraction half_random
              (sample_events sample_ABC ChartjsPie.Label) s (chart_of s)
              eq_refl eq_refl)
    as [Hl [_ [Ht [_ [Hlab _]]]]].
  split; [reflexivity|]. split; [reflexivity|].
  split; [exact Hl|]. split; [exact Ht | exact Hlab].
Defined.

(** X4 at the slice A of A: 30, B: 50, C: 20. *)
Lemma rounded_percentage_within_0_100_witness :
  Forall (fun d => 0 <= value d) sample_ABC /\
  In (mkSlice "A" 30 None) sample_ABC /\
  ~ total_value sample_ABC == 0 /\
  exists z,
    ChartjsPie.rounded_percentage (JS.Fin 30) (JS.Fin (total_value sample_ABC))
    = JS.Fin (inject_Z z) /\
    (0 <= z <= 100)%Z.
Proof.
  assert (Hn : Forall (fun d => 0 <= value d) sample_ABC).
  { repeat constructor; vm_compute; discriminate. }
  assert (Hin : In (mkSlice "A" 30 None) sample_ABC) by (left; reflexivity).
  assert (Hnz : ~ total_value sample_ABC == 0) by (vm_compute; discriminate).
  destruct (rounded_percentage_within_0_100 no_fraction sample_ABC
              (mkSlice "A" 30 None) Hn Hin Hnz) as [z [Hz [Hb _]]].
  split; [exact Hn|]. split; [exact Hin|]. split; [exact Hnz|].
  exists z. split; [exact Hz | exact Hb].
Defined.


(** X6 at the slices A, B, C. *)
Lemma at_most_twenty_inline_labels_witness :
  let s := sample_canvas sample_ABC ChartjsPie.Label in
  ChartjsPie.run no_fraction half_random ChartjsPie.constructed
    (sample_events sample_ABC ChartjsPie.Label) = Normal s /\
  ChartjsPieSpec.current_chart s = Some (chart_of s) /\
  Forall (fun d => 0 <= value d) (ChartjsPie.data (ChartjsPie.inputs s)) /\
  (List.length (shown_positions (chart_of s) 3) <= 20)%nat.
Proof.
  intro s.
  assert (Hn : Forall (fun d => 0 <= value d) (ChartjsPie.data (ChartjsPie.inputs s))).
  { repeat constructor; vm_compute; discriminate. }
  split; [reflexivity|]. split; [reflexivity|]. split; [exact Hn|].
  exact (at_most_twenty_inline_labels no_fraction half_random
           (sample_events sample_ABC ChartjsPie.Label) s (chart_of s)
           eq_refl eq_refl Hn).
Defined.

(** X7 at a click on the second of the slices A, B, C. *)
Lemma only_segment_clicks_emit_witness :
  let s := sample_canvas sample_ABC ChartjsPie.Label in
  let s' := ChartjsPie.emit (mkSlice "B" 50 None) s in
  ChartjsPie.run no_fraction half_random ChartjsPie.constructed
    (sample_events sample_ABC ChartjsPie.Label) = Normal s /\
  ChartjsPie.step no_fraction half_random s (ChartjsPie.CanvasClick [1%nat])
  = Normal s' /\
  (ChartjsPie.segmentClick s' = ChartjsPie.segmentClick s \/
   exists i rest x,
     ChartjsPie.CanvasClick [1%nat] = ChartjsPie.CanvasClick (i :: rest) /\
     nth_error (ChartjsPie.data (ChartjsPie.inputs s)) i = Some x /\
     ChartjsPie.chart s <> None /\
     ChartjsPie.segmentClick s' = ChartjsPie.segmentClick s ++ [x]).
Proof.
  intros s s'.
  split; [reflexivity|]. split; [reflexivity|].
  exact (proj1 (only_segment_clicks_emit no_fraction half_random
                  (sample_events sample_ABC ChartjsPie.Label) s s'
                  (ChartjsPie.CanvasClick [1%nat]) eq_refl eq_refl)).
Defined.

(** X8 at the run that mounts, sets A, B, C, renders and clicks the
    second segment. *)
Lemma emitted_slices_come_from_inputs_witness :
  let es := sample_events sample_ABC ChartjsPie.Label
            ++ [ChartjsPie.CanvasClick [1%nat]] in
  let s := state_of (ChartjsPie.run no_fraction half_random ChartjsPie.constructed es) in
  ChartjsPie.run no_fraction half_random ChartjsPie.constructed es = Normal s /\
  ChartjsPie.segmentClick s = [mkSlice "B" 50 None] /\
  Forall (fun x => exists i, In (ChartjsPie.SetInputs i) es /\ In x (ChartjsPie.data i))
    (ChartjsPie.segmentClick s).
Proof.
  intros es s.
  assert (Hr : ChartjsPie.run no_fraction half_random ChartjsPie.constructed es
               = Normal s) by (vm_compute; reflexivity).
  split; [exact Hr|]. split; [vm_compute; reflexivity|].
  exact (proj1 (emitted_slices_come_from_inputs no_fraction half_random es s Hr)).
Defined.

(** X9 at the chart of the slices A, B, C. *)
Lemma nothing_runs_on_a_destroyed_chart_witness :
  let s := sample_canvas sample_ABC ChartjsPie.Label in
  let s' := state_of (ChartjsPie.ngOnDestroy s) in
  ChartjsPie.ngOnDestroy s = Normal s' /\
  ChartjsPie.chart s' = None /\
  ChartjsPie.updateChart no_fraction half_random s' = Normal s'.
Proof.
  intros s s'.
  destruct (nothing_runs_on_a_destroyed_chart no_fraction half_random s s' eq_refl)
    as [Hc [_ [Hu _]]].
  split; [reflexivity|]. split; [exact Hc | exact Hu].
Defined.

(** X10 at the random number one half: the colour "#7fffff". *)
Lemma random_colour_is_six_hex_digits_witness :
  0 <= half_random (ChartjsPie.random_calls ChartjsPie.constructed) /\
  half_random (ChartjsPie.random_calls ChartjsPie.constructed) < 1 /\
  fst (ChartjsPie.getRandomColor half_random ChartjsPie.constructed) = "#7fffff" /\
  String.length (fst (ChartjsPie.getRandomColor half_random ChartjsPie.constructed))
  = 7%nat.
Proof.
  assert (H0 : 0 <= half_random (ChartjsPie.random_calls ChartjsPie.constructed))
    by (vm_compute; discriminate).
  assert (H1 : half_random (ChartjsPie.random_calls ChartjsPie.constructed) < 1)
    by reflexivity.
  destruct (random_colour_is_six_hex_digits half_random ChartjsPie.constructed H0 H1)
    as [n [_ [_ [Hlen _]]]].
  split; [exact H0|]. split; [exact H1|]. split; [reflexivity | exact Hlen].
Defined.

(** X12 at the run that sets A, B, C, mounts the surface and clicks an
    element outside it. *)
Lemma svg_surface_tracks_inputs_witness :
  let es := [D3Pie.SetData sample_ABC; D3Pie.ViewReady (D3.create "svg" None);
             D3Pie.Click (D3.create "svg" None)] in
  let c := match svg_run no_fraction no_geometry no_geometry D3Pie.initial es with
           | Normal c => c
           | Throw _ => D3Pie.initial
           end in
  let svg := match D3Pie.chartContainer c with
             | Some svg => svg
             | None => D3.create "svg" None
             end in
  svg_run no_fraction no_geometry no_geometry D3Pie.initial es = Normal c /\
  ~ In D3Pie.Destroy es /\
  D3Pie.chartContainer c = Some svg /\
  List.length (D3PieSpec.segments c) = 3%nat /\
  map label_in (D3PieSpec.segments c) = [Some "A"; Some "B"; Some "C"].
Proof.
  intros es c svg.
  assert (Hno : ~ In D3Pie.Destroy es).
  { simpl. intros [H | [H | [H | H]]]; try discriminate H. exact H. }
  destruct (svg_surface_tracks_inputs no_fraction no_geometry no_geometry es c svg
              eq_refl Hno eq_refl) as [Hlen [_ [Hlab _]]].
  split; [reflexivity|]. split; [exact Hno|]. split; [reflexivity|].
  split; [exact Hlen | exact Hlab].
Defined.

(** X13 at the drawn slices A, B, C and the width 200. *)
Lemma resize_keeps_slices_and_colours_witness :
  let c1 := match D3Pie.drawChart no_fraction no_geometry no_geometry sample_svg with
            | Normal c => c
            | Throw _ => sample_svg
            end in
  D3Pie.chartContainer sample_svg = Some (D3.create "svg" None) /\
  D3Pie.drawChart no_fraction no_geometry no_geometry sample_svg = Normal c1 /\
  exists c2,
    D3Pie.step no_fraction no_geometry no_geometry c1 (D3Pie.SetWidth 200) = Normal c2 /\
    map fill_in (D3PieSpec.segments c2) = map fill_in (D3PieSpec.segments c1).
Proof.
  intro c1.
  destruct (resize_keeps_slices_and_colours no_fraction no_geometry no_geometry
              sample_svg c1 (D3.create "svg" None) (D3Pie.SetWidth 200)
              eq_refl eq_refl (or_introl (ex_intro _ 200 eq_refl)))
    as [c2 [Hs [_ [Hf _]]]].
  split; [reflexivity|]. split; [reflexivity|].
  exists c2. split; [exact Hs | exact Hf].
Defined.

(** X14 at the drawn slices A, B, C and the first element below the
    surface, the centred group. *)
Lemma svg_click_emits_a_slice_or_nothing_witness :
  let c' := match D3Pie.drawChart no_fraction no_geometry no_geometry sample_svg with
            | Normal c => c
            | Throw _ => sample_svg
            end in
  let svg' := match D3Pie.chartContainer c' with
              | Some svg => svg
              | None => D3.create "svg" None
              end in
  let t := List.hd (D3.create "g" None) (D3.descendants svg') in
  D3Pie.drawChart no_fraction no_geometry no_geometry sample_svg = Normal c' /\
  D3Pie.chartContainer c' = Some svg' /\
  In t (D3.descendants svg') /\
  (D3Pie.click t c' = c' \/ exists x, In x sample_ABC /\ D3Pie.click t c' = D3Pie.emit x c').
Proof.
  intros c' svg' t.
  assert (Hin : In t (D3.descendants svg')) by (left; reflexivity).
  split; [reflexivity|]. split; [reflexivity|]. split; [exact Hin|].
  destruct (svg_click_emits_a_slice_or_nothing no_fraction no_geometry no_geometry
              sample_svg c' svg' t eq_refl eq_refl Hin)
    as [[_ Hc] | [a [_ [Ha [_ [_ Hc]]]]]].
  - left. exact Hc.
  - right. exists (D3.arc_data a). split; [exact Ha | exact Hc].
Defined.

(** X17 at the slices A: 30, B: 50, C: 20: A is first in the sequence and
    second by value, so that its fill is the first palette colour and its
    hover stroke the second. *)
Lemma hover_stroke_follows_rank_witness :
  let a := match nth_error (D3.pie sample_ABC) 0 with
           | Some a => a
           | None => D3.unplaced (mkSlice "A" 30 None)
           end in
  Forall (fun d => color d = None) sample_ABC /\
  nth_error (D3.pie sample_ABC) 0 = Some a /\
  D3.arc_index a = 1%nat /\
  nth_error (D3Pie.fills (D3.scaleOrdinal D3.schemeCategory10) 0 (D3.pie sample_ABC)) 0
  = Some (Some "#1f77b4") /\
  fst (D3PieHover.stroke_of
         (D3PieHover.scale_after_fills (D3.scaleOrdinal D3.schemeCategory10) 0
            (D3.pie sample_ABC)) a)
  = Some "#ff7f0e".
Proof.
  intro a.
  assert (Hall : Forall (fun d => color d = None) sample_ABC)
    by (repeat constructor).
  assert (Ha : nth_error (D3.pie sample_ABC) 0 = Some a) by (vm_compute; reflexivity).
  destruct (hover_stroke_follows_rank no_fraction no_geometry sample_ABC 0%nat a
              Hall Ha) as [_ [Hf [Hs _]]].
  split; [exact Hall|]. split; [exact Ha|].
  split; [vm_compute; reflexivity|].
  split; [exact Hf|].
  rewrite Hs. vm_compute. reflexivity.
Defined.

(** X18 at the slices A, B, C. *)
Lemma revisions_draw_the_same_slices_witness :
  D3Pie.chartContainer sample_svg = Some (D3.create "svg" None) /\
  exists c1 c2,
    D3PieLegacy.ngOnChanges no_fraction no_geometry no_geometry sample_svg = Normal c1 /\
    D3Pie.drawChart no_fraction no_geometry no_geometry sample_svg = Normal c2 /\
    map fill_in (D3PieSpec.segments c1) = map fill_in (D3PieSpec.segments c2).
Proof.
  destruct (revisions_draw_the_same_slices no_fraction no_geometry no_geometry
              sample_svg (D3.create "svg" None) eq_refl)
    as [c1 [c2 [H1 [H2 [_ [_ [Hf _]]]]]]].
  split; [reflexivity|].
  exists c1, c2. split; [exact H1|]. split; [exact H2 | exact Hf].
Defined.

(** X19 at the second of the slices A, B, C. *)
Lemma earlier_revision_labels_do_not_emit_witness :
  D3Pie.chartContainer sample_svg = Some (D3.create "svg" None) /\
  nth_error (D3Pie.data sample_svg) 1 = Some (mkSlice "B" 50 None) /\
  exists c' lbl path,
    D3PieLegacy.ngOnChanges no_fraction no_geometry no_geometry sample_svg = Normal c' /\
    D3.text lbl = Some "B" /\
    D3Pie.click lbl c' = c' /\
    D3Pie.click path c' = D3Pie.emit (mkSlice "B" 50 None) c'.
Proof.
  destruct (earlier_revision_labels_do_not_emit no_fraction no_geometry no_geometry
              sample_svg (D3.create "svg" None) 1%nat (mkSlice "B" 50 None)
              eq_refl eq_refl)
    as [c' [grp [path [lbl [Hd [_ [_ [_ [Ht [_ [Hl [Hp _]]]]]]]]]]]].
  split; [reflexivity|]. split; [reflexivity|].
  exists c', lbl, path.
  split; [exact Hd|]. split; [exact Ht|]. split; [exact Hl | exact Hp].
Defined.
